(** * Mavic: the reddit image scraper (src/reddit/scraper.go, src/reddit/json.go)

    A shallow embedding of the Go scraper: the string and path helpers of the
    Go standard library it calls, the JSON data model, the metadata parsing
    stage, the download worker, and the goroutine pipeline as a labelled
    transition system. *)

From Stdlib Require Import ZArith Ascii DecimalString.
From Stdlib Require String.
From stdpp Require Import gmap strings list.

Local Open Scope Z_scope.
Local Open Scope nat_scope.

(** ** Outcomes of fallible code *)

(** Ways in which the Go program stops abnormally.  A panic that no goroutine
    recovers, and [log.Fatal], both end the whole process. *)
Inductive panic : Type :=
  | NilDereference        (* runtime error: invalid memory address or nil pointer dereference *)
  | LogPanic              (* log.Panic *)
  | LogFatal              (* log.Fatal / log.Fatalf *)
  | SendOnClosedChannel   (* panic: send on closed channel *)
  | NilMapAssignment      (* panic: assignment to entry in nil map *)
  | ConcurrentMapAccess   (* fatal error: concurrent map writes / read and map write *)
  | NegativeWaitGroup     (* panic: sync: negative WaitGroup counter *)
  | SemaphoreOverRelease. (* panic: semaphore: released more than held *)

Inductive result (A : Type) : Type :=
  | Ok (a : A)
  | Panic (p : panic).
Arguments Ok {A} a.
Arguments Panic {A} p.

#[global] Instance panic_eq_dec : EqDecision panic.
Proof. solve_decision. Defined.

(** Sequencing: a panic in the first computation is the outcome of both. *)
Definition bind {A B : Type} (r : result A) (f : A -> result B) : result B :=
  match r with
  | Ok a => f a
  | Panic p => Panic p
  end.

Notation "'do' x <- e ; k" := (bind e (fun x => k))
  (at level 10, x name, e at level 100, k at level 200).

(** [*p] on a pointer that may be nil. *)
Definition deref {A : Type} (p : option A) : result A :=
  match p with
  | Some a => Ok a
  | None => Panic NilDereference
  end.

(** ** The Go [strings] and [path] functions used by the scraper *)

Module GoStrings.

(** [strings.HasSuffix]: [len(s) >= len(suffix) && s[len(s)-len(suffix):] == suffix]. *)
Definition HasSuffix (s suffix : string) : bool :=
  (String.length suffix <=? String.length s) &&
  String.eqb
    (String.substring (String.length s - String.length suffix)
                      (String.length suffix) s)
    suffix.

(** [strings.Contains]: [substr] occurs somewhere in [s]. *)
Fixpoint Contains (s substr : string) : bool :=
  String.prefix substr s ||
  match s with
  | EmptyString => false
  | String _ rest => Contains rest substr
  end.

(** [strings.Split(s, sep)] for a one-byte separator, the only kind the
    scraper uses ("/", "." and "-").  The result is never empty. *)
Fixpoint Split (s : string) (sep : ascii) : list string :=
  match s with
  | EmptyString => [EmptyString]
  | String c rest =>
      if Ascii.eqb c sep then EmptyString :: Split rest sep
      else match Split rest sep with
           | seg :: segs => String c seg :: segs
           | [] => [String c EmptyString]
           end
  end.

(** [xs[len(xs)-1]] on the result of a [Split]. *)
Definition lastSegment (s : string) (sep : ascii) : string :=
  List.last (Split s sep) EmptyString.

Fixpoint dropBytes (n : nat) (s : string) : string :=
  match n, s with
  | S n', String _ rest => dropBytes n' rest
  | _, _ => s
  end.

(** [strings.Replace(s, old, new, 1)]: the first occurrence of [old] is
    replaced; an empty [old] matches at the start of [s]. *)
Fixpoint ReplaceFirst (s old new : string) : string :=
  if String.prefix old s then new +:+ dropBytes (String.length old) s
  else match s with
       | EmptyString => EmptyString
       | String c rest => String c (ReplaceFirst rest old new)
       end.

(** A string from the codes of its bytes. *)
Definition bytes (codes : list nat) : string :=
  String.string_of_list_ascii (ascii_of_nat <$> codes).

(** The runes [unicode.IsSpace] holds of, in UTF-8: tab, line feed, vertical
    tab, form feed, carriage return and space; U+0085 and U+00A0; U+1680;
    U+2000 to U+200A; U+2028, U+2029, U+202F, U+205F and U+3000. *)
Definition spaceRunes : list string := Eval cbv in
  (bytes <$> [[9]; [10]; [11]; [12]; [13]; [32]; [194; 133]; [194; 160];
              [225; 154; 128]])
  ++ ((fun last => bytes [226; 128; last]) <$> seq 128 11)
  ++ (bytes <$> [[226; 128; 168]; [226; 128; 169]; [226; 128; 175];
                 [226; 129; 159]; [227; 128; 128]]).

Definition isSpaceRune (encoding : list ascii) : bool :=
  bool_decide (String.string_of_list_ascii encoding ∈ spaceRunes).

(** The runes at the start of [s] are dropped as long as [space] holds of
    their bytes.  A white-space rune takes one, two or three bytes; bytes
    that do not decode to one, valid or not, end the scan. *)
Fixpoint trimStart (space : list ascii -> bool) (s : string) : string :=
  match s with
  | String a rest1 =>
      if space [a] then trimStart space rest1
      else match rest1 with
           | String b rest2 =>
               if space [a; b] then trimStart space rest2
               else match rest2 with
                    | String c rest3 =>
                        if space [a; b; c] then trimStart space rest3 else s
                    | EmptyString => s
                    end
           | EmptyString => s
           end
  | EmptyString => EmptyString
  end.

Definition reverse (s : string) : string :=
  String.string_of_list_ascii (rev (String.list_ascii_of_string s)).

(** [strings.TrimLeftFunc(s, unicode.IsSpace)]. *)
Definition trimLeft (s : string) : string := trimStart isSpaceRune s.

(** [strings.TrimRightFunc(s, unicode.IsSpace)]: the same scan from the end,
    where the bytes of a rune come last byte first. *)
Definition trimRight (s : string) : string :=
  reverse (trimStart (fun encoding => isSpaceRune (rev encoding)) (reverse s)).

(** [strings.TrimSpace]: leading and trailing white space, as
    [unicode.IsSpace] defines it, is removed; the ASCII fast path of the Go
    function gives the same result. *)
Definition TrimSpace (s : string) : string := trimRight (trimLeft s).

(** [fmt.Sprintf("%v", n)] for an [int]. *)
Definition formatInt (n : Z) : string := NilZero.string_of_int (Z.to_int n).

(** [strings.Join(elems, "/")]. *)
Fixpoint joinSlash (elems : list string) : string :=
  match elems with
  | [] => EmptyString
  | [e] => e
  | e :: rest => e +:+ "/" +:+ joinSlash rest
  end.

End GoStrings.

Module GoPath.
Import GoStrings.

(** One element of [path.Clean]'s scan, on the stack of kept elements (top
    first): empty and "." elements vanish; ".." removes the element before
    it, is dropped at the root, and is kept at the start of a relative
    path. *)
Definition cleanElem (rooted : bool) (kept : list string) (elem : string) : list string :=
  if String.eqb elem EmptyString || String.eqb elem "." then kept
  else if String.eqb elem ".." then
    match kept with
    | top :: below => if String.eqb top ".." then elem :: kept else below
    | [] => if rooted then [] else [elem]
    end
  else elem :: kept.

(** [path.Clean]: the shortest path equivalent to [p] by lexical
    processing; the empty path and a relative path that cancels out are
    ".". *)
Definition Clean (p : string) : string :=
  if String.eqb p EmptyString then "."
  else
    let rooted := String.prefix "/" p in
    let body := joinSlash (rev (fold_left (cleanElem rooted) (Split p "/") [])) in
    if rooted then "/" +:+ body
    else if String.eqb body EmptyString then "." else body.

(** The buffer [path.Join] builds: a "/" goes before every element once the
    buffer is non-empty, and leading empty elements are skipped. *)
Definition joinBuf (buf elem : string) : string :=
  if negb (String.eqb buf EmptyString) || negb (String.eqb elem EmptyString) then
    (if negb (String.eqb buf EmptyString) then buf +:+ "/" else buf) +:+ elem
  else buf.

(** [path.Join]. *)
Definition Join (elem : list string) : string :=
  if forallb (fun e => String.eqb e EmptyString) elem then EmptyString
  else Clean (fold_left joinBuf elem EmptyString).

End GoPath.

Import GoStrings GoPath.

(** ** Data model (src/reddit/json.go) *)

(** [ChildData]: every field is a [*string] with [omitempty], so every field
    may be nil after decoding. *)
Record ChildData : Type := {
  Title : option string;
  Domain : option string;
  ID : option string;
  Author_ : option string;
  Permalink : option string;
  PostHint : option string;
  URL : option string;
  Subreddit : option string
}.

Record Child : Type := { ChildData_ : option ChildData }.

Record ListingData : Type := {
  Dist : option Z;
  Children : list Child
}.

Record Listings : Type := { Data : option ListingData }.

(** The zero value [Listings{}]. *)
Definition emptyListings : Listings := {| Data := None |}.

(** Modelled from the spec: the declaration of the Go type [Author] is not
    part of the two Go files.  Its fields are those of the composite literal
    in [redditChildToImage] ([link], [name]), the author reference of a
    candidate. *)
Record Author : Type := {
  author_link : string;
  author_name : string
}.

(** Modelled from the spec: the declaration of the Go type [Image] is not
    part of the two Go files.  Its fields are those of the composite literal
    in [redditChildToImage], which are the spec's fields of a candidate: id,
    derived image id, post link, source link, title, owning feed, source
    domain, author. *)
Record Image : Type := {
  author : Author;
  id : string;
  imageId : string;
  postLink : string;
  link : string;
  title : string;
  subreddit : string;
  source : string
}.

(** Modelled from the spec: the declaration of the Go type [Options] is not
    part of the two Go files.  Its fields are the selectors scraper.go uses
    on [options] and [s.scrapingOptions], which are the spec's command line
    surface: output directory, item limit, front-page toggle, page type, feed
    list, maximum of concurrent downloads, root-folder-only toggle. *)
Record Options : Type := {
  OutputDirectory : string;
  ImageLimit : Z;
  FrontPage : bool;
  PageType : string;
  Subreddits : list string;
  MaxConcurrentDownloads : Z;
  RootFolderOnly : bool
}.

#[global] Instance Author_eq_dec : EqDecision Author.
Proof. solve_decision. Defined.
#[global] Instance Image_eq_dec : EqDecision Image.
Proof. solve_decision. Defined.

(** The zero value [Image{}], which fills a slice made by [make([]Image, n)]. *)
Definition zeroImage : Image := {|
  author := {| author_link := EmptyString; author_name := EmptyString |};
  id := EmptyString; imageId := EmptyString; postLink := EmptyString;
  link := EmptyString; title := EmptyString; subreddit := EmptyString;
  source := EmptyString
|}.

Definition zeroOptions : Options := {|
  OutputDirectory := EmptyString; ImageLimit := 0; FrontPage := false;
  PageType := EmptyString; Subreddits := []; MaxConcurrentDownloads := 0;
  RootFolderOnly := false
|}.

Definition set_subreddit (sub : string) (image : Image) : Image := {|
  author := author image; id := id image; imageId := imageId image;
  postLink := postLink image; link := link image; title := title image;
  subreddit := sub; source := source image
|}.

Definition set_link (l : string) (image : Image) : Image := {|
  author := author image; id := id image; imageId := imageId image;
  postLink := postLink image; link := l; title := title image;
  subreddit := subreddit image; source := source image
|}.

Definition set_ImageLimit (n : Z) (o : Options) : Options := {|
  OutputDirectory := OutputDirectory o; ImageLimit := n; FrontPage := FrontPage o;
  PageType := PageType o; Subreddits := Subreddits o;
  MaxConcurrentDownloads := MaxConcurrentDownloads o;
  RootFolderOnly := RootFolderOnly o
|}.

Definition set_Subreddits (subs : list string) (o : Options) : Options := {|
  OutputDirectory := OutputDirectory o; ImageLimit := ImageLimit o;
  FrontPage := FrontPage o; PageType := PageType o; Subreddits := subs;
  MaxConcurrentDownloads := MaxConcurrentDownloads o;
  RootFolderOnly := RootFolderOnly o
|}.

(** ** Metadata parsing (json.go: redditChildToImage; scraper.go: parseLinksFromListings) *)

(** [redditChildToImage]: every pointer of the child is dereferenced without
    a nil check. *)
Definition redditChildToImage (child : Child) : result Image :=
  do data <- deref (ChildData_ child);
  do url <- deref (URL data);
  let splitUrl := Split url "/" in
  let imageId := List.hd EmptyString (Split (List.last splitUrl EmptyString) ".") in
  do authorName <- deref (Author_ data);
  do id <- deref (ID data);
  do permalink <- deref (Permalink data);
  do title <- deref (Title data);
  do subreddit <- deref (Subreddit data);
  do domain <- deref (Domain data);
  Ok {| author := {| author_link := "https://www.reddit.com/user/" +:+ authorName +:+ "/";
                     author_name := authorName |};
        id := id; imageId := imageId; postLink := permalink; link := url;
        title := title; subreddit := subreddit; source := domain |}.

(** The test of the first loop of [parseLinksFromListings]: the domain or the
    post hint qualifies the entry (both nil-checked), then the URL is
    dereferenced (not nil-checked) and its last segment must hold a ".". *)
Definition keepsChild (value : Child) : result bool :=
  do data <- deref (ChildData_ value);
  if match Domain data with Some d => Contains d "imgur" | None => false end ||
     match PostHint data with Some h => Contains h "image" | None => false end
  then
    do url <- deref (URL data);
    Ok (Contains (List.last (Split url "/") EmptyString) ".")
  else Ok false.

(** First loop: [filteredList = append(filteredList, value)] for the kept
    children, in listing order. *)
Fixpoint filterChildren (children : list Child) : result (list Child) :=
  match children with
  | [] => Ok []
  | value :: rest =>
      do keep <- keepsChild value;
      do filtered <- filterChildren rest;
      Ok (if keep then value :: filtered else filtered)
  end.

(** Second loop, from index [k] on: [returnableImages[k] = image] unless the
    image id is blank, in which case [continue] leaves slot [k] as it was. *)
Fixpoint fillImages (k : nat) (filteredList : list Child)
    (returnableImages : list Image) : result (list Image) :=
  match filteredList with
  | [] => Ok returnableImages
  | v :: rest =>
      do image <- redditChildToImage v;
      if String.eqb (TrimSpace (imageId image)) EmptyString then
        fillImages (S k) rest returnableImages
      else
        fillImages (S k) rest (<[k := image]> returnableImages)
  end.

Definition parseLinksFromListings (listings : Listings) : result (list Image) :=
  match Data listings with
  | None => Ok []
  | Some data =>
      if Nat.eqb (length (Children data)) 0 then Ok []
      else
        do filteredList <- filterChildren (Children data);
        fillImages 0 filteredList (replicate (length filteredList) zeroImage)
  end.

(** ** The scraper and its construction (scraper.go: Scraper, NewScraper) *)

(** [DownloadState]. *)
Inductive DownloadState : Type := DOWNLOADING | SUCCESS | SKIPPED | FAILED.

#[global] Instance DownloadState_eq_dec : EqDecision DownloadState.
Proof. solve_decision. Defined.

(** [updateState]. *)
Record updateState : Type := {
  us_image : Image;
  us_state : DownloadState
}.

(** The value fields of [Scraper].  The map [uniqueImageIds] and the two
    channels are references shared by every copy of the scraper: they live in
    the pipeline state below. *)
Record Scraper : Type := {
  after : Z;
  scrapingOptions : Options;
  supportedPageTypes : gmap string bool
}.

Definition set_scrapingOptions (o : Options) (s : Scraper) : Scraper := {|
  after := after s; scrapingOptions := o;
  supportedPageTypes := supportedPageTypes s
|}.

Definition pageTypes : gmap string bool :=
  list_to_map
    ((fun t : string => (t, true)) <$>
       ["hot"; "new"; "rising"; "best";
        "top-hour"; "top-week"; "top-month"; "top-year"; "top-all"; "top";
        "controversial-hour"; "controversial-week"; "controversial-month";
        "controversial-year"; "controversial-all"; "controversial"]).

(** [m[k]] on a [map[string]bool]: false when the key is missing. *)
Definition mapIndex (m : gmap string bool) (k : string) : bool :=
  default false (m !! k).

(** [NewScraper].  The fallback to 50 is stored in
    [redditScraper.scrapingOptions.ImageLimit]; the last statement then
    assigns the whole [options] struct over it. *)
Definition NewScraper (options : Options) : result Scraper :=
  let redditScraper :=
    {| after := 0; scrapingOptions := zeroOptions; supportedPageTypes := pageTypes |} in
  if negb (mapIndex (supportedPageTypes redditScraper) (PageType options))
  then Panic LogFatal
  else
    let options :=
      if (ImageLimit options >? 100)%Z then set_ImageLimit 100 options else options in
    let redditScraper :=
      if (ImageLimit options <=? 0)%Z || (ImageLimit options >? 500)%Z
      then set_scrapingOptions
             (set_ImageLimit 50 (scrapingOptions redditScraper)) redditScraper
      else redditScraper in
    let options :=
      if FrontPage options
      then set_Subreddits (Subreddits options ++ ["frontpage"]) options
      else options in
    Ok (set_scrapingOptions options redditScraper).

(** [determineRedditUrl]. *)
Definition determineRedditUrl (s : Scraper) (sub : string) : string :=
  let pageType := PageType (scrapingOptions s) in
  let '(pageType, additional) :=
    if Contains pageType "-" then
      let pageSplit := Split pageType "-" in
      (List.nth 0 pageSplit EmptyString,
       "&t=" +:+ List.nth 1 pageSplit EmptyString)
    else (pageType, EmptyString) in
  let limit := formatInt (ImageLimit (scrapingOptions s)) in
  if String.eqb sub "frontpage" then
    "https://www.reddit.com/" +:+ pageType +:+ "/.json?limit=" +:+ limit +:+
    "&after=" +:+ formatInt (after s) +:+ additional
  else
    "https://www.reddit.com/r/" +:+ sub +:+ "/" +:+ pageType +:+ ".json?limit=" +:+
    limit +:+ "&after=" +:+ formatInt (after s) +:+ additional.

(** ** External collaborators *)

(** What the network, the JSON decoder and the operating system answer.  The
    set of existing paths is part of the pipeline state; the rest does not
    change during a run. *)
Record Env : Type := {
  (* http.NewRequest accepts the URL *)
  newRequestOk : string -> bool;
  (* client.Do: the body read from the response, or a network error *)
  clientDo : string -> option string;
  (* resp.Body.Close() succeeds, for the feed request at this URL *)
  feedCloseOk : string -> bool;
  (* json.Unmarshal into a Listings: the value and whether an error came with it *)
  UnmarshalListing : string -> Listings * bool;
  (* os.Stat fails for the path with an error other than "does not exist":
     a name that is too long, a parent that is not a directory, a directory
     that may not be searched *)
  statBlocked : string -> bool;
  (* os.MkdirAll succeeds *)
  mkdirOk : string -> bool;
  (* os.Create succeeds *)
  createOk : string -> bool;
  (* http.Get of an image link returns a response *)
  httpGetOk : string -> bool;
  (* io.Copy of that response into the file succeeds *)
  copyOk : string -> bool;
  (* out.Close() and resp.Body.Close() succeed for this image path / link *)
  fileCloseOk : string -> bool;
  bodyCloseOk : string -> bool;
  (* an error of os.Stat other than "does not exist" comes from resolving
     the path, so os.MkdirAll and os.Create fail at that path as well *)
  blocked_mkdir : forall path, statBlocked path = true -> mkdirOk path = false;
  blocked_create : forall path, statBlocked path = true -> createOk path = false
}.

(** ** The download worker (scraper.go: downloadImage) *)

(** The paths [os.MkdirAll(p)] makes sure exist: [p] and every proper prefix
    of [p] that ends before a "/". *)
Fixpoint ancestorsFrom (seen rest : string) : list string :=
  match rest with
  | EmptyString => [seen]
  | String c rest' =>
      let next := seen +:+ String c EmptyString in
      if Ascii.eqb c "/" && negb (String.eqb seen EmptyString)
      then seen :: ancestorsFrom next rest'
      else ancestorsFrom next rest'
  end.

Definition MkdirAll (dir : string) (files : gset string) : gset string :=
  files ∪ list_to_set (ancestorsFrom EmptyString dir).

(** The gif-v rewrite: [img.link[:len(img.link)-4] + "mp4"] when the link
    ends in "gifv". *)
Definition rewriteLink (l : string) : string :=
  if HasSuffix l "gifv"
  then String.substring 0 (String.length l - 4) l +:+ "mp4"
  else l.

(** [outDir] after the root-folder-only adjustment. *)
Definition rootOutDir (s : Scraper) (outDir : string) (img : Image) : string :=
  if RootFolderOnly (scrapingOptions s)
  then ReplaceFirst outDir (subreddit img) EmptyString
  else outDir.

(** [imageIdSplit[len(imageIdSplit)-1]] of the rewritten link. *)
Definition fileName (img : Image) : string :=
  lastSegment (rewriteLink (link img)) "/".

(** [imagePath]. *)
Definition imagePath (s : Scraper) (outDir : string) (img : Image) : string :=
  Join [rootOutDir s outDir img; fileName img].

(** The directory a worker is started with (scraper.go, line 246). *)
Definition workerOutDir (s : Scraper) (img : Image) : string :=
  Join [OutputDirectory (scrapingOptions s); subreddit img].

(** A deferred [Close]. *)
Inductive closer : Type :=
  | CloseFile (path : string)
  | CloseBody (url : string).

(** Program points of [downloadImage]. *)
Inductive dl_pc : Type :=
  | AtEntry                       (* send updateState{img, DOWNLOADING} *)
  | AtStat                        (* os.Stat(imagePath) *)
  | AtCreate                      (* os.Create(imagePath) *)
  | AtGet                         (* http.Get(img.link) *)
  | AtCopy                        (* io.Copy(out, resp.Body) *)
  | AtReport (st : DownloadState) (* send updateState{img, st}; return *)
  | AtDefers                      (* the deferred Close calls, last first *)
  | Returned.

(** The locals of one call of [downloadImage]. *)
Record download : Type := {
  d_img : Image;
  d_outDir : string;
  d_path : string;
  d_defers : list closer;
  d_pc : dl_pc
}.

Definition enterDownload (outDir : string) (img : Image) : download :=
  {| d_img := img; d_outDir := outDir; d_path := EmptyString; d_defers := [];
     d_pc := AtEntry |}.

Definition at_pc (pc : dl_pc) (d : download) : download :=
  {| d_img := d_img d; d_outDir := d_outDir d; d_path := d_path d;
     d_defers := d_defers d; d_pc := pc |}.

Definition push_defer (c : closer) (d : download) : download :=
  {| d_img := d_img d; d_outDir := d_outDir d; d_path := d_path d;
     d_defers := c :: d_defers d; d_pc := d_pc d |}.

(** What the outside sees of one step of [downloadImage]. *)
Inductive event : Type :=
  | EvSend (u : updateState)
  | EvStat (path : string)
  | EvCreate (path : string)
  | EvGet (url : string)
  | EvCopy (url path : string)
  | EvClose (c : closer)
  | EvReturn.

Inductive dl_step_result : Type :=
  | Stepped (ev : event) (d : download) (files : gset string)
  | Fatal (p : panic)
  | Finished.

Definition closeOk (env : Env) (c : closer) : bool :=
  match c with
  | CloseFile path => fileCloseOk env path
  | CloseBody url => bodyCloseOk env url
  end.

(** One step of [downloadImage] on the files that exist.  The two sends are
    steps here; in the pipeline they also need the message channel. *)
Definition dl_step (env : Env) (s : Scraper) (files : gset string)
    (d : download) : dl_step_result :=
  match d_pc d with
  | AtEntry =>
      let outDir := rootOutDir s (d_outDir d) (d_img d) in
      let img := set_link (rewriteLink (link (d_img d))) (d_img d) in
      let imageId := lastSegment (link img) "/" in
      Stepped (EvSend {| us_image := d_img d; us_state := DOWNLOADING |})
              {| d_img := img; d_outDir := outDir; d_path := Join [outDir; imageId];
                 d_defers := []; d_pc := AtStat |}
              files
  | AtStat =>
      (* !os.IsNotExist(fileErr): the path exists, or os.Stat failed otherwise *)
      Stepped (EvStat (d_path d))
              (at_pc (if bool_decide (d_path d ∈ files) || statBlocked env (d_path d)
                      then AtReport SKIPPED else AtCreate) d)
              files
  | AtCreate =>
      if createOk env (d_path d)
      then Stepped (EvCreate (d_path d))
                   (at_pc AtGet (push_defer (CloseFile (d_path d)) d))
                   (files ∪ {[ d_path d ]})
      else Stepped (EvCreate (d_path d)) (at_pc (AtReport FAILED) d) files
  | AtGet =>
      if httpGetOk env (link (d_img d))
      then Stepped (EvGet (link (d_img d)))
                   (at_pc AtCopy (push_defer (CloseBody (link (d_img d))) d))
                   files
      else Stepped (EvGet (link (d_img d))) (at_pc (AtReport FAILED) d) files
  | AtCopy =>
      Stepped (EvCopy (link (d_img d)) (d_path d))
              (at_pc (AtReport (if copyOk env (link (d_img d)) then SUCCESS else FAILED)) d)
              files
  | AtReport st =>
      Stepped (EvSend {| us_image := d_img d; us_state := st |}) (at_pc AtDefers d) files
  | AtDefers =>
      match d_defers d with
      | [] => Stepped EvReturn (at_pc Returned d) files
      | c :: rest =>
          if closeOk env c
          then Stepped (EvClose c)
                       {| d_img := d_img d; d_outDir := d_outDir d; d_path := d_path d;
                          d_defers := rest; d_pc := AtDefers |}
                       files
          else Fatal LogFatal
      end
  | Returned => Finished
  end.

(** [downloadImage] run on its own, with nobody else touching the files: the
    events in order, the files afterwards, and whether it returned or ended
    the process. *)
Fixpoint runDownload (fuel : nat) (env : Env) (s : Scraper) (files : gset string)
    (d : download) : list event * gset string * option (result unit) :=
  match fuel with
  | O => ([], files, None)
  | S fuel' =>
      match dl_step env s files d with
      | Stepped ev d' files' =>
          let '(evs, files'', r) := runDownload fuel' env s files' d' in
          (ev :: evs, files'', r)
      | Fatal p => ([], files, Some (Panic p))
      | Finished => ([], files, Some (Ok tt))
      end
  end.

(** Nine steps are the longest path (entry, stat, create, get, copy, report,
    two closes, return). *)
Definition downloadImage (env : Env) (s : Scraper) (files : gset string)
    (outDir : string) (img : Image) : list event * gset string * option (result unit) :=
  runDownload 10 env s files (enterDownload outDir img).

(** ** The metadata fetcher (scraper.go: gatherRedditFeed, downloadMetadata) *)

(** [gatherRedditFeed]: the listing and whether an error is returned with it.
    A request that could not be built leaves [req] nil, and [req.Header]
    dereferences it; a failed [client.Do] is a [log.Panic]; the deferred
    [Close] of the body is fatal when it fails. *)
Definition gatherRedditFeed (env : Env) (s : Scraper) (sub : string)
    : result (Listings * bool) :=
  if String.eqb (TrimSpace sub) EmptyString then Ok (emptyListings, true)
  else
    let url := determineRedditUrl s sub in
    if negb (newRequestOk env url) then Panic NilDereference
    else
      match clientDo env url with
      | None => Panic LogPanic
      | Some body =>
          if feedCloseOk env url then Ok (UnmarshalListing env body)
          else Panic LogFatal
      end.

(** [listings, _ := s.gatherRedditFeed(sub); links := parseLinksFromListings(listings)]. *)
Definition feedLinks (env : Env) (s : Scraper) (sub : string) : result (list Image) :=
  do r <- gatherRedditFeed env s sub;
  parseLinksFromListings (fst r).

(** The directory [downloadMetadata] creates for a feed. *)
Definition feedDir (s : Scraper) (sub : string) : string :=
  if RootFolderOnly (scrapingOptions s)
  then OutputDirectory (scrapingOptions s)
  else Join [OutputDirectory (scrapingOptions s); sub].

(** ** The pipeline (scraper.go: Start, downloadRedditMetadata, downloadMetadata, downloadImages)

    Every goroutine is a small state machine over its program points; one
    transition is one statement that touches shared state or blocks.  Both
    channels are unbuffered, so a send is one joint step of the sender and
    the receiver.  The counters of [Start] and of the progress bar count
    messages and images; they are natural numbers here. *)

(** Program points of one [downloadMetadata(sub, group)] goroutine. *)
Inductive fetcher_pc : Type :=
  | F_Lock                                   (* the critical section on uniqueImageIds *)
  | F_Gather                                 (* gatherRedditFeed; parseLinksFromListings *)
  | F_Mkdir (links : list Image)             (* os.Stat(dir); os.MkdirAll(dir) *)
  | F_GetMax (links : list Image)            (* progressBar.GetMax() *)
  | F_ChangeMax (links : list Image) (max : nat)  (* progressBar.ChangeMax(max + len(links)) *)
  | F_Loop (links : list Image) (k : nat)    (* head of the range loop, at index k *)
  | F_Send (links : list Image) (k : nat) (image : Image)  (* s.downloadImageChannel <- image *)
  | F_Done.                                  (* returned; group.Done() has run *)

Record fetcher : Type := {
  f_sub : string;
  f_pc : fetcher_pc
}.

(** Program points of [downloadRedditMetadata]. *)
Inductive meta_pc : Type :=
  | M_Loop (i : nat)               (* head of the range loop; downloadWaitGroup.Add(1) *)
  | M_Go (i : nat) (sub : string)  (* go s.downloadMetadata(sub, &downloadWaitGroup) *)
  | M_Wait                         (* downloadWaitGroup.Wait() *)
  | M_Close                        (* close(s.downloadImageChannel) *)
  | M_Done.

(** Program points of [downloadImages]. *)
Inductive disp_pc : Type :=
  | D_Recv                 (* range s.downloadImageChannel *)
  | D_Add (img : Image)    (* waitGroup.Add(1) *)
  | D_Acquire (img : Image)(* sem.Acquire(ctx, 1) *)
  | D_Go (img : Image)     (* go func(img Image) {...}(img) *)
  | D_Wait                 (* waitGroup.Wait() *)
  | D_Close                (* close(s.downloadedMessagePumpChannel) *)
  | D_Done.

(** Program points of the goroutine started for one image. *)
Inductive worker : Type :=
  | W_Run (d : download)   (* inside s.downloadImage(...) *)
  | W_Release              (* sem.Release(1) *)
  | W_WgDone               (* waitGroup.Done() *)
  | W_Gone.

(** Program points of the message loop of [Start]. *)
Inductive aggr_pc : Type :=
  | A_Recv                      (* range s.downloadedMessagePumpChannel *)
  | A_Handle (msg : updateState)(* the loop body *)
  | A_Done.                     (* summary printed, progressBar.Finish() *)

Record pipeline : Type := mkPipeline {
  crashed : option panic;  (* what ended the process, if anything did *)
  uniqueImageIds : gmap string (gmap string bool);  (* s.uniqueImageIds *)
  files : gset string;  (* the paths that exist *)
  progressMax : nat;  (* progressBar: config.max *)
  queueClosed : bool;  (* close(s.downloadImageChannel) has run *)
  pumpClosed : bool;  (* close(s.downloadedMessagePumpChannel) has run *)
  downloadWaitGroup : nat;  (* counter of downloadWaitGroup *)
  waitGroup : nat;  (* counter of waitGroup *)
  sem : nat;  (* units of the semaphore that are held *)
  meta : meta_pc;  (* downloadRedditMetadata *)
  fetchers : list fetcher;  (* the downloadMetadata goroutines, in spawn order *)
  disp : disp_pc;  (* downloadImages *)
  workers : list worker;  (* the download goroutines, in spawn order *)
  aggr : aggr_pc;  (* the loop of Start *)
  downloaded : nat;
  skipped : nat;
  failed : nat
}.

(** One update function per field. *)

Definition set_crashed (v : option panic) (st : pipeline) : pipeline :=
  mkPipeline v (uniqueImageIds st) (files st) (progressMax st) (queueClosed st)
    (pumpClosed st) (downloadWaitGroup st) (waitGroup st) (sem st) (meta st)
    (fetchers st) (disp st) (workers st) (aggr st) (downloaded st) (skipped st)
    (failed st).

Definition set_uniqueImageIds (v : gmap string (gmap string bool)) (st : pipeline)
    : pipeline :=
  mkPipeline (crashed st) v (files st) (progressMax st) (queueClosed st)
    (pumpClosed st) (downloadWaitGroup st) (waitGroup st) (sem st) (meta st)
    (fetchers st) (disp st) (workers st) (aggr st) (downloaded st) (skipped st)
    (failed st).

Definition set_files (v : gset string) (st : pipeline) : pipeline :=
  mkPipeline (crashed st) (uniqueImageIds st) v (progressMax st) (queueClosed st)
    (pumpClosed st) (downloadWaitGroup st) (waitGroup st) (sem st) (meta st)
    (fetchers st) (disp st) (workers st) (aggr st) (downloaded st) (skipped st)
    (failed st).

Definition set_progressMax (v : nat) (st : pipeline) : pipeline :=
  mkPipeline (crashed st) (uniqueImageIds st) (files st) v (queueClosed st)
    (pumpClosed st) (downloadWaitGroup st) (waitGroup st) (sem st) (meta st)
    (fetchers st) (disp st) (workers st) (aggr st) (downloaded st) (skipped st)
    (failed st).

Definition set_queueClosed (v : bool) (st : pipeline) : pipeline :=
  mkPipeline (crashed st) (uniqueImageIds st) (files st) (progressMax st) v
    (pumpClosed st) (downloadWaitGroup st) (waitGroup st) (sem st) (meta st)
    (fetchers st) (disp st) (workers st) (aggr st) (downloaded st) (skipped st)
    (failed st).

Definition set_pumpClosed (v : bool) (st : pipeline) : pipeline :=
  mkPipeline (crashed st) (uniqueImageIds st) (files st) (progressMax st)
    (queueClosed st) v (downloadWaitGroup st) (waitGroup st) (sem st) (meta st)
    (fetchers st) (disp st) (workers st) (aggr st) (downloaded st) (skipped st)
    (failed st).

Definition set_downloadWaitGroup (v : nat) (st : pipeline) : pipeline :=
  mkPipeline (crashed st) (uniqueImageIds st) (files st) (progressMax st)
    (queueClosed st) (pumpClosed st) v (waitGroup st) (sem st) (meta st)
    (fetchers st) (disp st) (workers st) (aggr st) (downloaded st) (skipped st)
    (failed st).

Definition set_waitGroup (v : nat) (st : pipeline) : pipeline :=
  mkPipeline (crashed st) (uniqueImageIds st) (files st) (progressMax st)
    (queueClosed st) (pumpClosed st) (downloadWaitGroup st) v (sem st) (meta st)
    (fetchers st) (disp st) (workers st) (aggr st) (downloaded st) (skipped st)
    (failed st).

Definition set_sem (v : nat) (st : pipeline) : pipeline :=
  mkPipeline (crashed st) (uniqueImageIds st) (files st) (progressMax st)
    (queueClosed st) (pumpClosed st) (downloadWaitGroup st) (waitGroup st) v
    (meta st) (fetchers st) (disp st) (workers st) (aggr st) (downloaded st)
    (skipped st) (failed st).

Definition set_meta (v : meta_pc) (st : pipeline) : pipeline :=
  mkPipeline (crashed st) (uniqueImageIds st) (files st) (progressMax st)
    (queueClosed st) (pumpClosed st) (downloadWaitGroup st) (waitGroup st)
    (sem st) v (fetchers st) (disp st) (workers st) (aggr st) (downloaded st)
    (skipped st) (failed st).

Definition set_fetchers (v : list fetcher) (st : pipeline) : pipeline :=
  mkPipeline (crashed st) (uniqueImageIds st) (files st) (progressMax st)
    (queueClosed st) (pumpClosed st) (downloadWaitGroup st) (waitGroup st)
    (sem st) (meta st) v (disp st) (workers st) (aggr st) (downloaded st)
    (skipped st) (failed st).

Definition set_disp (v : disp_pc) (st : pipeline) : pipeline :=
  mkPipeline (crashed st) (uniqueImageIds st) (files st) (progressMax st)
    (queueClosed st) (pumpClosed st) (downloadWaitGroup st) (waitGroup st)
    (sem st) (meta st) (fetchers st) v (workers st) (aggr st) (downloaded st)
    (skipped st) (failed st).

Definition set_workers (v : list worker) (st : pipeline) : pipeline :=
  mkPipeline (crashed st) (uniqueImageIds st) (files st) (progressMax st)
    (queueClosed st) (pumpClosed st) (downloadWaitGroup st) (waitGroup st)
    (sem st) (meta st) (fetchers st) (disp st) v (aggr st) (downloaded st)
    (skipped st) (failed st).

Definition set_aggr (v : aggr_pc) (st : pipeline) : pipeline :=
  mkPipeline (crashed st) (uniqueImageIds st) (files st) (progressMax st)
    (queueClosed st) (pumpClosed st) (downloadWaitGroup st) (waitGroup st)
    (sem st) (meta st) (fetchers st) (disp st) (workers st) v (downloaded st)
    (skipped st) (failed st).

Definition set_downloaded (v : nat) (st : pipeline) : pipeline :=
  mkPipeline (crashed st) (uniqueImageIds st) (files st) (progressMax st)
    (queueClosed st) (pumpClosed st) (downloadWaitGroup st) (waitGroup st)
    (sem st) (meta st) (fetchers st) (disp st) (workers st) (aggr st) v
    (skipped st) (failed st).

Definition set_skipped (v : nat) (st : pipeline) : pipeline :=
  mkPipeline (crashed st) (uniqueImageIds st) (files st) (progressMax st)
    (queueClosed st) (pumpClosed st) (downloadWaitGroup st) (waitGroup st)
    (sem st) (meta st) (fetchers st) (disp st) (workers st) (aggr st)
    (downloaded st) v (failed st).

Definition set_failed (v : nat) (st : pipeline) : pipeline :=
  mkPipeline (crashed st) (uniqueImageIds st) (files st) (progressMax st)
    (queueClosed st) (pumpClosed st) (downloadWaitGroup st) (waitGroup st)
    (sem st) (meta st) (fetchers st) (disp st) (workers st) (aggr st)
    (downloaded st) (skipped st) v.

(** Who moves.  The last label is not a statement of the program: it is the
    Go runtime noticing that the map access of fetcher [i] overlaps with one
    of fetcher [j]. *)
Inductive label : Type :=
  | RunMeta
  | RunFetcher (i : nat)
  | RunDispatcher
  | RunWorker (j : nat)
  | RunAggregator
  | DetectRace (i j : nat).

Definition crash (p : panic) (st : pipeline) : pipeline := set_crashed (Some p) st.

Definition set_fetcher (i : nat) (sub : string) (pc : fetcher_pc) (st : pipeline) : pipeline :=
  set_fetchers (<[i := {| f_sub := sub; f_pc := pc |}]> (fetchers st)) st.

Definition set_worker (j : nat) (w : worker) (st : pipeline) : pipeline :=
  set_workers (<[j := w]> (workers st)) st.

(** The state after [go s.downloadRedditMetadata(); go s.downloadImages()]:
    the progress bar was made with a maximum of 1, nothing is closed, and
    [fs] is what exists on disk. *)
Definition initial (fs : gset string) : pipeline := {|
  crashed := None; uniqueImageIds := ∅; files := fs;
  progressMax := 1;
  queueClosed := false; pumpClosed := false;
  downloadWaitGroup := 0; waitGroup := 0; sem := 0;
  meta := M_Loop 0; fetchers := [];
  disp := D_Recv; workers := [];
  aggr := A_Recv; downloaded := 0; skipped := 0; failed := 0
|}.

Section Pipeline.
Variable env : Env.
Variable s : Scraper.

(** [downloadRedditMetadata]. *)
Definition step_meta (st : pipeline) : option pipeline :=
  match meta st with
  | M_Loop i =>
      match Subreddits (scrapingOptions s) !! i with
      | Some sub =>
          Some (set_meta (M_Go i sub)
                  (set_downloadWaitGroup (S (downloadWaitGroup st)) st))
      | None => Some (set_meta M_Wait st)
      end
  | M_Go i sub =>
      Some (set_meta (M_Loop (S i))
              (set_fetchers (fetchers st ++ [{| f_sub := sub; f_pc := F_Lock |}]) st))
  | M_Wait =>
      if Nat.eqb (downloadWaitGroup st) 0 then Some (set_meta M_Close st) else None
  | M_Close => Some (set_meta M_Done (set_queueClosed true st))
  | M_Done => None
  end.

(** [downloadMetadata(sub, group)], for the [i]-th goroutine spawned. *)
Definition step_fetcher (i : nat) (st : pipeline) : option pipeline :=
  match fetchers st !! i with
  | None => None
  | Some f =>
      let sub := f_sub f in
      match f_pc f with
      | F_Lock =>
          let ids := uniqueImageIds st in
          Some (set_fetcher i sub F_Gather
                  (set_uniqueImageIds
                     (match ids !! sub with
                      | Some _ => ids
                      | None => <[sub := ∅]> ids
                      end) st))
      | F_Gather =>
          match feedLinks env s sub with
          | Panic p => Some (crash p st)
          | Ok links => Some (set_fetcher i sub (F_Mkdir links) st)
          end
      | F_Mkdir links =>
          let dir := feedDir s sub in
          Some (set_fetcher i sub (F_GetMax links)
                  (set_files
                     (if bool_decide (dir ∈ files st) || statBlocked env dir
                      then files st
                      else if mkdirOk env dir then MkdirAll dir (files st)
                      else files st) st))
      | F_GetMax links =>
          Some (set_fetcher i sub (F_ChangeMax links (progressMax st)) st)
      | F_ChangeMax links max =>
          Some (set_fetcher i sub (F_Loop links 0)
                  (set_progressMax (max + length links) st))
      | F_Loop links k =>
          match links !! k with
          | Some image =>
              let image := set_subreddit sub image in
              match uniqueImageIds st !! sub with
              | Some seen =>
                  Some (set_fetcher i sub (F_Send links k image)
                          (set_uniqueImageIds
                             (<[sub := <[imageId image := true]> seen]> (uniqueImageIds st))
                             st))
              | None => Some (crash NilMapAssignment st)
              end
          | None =>
              match downloadWaitGroup st with
              | O => Some (crash NegativeWaitGroup st)
              | S n => Some (set_fetcher i sub F_Done (set_downloadWaitGroup n st))
              end
          end
      | F_Send links k image =>
          if queueClosed st then Some (crash SendOnClosedChannel st)
          else
            match disp st with
            | D_Recv =>
                Some (set_fetcher i sub (F_Loop links (S k)) (set_disp (D_Add image) st))
            | _ => None
            end
      | F_Done => None
      end
  end.

(** [downloadImages].  [sem.Acquire] with the background context returns
    only once a unit is free, and then without an error. *)
Definition step_dispatcher (st : pipeline) : option pipeline :=
  match disp st with
  | D_Recv => if queueClosed st then Some (set_disp D_Wait st) else None
  | D_Add img => Some (set_disp (D_Acquire img) (set_waitGroup (S (waitGroup st)) st))
  | D_Acquire img =>
      if (Z.of_nat (sem st) + 1 <=? MaxConcurrentDownloads (scrapingOptions s))%Z
      then Some (set_disp (D_Go img) (set_sem (S (sem st)) st))
      else None
  | D_Go img =>
      Some (set_disp D_Recv
              (set_workers
                 (workers st ++ [W_Run (enterDownload (workerOutDir s img) img)]) st))
  | D_Wait => if Nat.eqb (waitGroup st) 0 then Some (set_disp D_Close st) else None
  | D_Close => Some (set_disp D_Done (set_pumpClosed true st))
  | D_Done => None
  end.

(** The goroutine of the [j]-th image. *)
Definition step_worker (j : nat) (st : pipeline) : option pipeline :=
  match workers st !! j with
  | None => None
  | Some (W_Run d) =>
      match dl_step env s (files st) d with
      | Finished => Some (set_worker j W_Release st)
      | Fatal p => Some (crash p st)
      | Stepped (EvSend u) d' _ =>
          if pumpClosed st then Some (crash SendOnClosedChannel st)
          else
            match aggr st with
            | A_Recv => Some (set_worker j (W_Run d') (set_aggr (A_Handle u) st))
            | _ => None
            end
      | Stepped _ d' files' => Some (set_worker j (W_Run d') (set_files files' st))
      end
  | Some W_Release =>
      match sem st with
      | O => Some (crash SemaphoreOverRelease st)
      | S n => Some (set_worker j W_WgDone (set_sem n st))
      end
  | Some W_WgDone =>
      match waitGroup st with
      | O => Some (crash NegativeWaitGroup st)
      | S n => Some (set_worker j W_Gone (set_waitGroup n st))
      end
  | Some W_Gone => None
  end.

(** The message loop of [Start].  The description and the current value of
    the progress bar are display only and are left out; its maximum is
    [progressMax]. *)
Definition step_aggregator (st : pipeline) : option pipeline :=
  match aggr st with
  | A_Recv => if pumpClosed st then Some (set_aggr A_Done st) else None
  | A_Handle msg =>
      Some (set_aggr A_Recv
              (match us_state msg with
               | DOWNLOADING => st
               | SUCCESS => set_downloaded (downloaded st + 1) st
               | SKIPPED => set_skipped (skipped st + 1) st
               | FAILED => set_failed (failed st + 1) st
               end))
  | A_Done => None
  end.

(** The fetcher is at line 209 with an image: it is about to read the map of
    id sets and to write the id set of its feed, outside [metadataMutex]. *)
Definition marking (f : fetcher) : bool :=
  match f_pc f with
  | F_Loop links k => bool_decide (is_Some (links !! k))
  | _ => false
  end.

(** The fetcher is about to add the id set of its feed to the map of id sets
    (line 179, inside [metadataMutex]). *)
Definition creating (ids : gmap string (gmap string bool)) (f : fetcher) : bool :=
  match f_pc f with
  | F_Lock => bool_decide (ids !! f_sub f = None)
  | _ => false
  end.

(** Two accesses to one map that nothing orders, one of them a write: the
    read of the map of id sets at line 209 against the insertion at line
    179, and two writes at line 209 to the id set of the same feed. *)
Definition conflict (ids : gmap string (gmap string bool)) (f g : fetcher) : bool :=
  marking f && (creating ids g || marking g && String.eqb (f_sub f) (f_sub g)).

(** The Go runtime ends the process with a fatal error when it sees a map
    being written while another goroutine reads or writes it.  It sees this
    only when the two accesses overlap, so the transition is possible, not
    forced, whenever two fetchers are at conflicting accesses. *)
Definition step_race (i j : nat) (st : pipeline) : option pipeline :=
  match fetchers st !! i, fetchers st !! j with
  | Some f, Some g =>
      if negb (Nat.eqb i j) && conflict (uniqueImageIds st) f g
      then Some (crash ConcurrentMapAccess st)
      else None
  | _, _ => None
  end.

(** One transition of the process; none once it has ended.  A panic or a
    fatal error is one transition together with the exit of the process that
    follows it: the deferred calls of the panicking goroutine, and what other
    goroutines still do while the runtime exits, are left out. *)
Definition step (l : label) (st : pipeline) : option pipeline :=
  match crashed st with
  | Some _ => None
  | None =>
      match l with
      | RunMeta => step_meta st
      | RunFetcher i => step_fetcher i st
      | RunDispatcher => step_dispatcher st
      | RunWorker j => step_worker j st
      | RunAggregator => step_aggregator st
      | DetectRace i j => step_race i j st
      end
  end.

(** A schedule, run from a state. *)
Fixpoint exec (schedule : list label) (st : pipeline) : option pipeline :=
  match schedule with
  | [] => Some st
  | l :: rest =>
      match step l st with
      | Some st' => exec rest st'
      | None => None
      end
  end.

(** The states a run that starts with the files [fs] can be in. *)
Definition reachable (fs : gset string) (st : pipeline) : Prop :=
  exists schedule, exec schedule (initial fs) = Some st.

(** A scheduler: the first goroutine, in a fixed order, that can move. *)
Definition firstEnabled (st : pipeline) : option label :=
  List.find (fun l => bool_decide (is_Some (step l st)))
    ([RunAggregator; RunDispatcher; RunMeta]
       ++ (RunWorker <$> seq 0 (length (workers st)))
       ++ (RunFetcher <$> seq 0 (length (fetchers st)))).

Fixpoint schedule_from (fuel : nat) (st : pipeline) : list label :=
  match fuel with
  | O => []
  | S fuel' =>
      match firstEnabled st with
      | Some l =>
          match step l st with
          | Some st' => l :: schedule_from fuel' st'
          | None => []
          end
      | None => []
      end
  end.

End Pipeline.

(** ** Tests on strings *)

(** Bytes of a string, as a test that none is the separator. *)
Fixpoint lacks (sep : ascii) (a : string) : bool :=
  match a with
  | EmptyString => true
  | String c rest => negb (Ascii.eqb c sep) && lacks sep rest
  end.

(** An ordinary file name: not empty, not "." or "..", and without "/". *)
Definition plainName (name : string) : bool :=
  negb (String.eqb name EmptyString) && negb (String.eqb name ".") &&
  negb (String.eqb name "..") && lacks "/" name.

(** ** What a run of the download worker does *)

(** The URLs a run of [downloadImage] asks the network for. *)
Definition requests (evs : list event) : list string :=
  omap (fun ev => match ev with EvGet url => Some url | _ => None end) evs.

(** The paths it asks the file system about or creates. *)
Definition touchedPaths (evs : list event) : list string :=
  omap (fun ev => match ev with
                  | EvStat p | EvCreate p => Some p
                  | _ => None
                  end) evs.

(** The messages it sends, in order. *)
Definition messages (evs : list event) : list updateState :=
  omap (fun ev => match ev with EvSend u => Some u | _ => None end) evs.

Definition eventsOf (r : list event * gset string * option (result unit)) : list event :=
  fst (fst r).

(** ** Counting goroutines *)

(** The sum of a measure over the goroutines of one kind. *)
Definition total {A : Type} (f : A -> nat) (l : list A) : nat := sum_list_with f l.

(** A fetcher that has not returned holds one count of [downloadWaitGroup]. *)
Definition live (f : fetcher) : nat :=
  match f_pc f with F_Done => 0 | _ => 1 end.

(** A worker goroutine that has not called [waitGroup.Done()]. *)
Definition counted (w : worker) : nat :=
  match w with W_Gone => 0 | _ => 1 end.

(** A worker goroutine that has not called [sem.Release(1)]. *)
Definition holds (w : worker) : nat :=
  match w with W_Run _ | W_Release => 1 | _ => 0 end.

(** A worker goroutine inside [downloadImage]. *)
Definition transferring (w : worker) : nat :=
  match w with W_Run _ => 1 | _ => 0 end.

(** [downloadRedditMetadata] between [Add(1)] and the [go] statement. *)
Definition spawning (m : meta_pc) : nat :=
  match m with M_Go _ _ => 1 | _ => 0 end.

(** [downloadImages] between [waitGroup.Add(1)] and the [go] statement. *)
Definition enrolled (d : disp_pc) : nat :=
  match d with D_Acquire _ | D_Go _ => 1 | _ => 0 end.

(** [downloadImages] between [sem.Acquire] and the [go] statement. *)
Definition granted (d : disp_pc) : nat :=
  match d with D_Go _ => 1 | _ => 0 end.

(** What the wait groups, the semaphore and the two [close] calls guarantee
    in every state of a run. *)
Record sync_inv (s : Scraper) (st : pipeline) : Prop := {
  sync_meta_wg :
    downloadWaitGroup st = total live (fetchers st) + spawning (meta st);
  sync_joined :
    match meta st with
    | M_Close | M_Done => total live (fetchers st) = 0
    | _ => True
    end;
  sync_queue :
    queueClosed st = match meta st with M_Done => true | _ => false end;
  sync_wg :
    waitGroup st = total counted (workers st) + enrolled (disp st);
  sync_sem :
    sem st = total holds (workers st) + granted (disp st);
  sync_bound :
    sem st = 0 \/ (Z.of_nat (sem st) <= MaxConcurrentDownloads (scrapingOptions s))%Z;
  sync_drained :
    match disp st with
    | D_Close | D_Done => total counted (workers st) = 0
    | _ => True
    end;
  sync_pump :
    pumpClosed st = match disp st with D_Done => true | _ => false end;
  sync_after_queue :
    match disp st with
    | D_Wait | D_Close | D_Done => queueClosed st = true
    | _ => True
    end;
  sync_aggr :
    aggr st = A_Done -> pumpClosed st = true;
  sync_crash :
    crashed st <> Some SendOnClosedChannel /\
    crashed st <> Some NegativeWaitGroup /\
    crashed st <> Some SemaphoreOverRelease
}.

(** ** Accounting for images *)

(** The number of images a feed makes its fetcher enqueue. *)
Definition scheduledCount (env : Env) (s : Scraper) (sub : string) : nat :=
  match feedLinks env s sub with
  | Ok links => length links
  | Panic _ => 0
  end.

(** The locals of a fetcher are what the feed gave it. *)
Definition fetcher_ok (env : Env) (s : Scraper) (f : fetcher) : Prop :=
  match f_pc f with
  | F_Mkdir links | F_GetMax links | F_ChangeMax links _ =>
      feedLinks env s (f_sub f) = Ok links
  | F_Loop links k =>
      feedLinks env s (f_sub f) = Ok links /\ k <= length links
  | F_Send links k image =>
      feedLinks env s (f_sub f) = Ok links /\
      exists raw, links !! k = Some raw /\ image = set_subreddit (f_sub f) raw
  | _ => True
  end.

(** Images a fetcher has handed to [downloadImages] so far. *)
Definition sent (env : Env) (s : Scraper) (f : fetcher) : nat :=
  match f_pc f with
  | F_Loop _ k | F_Send _ k _ => k
  | F_Done => scheduledCount env s (f_sub f)
  | _ => 0
  end.

(** A call of [downloadImage] that has not sent its terminal message yet. *)
Definition unreported (d : download) : nat :=
  match d_pc d with AtDefers | Returned => 0 | _ => 1 end.

Definition owes (w : worker) : nat :=
  match w with
  | W_Run d => unreported d
  | _ => 0
  end.

(** [downloadImages] holding an image it has received and not yet started. *)
Definition holding (d : disp_pc) : nat :=
  match d with D_Add _ | D_Acquire _ | D_Go _ => 1 | _ => 0 end.

(** [Start] holding a terminal message it has received and not yet counted. *)
Definition handling (a : aggr_pc) : nat :=
  match a with
  | A_Handle msg => match us_state msg with DOWNLOADING => 0 | _ => 1 end
  | _ => 0
  end.

(** The message a worker sends when it reports is a terminal one. *)
Definition worker_ok (w : worker) : Prop :=
  match w with
  | W_Run d => d_pc d <> AtReport DOWNLOADING
  | _ => True
  end.

(** The index of the range loop of [downloadRedditMetadata]. *)
Definition metaIndex (subs : list string) (m : meta_pc) : nat :=
  match m with
  | M_Loop i | M_Go i _ => i
  | _ => length subs
  end.

Definition processed (st : pipeline) : nat := downloaded st + skipped st + failed st.

Record flow_inv (env : Env) (s : Scraper) (st : pipeline) : Prop := {
  flow_fetchers : Forall (fetcher_ok env s) (fetchers st);
  flow_workers : Forall worker_ok (workers st);
  flow_spawned :
    f_sub <$> fetchers st =
    take (metaIndex (Subreddits (scrapingOptions s)) (meta st))
         (Subreddits (scrapingOptions s));
  flow_go :
    match meta st with
    | M_Go i sub => Subreddits (scrapingOptions s) !! i = Some sub
    | _ => True
    end;
  flow_count :
    processed st + handling (aggr st) + total owes (workers st) + holding (disp st)
    = total (sent env s) (fetchers st)
}.

(** The number of images all feeds of the configuration provide. *)
Definition expectedTotal (env : Env) (s : Scraper) : nat :=
  total (scheduledCount env s) (Subreddits (scrapingOptions s)).

(** ** The maximum of the progress bar *)

(** What a fetcher has added to the maximum of the progress bar. *)
Definition credited (env : Env) (s : Scraper) (f : fetcher) : nat :=
  match f_pc f with
  | F_Loop links _ | F_Send links _ _ => length links
  | F_Done => scheduledCount env s (f_sub f)
  | _ => 0
  end.

(** The maximum a fetcher has read and not yet written back. *)
Definition read_one (f : fetcher) : Prop :=
  match f_pc f with
  | F_ChangeMax _ max => max = 1
  | _ => True
  end.

Record single_inv (env : Env) (s : Scraper) (st : pipeline) : Prop := {
  single_max : progressMax st = 1 + total (credited env s) (fetchers st);
  single_read : Forall read_one (fetchers st)
}.

(** ** A populated output directory *)

(** The path at which the worker started for [img] looks for the file. *)
Definition expectedPath (s : Scraper) (img : Image) : string :=
  imagePath s (workerOutDir s img) img.

(** Every image of every feed already has its file in [fs]. *)
Definition populated (env : Env) (s : Scraper) (fs : gset string) : bool :=
  forallb
    (fun sub =>
       match feedLinks env s sub with
       | Ok links =>
           forallb (fun raw => bool_decide (expectedPath s (set_subreddit sub raw) ∈ fs))
                   links
       | Panic _ => true
       end)
    (Subreddits (scrapingOptions s)).

(** A worker on its way to Skipped. *)
Definition skipping (s : Scraper) (fs : gset string) (w : worker) : Prop :=
  match w with
  | W_Run d =>
      d_defers d = [] /\
      match d_pc d with
      | AtEntry => imagePath s (d_outDir d) (d_img d) ∈ fs
      | AtStat => d_path d ∈ fs
      | AtReport st => st = SKIPPED
      | AtDefers | Returned => True
      | _ => False
      end
  | _ => True
  end.

Definition sends_expected (s : Scraper) (fs : gset string) (f : fetcher) : Prop :=
  match f_pc f with
  | F_Send _ _ image => expectedPath s image ∈ fs
  | _ => True
  end.

Record skip_inv (s : Scraper) (fs : gset string) (st : pipeline) : Prop := {
  skip_files : fs ⊆ files st;
  skip_downloaded : downloaded st = 0;
  skip_failed : failed st = 0;
  skip_aggr :
    match aggr st with
    | A_Handle msg => us_state msg = DOWNLOADING \/ us_state msg = SKIPPED
    | _ => True
    end;
  skip_workers : Forall (skipping s fs) (workers st);
  skip_disp :
    match disp st with
    | D_Add img | D_Acquire img | D_Go img => expectedPath s img ∈ fs
    | _ => True
    end;
  skip_fetchers : Forall (sends_expected s fs) (fetchers st)
}.

(** ** The id sets *)

(** The id set of a fetcher's feed exists once the fetcher is past its
    critical section, and holds the id of the image it is about to send. *)
Definition marked (ids : gmap string (gmap string bool)) (f : fetcher) : Prop :=
  match f_pc f with
  | F_Lock => True
  | F_Send _ _ image =>
      exists seen, ids !! f_sub f = Some seen /\ seen !! imageId image = Some true
  | _ => is_Some (ids !! f_sub f)
  end.

Record ids_inv (st : pipeline) : Prop := {
  ids_marked : Forall (marked (uniqueImageIds st)) (fetchers st);
  ids_crash : crashed st <> Some NilMapAssignment
}.

(** The id sets only grow. *)
Definition ids_grow (ids ids' : gmap string (gmap string bool)) : Prop :=
  forall sub seen,
    ids !! sub = Some seen ->
    exists seen', ids' !! sub = Some seen' /\
                  forall id, seen !! id = Some true -> seen' !! id = Some true.

(** ** Sample inputs and runs *)

(** A feed entry with every field present and the given URL. *)
Definition imgurEntry (url : string) : Child :=
  {| ChildData_ := Some
       {| Title := Some "a picture"; Domain := Some "i.imgur.com"; ID := Some "t3";
          Author_ := Some "someone"; Permalink := Some "/r/pics/comments/t3";
          PostHint := Some "image"; URL := Some url; Subreddit := Some "pics" |} |}.

Definition listingOf (children : list Child) : Listings :=
  {| Data := Some {| Dist := None; Children := children |} |}.

(** An environment in which every request and every file operation works,
    and every feed answers with [listings]. *)
Definition friendlyEnv (listings : Listings) : Env := {|
  newRequestOk := fun _ => true;
  clientDo := fun _ => Some EmptyString;
  feedCloseOk := fun _ => true;
  UnmarshalListing := fun _ => (listings, false);
  statBlocked := fun _ => false;
  mkdirOk := fun _ => true;
  createOk := fun _ => true;
  httpGetOk := fun _ => true;
  copyOk := fun _ => true;
  fileCloseOk := fun _ => true;
  bodyCloseOk := fun _ => true;
  blocked_mkdir := fun _ blocked => eq_sym blocked;
  blocked_create := fun _ blocked => eq_sym blocked
|}.

(** The same, with a network that is down for feeds. *)
Definition offlineEnv : Env := {|
  newRequestOk := fun _ => true;
  clientDo := fun _ => None;
  feedCloseOk := fun _ => true;
  UnmarshalListing := fun _ => (emptyListings, true);
  statBlocked := fun _ => false;
  mkdirOk := fun _ => true;
  createOk := fun _ => true;
  httpGetOk := fun _ => true;
  copyOk := fun _ => true;
  fileCloseOk := fun _ => true;
  bodyCloseOk := fun _ => true;
  blocked_mkdir := fun _ blocked => eq_sym blocked;
  blocked_create := fun _ blocked => eq_sym blocked
|}.

Definition optionsFor (dir : string) (subs : list string) (rootOnly : bool) : Options := {|
  OutputDirectory := dir; ImageLimit := 50; FrontPage := false; PageType := "hot";
  Subreddits := subs; MaxConcurrentDownloads := 2; RootFolderOnly := rootOnly
|}.

(** The scraper [NewScraper] returns for options that need no adjustment. *)
Definition scraperFor (options : Options) : Scraper :=
  {| after := 0; scrapingOptions := options; supportedPageTypes := pageTypes |}.

(** Five entries that pass the filter; the first and the third share the
    image id "a". *)
Definition fiveEntries : Listings :=
  listingOf (imgurEntry <$>
    ["https://i.imgur.com/a.jpg"; "https://i.imgur.com/b.jpg";
     "https://i.imgur.com/a.jpg"; "https://i.imgur.com/c.png";
     "https://i.imgur.com/d.gif"]).

(** An entry that the filter keeps but that has no URL. *)
Definition entryWithoutURL : Child :=
  {| ChildData_ := Some
       {| Title := Some "a picture"; Domain := Some "i.imgur.com"; ID := Some "t3";
          Author_ := Some "someone"; Permalink := Some "/r/pics/comments/t3";
          PostHint := Some "image"; URL := None; Subreddit := Some "pics" |} |}.

(** An entry that the filter keeps but that has no author. *)
Definition entryWithoutAuthor : Child :=
  {| ChildData_ := Some
       {| Title := Some "a picture"; Domain := Some "i.imgur.com"; ID := Some "t3";
          Author_ := None; Permalink := Some "/r/pics/comments/t3";
          PostHint := Some "image"; URL := Some "https://i.imgur.com/a.jpg";
          Subreddit := Some "pics" |} |}.

(** An entry kept for its post hint alone, without a domain. *)
Definition entryWithoutDomain : Child :=
  {| ChildData_ := Some
       {| Title := Some "a picture"; Domain := None; ID := Some "t3";
          Author_ := Some "someone"; Permalink := Some "/r/pics/comments/t3";
          PostHint := Some "image"; URL := Some "https://i.redd.it/a.jpg";
          Subreddit := Some "pics" |} |}.

(** Two images, with different ids. *)
Definition twoEntries : Listings :=
  listingOf (imgurEntry <$> ["https://i.imgur.com/a.jpg"; "https://i.imgur.com/b.gifv"]).

(** One feed with one image. *)
Definition oneEntry : Listings := listingOf [imgurEntry "https://i.imgur.com/a.jpg"].

(** Two feeds with two images each, every operation succeeding. *)
Definition twoFeeds : Scraper := scraperFor (optionsFor "/out" ["pics"; "cats"] false).

(** Every operation works, but the body the feed "pics" answers with does
    not decode: the decoder returns the zero [Listings] and an error.  Every
    other feed answers with two entries. *)
Definition garbledEnv : Env := {|
  newRequestOk := fun _ => true;
  clientDo := fun url =>
    Some (if String.prefix "https://www.reddit.com/r/pics/" url then "<html>" else "{}");
  feedCloseOk := fun _ => true;
  UnmarshalListing := fun body =>
    if String.eqb body "<html>" then (emptyListings, true) else (twoEntries, false);
  statBlocked := fun _ => false;
  mkdirOk := fun _ => true;
  createOk := fun _ => true;
  httpGetOk := fun _ => true;
  copyOk := fun _ => true;
  fileCloseOk := fun _ => true;
  bodyCloseOk := fun _ => true;
  blocked_mkdir := fun _ blocked => eq_sym blocked;
  blocked_create := fun _ blocked => eq_sym blocked
|}.

(** One feed. *)
Definition oneFeed : Scraper := scraperFor (optionsFor "/out" ["pics"] false).

Definition populatedDir : gset string := {[ "/out/pics/a.jpg"; "/out/pics/b.mp4" ]}.

(** The state in which the fixed-order scheduler leaves a run. *)
Definition run (env : Env) (s : Scraper) (fuel : nat) (fs : gset string) : pipeline :=
  default (initial fs)
          (exec env s (schedule_from env s fuel (initial fs)) (initial fs)).

(** ** More on parsing *)

(** The image id is blank. *)
Definition blankId (image : Image) : bool :=
  String.eqb (TrimSpace (imageId image)) EmptyString.

(** What the second loop of [parseLinksFromListings] leaves in the slot of a
    kept child. *)
Definition slot_of (v : Child) (img : Image) : Prop :=
  exists image,
    redditChildToImage v = Ok image /\
    img = if blankId image then zeroImage else image.

(** The first loop keeps the child. *)
Definition kept (v : Child) : bool :=
  match keepsChild v with
  | Ok true => true
  | _ => false
  end.

(** Every pointer of the child is set. *)
Definition completeChild (v : Child) : bool :=
  match ChildData_ v with
  | Some data =>
      bool_decide (is_Some (Title data)) && bool_decide (is_Some (Domain data)) &&
      bool_decide (is_Some (ID data)) && bool_decide (is_Some (Author_ data)) &&
      bool_decide (is_Some (Permalink data)) && bool_decide (is_Some (URL data)) &&
      bool_decide (is_Some (Subreddit data))
  | None => false
  end.

(** The image [redditChildToImage] makes of [imgurEntry] on the link
    "https://i.imgur.com/<name><ext>". *)
Definition imageOf (name ext : string) : Image := {|
  author := {| author_link := "https://www.reddit.com/user/someone/";
               author_name := "someone" |};
  id := "t3"; imageId := name; postLink := "/r/pics/comments/t3";
  link := "https://i.imgur.com/" +:+ name +:+ ext; title := "a picture";
  subreddit := "pics"; source := "i.imgur.com"
|}.

(** A direct image and a gallery page. *)
Definition mixedListing : ListingData :=
  {| Dist := None;
     Children := imgurEntry <$> ["https://i.imgur.com/a.jpg"; "https://imgur.com/gallery"] |}.

(** Every entry of the listing has every pointer set. *)
Definition completeListing (listings : Listings) : bool :=
  match Data listings with
  | Some data => forallb completeChild (Children data)
  | None => true
  end.


(** ** More on construction *)

(** The keys of [supportedPageTypes]. *)
Definition supportedNames : list string :=
  ["hot"; "new"; "rising"; "best";
   "top-hour"; "top-week"; "top-month"; "top-year"; "top-all"; "top";
   "controversial-hour"; "controversial-week"; "controversial-month";
   "controversial-year"; "controversial-all"; "controversial"].

(** The listings of reddit and the time spans the URLs can name. *)
Definition listingNames : list string :=
  ["hot"; "new"; "rising"; "best"; "top"; "controversial"].

Definition spanParameters : list string :=
  [EmptyString; "&t=hour"; "&t=week"; "&t=month"; "&t=year"; "&t=all"].

(** ** More on the download worker *)

(** The [Close] calls a run of [downloadImage] completes, in order. *)
Definition closes (evs : list event) : list closer :=
  omap (fun ev => match ev with EvClose c => Some c | _ => None end) evs.

(** What [downloadImage] has opened when it reaches its [return]: the file
    once [os.Create] worked, and the response body once [http.Get] worked;
    in the order of opening. *)
Definition opened (env : Env) (files : gset string) (path url : string) : list closer :=
  if bool_decide (path ∈ files) then []
  else if createOk env path
       then CloseFile path :: (if httpGetOk env url then [CloseBody url] else [])
       else [].

(** An environment in which files can be created and nothing can be
    fetched. *)
Definition noImagesEnv (listings : Listings) : Env := {|
  newRequestOk := fun _ => true;
  clientDo := fun _ => Some EmptyString;
  feedCloseOk := fun _ => true;
  UnmarshalListing := fun _ => (listings, false);
  statBlocked := fun _ => false;
  mkdirOk := fun _ => true;
  createOk := fun _ => true;
  httpGetOk := fun _ => false;
  copyOk := fun _ => true;
  fileCloseOk := fun _ => true;
  bodyCloseOk := fun _ => true;
  blocked_mkdir := fun _ blocked => eq_sym blocked;
  blocked_create := fun _ blocked => eq_sym blocked
|}.

(** The image of the feed "pics" with the link "https://i.imgur.com/a.jpg". *)
Definition sampleImage : Image :=
  set_subreddit "pics" (set_link "https://i.imgur.com/a.jpg" zeroImage).

(** ** More on the pipeline *)

(** Every feed of the configuration can be fetched and parsed. *)
Definition feedsAnswer (env : Env) (s : Scraper) : bool :=
  forallb (fun sub => match feedLinks env s sub with Ok _ => true | Panic _ => false end)
          (Subreddits (scrapingOptions s)).

(** The images [downloadImages] has taken off the queue are the ones the
    fetchers have sent. *)
Definition received (st : pipeline) : nat := length (workers st) + holding (disp st).


(** Some goroutine of the process can move. *)
Definition canStep (env : Env) (s : Scraper) (st : pipeline) : Prop :=
  exists l st', step env s l st = Some st'.

(** One feed with one image and a semaphore without units. *)
Definition noUnits : Scraper :=
  scraperFor {| OutputDirectory := "/out"; ImageLimit := 50; FrontPage := false;
                PageType := "hot"; Subreddits := ["pics"];
                MaxConcurrentDownloads := 0; RootFolderOnly := false |}.

(** ** How long a run can last

    A count of the transitions every goroutine still has before it, which
    each transition lowers.  A message still to be sent counts twice, for
    the step of [Start] that handles it; an image still to be sent counts
    for the steps of the fetcher, the dispatcher, its worker and [Start]. *)

(** One call of [downloadImage]. *)
Definition downloadSteps (d : download) : nat :=
  length (d_defers d) +
  match d_pc d with
  | AtEntry => 11
  | AtStat => 9
  | AtCreate => 8
  | AtGet => 6
  | AtCopy => 4
  | AtReport _ => 3
  | AtDefers => 1
  | Returned => 0
  end.

Definition workerSteps (w : worker) : nat :=
  match w with
  | W_Run d => downloadSteps d + 3
  | W_Release => 2
  | W_WgDone => 1
  | W_Gone => 0
  end.

Definition dispSteps (d : disp_pc) : nat :=
  match d with
  | D_Recv => 3
  | D_Add _ => 20
  | D_Acquire _ => 19
  | D_Go _ => 18
  | D_Wait => 2
  | D_Close => 1
  | D_Done => 0
  end.

Definition aggrSteps (a : aggr_pc) : nat :=
  match a with
  | A_Recv => 1
  | A_Handle _ => 2
  | A_Done => 0
  end.

Definition fetcherSteps (env : Env) (s : Scraper) (f : fetcher) : nat :=
  match f_pc f with
  | F_Lock => 20 * scheduledCount env s (f_sub f) + 6
  | F_Gather => 20 * scheduledCount env s (f_sub f) + 5
  | F_Mkdir links => 20 * length links + 4
  | F_GetMax links => 20 * length links + 3
  | F_ChangeMax links _ => 20 * length links + 2
  | F_Loop links k => 20 * length (drop k links) + 1
  | F_Send links k _ => 20 * length (drop (S k) links) + 19
  | F_Done => 0
  end.

(** A feed whose fetcher has not been started. *)
Definition feedSteps (env : Env) (s : Scraper) (sub : string) : nat :=
  20 * scheduledCount env s sub + 8.

Definition metaSteps (env : Env) (s : Scraper) (m : meta_pc) : nat :=
  match m with
  | M_Loop i => total (feedSteps env s) (drop i (Subreddits (scrapingOptions s))) + 3
  | M_Go i sub =>
      20 * scheduledCount env s sub + 7 +
      total (feedSteps env s) (drop (S i) (Subreddits (scrapingOptions s))) + 3
  | M_Wait => 2
  | M_Close => 1
  | M_Done => 0
  end.

Definition remaining (env : Env) (s : Scraper) (st : pipeline) : nat :=
  match crashed st with
  | Some _ => 0
  | None =>
      1 + metaSteps env s (meta st) + total (fetcherSteps env s) (fetchers st) +
      dispSteps (disp st) + total workerSteps (workers st) + aggrSteps (aggr st)
  end.

(** The longest a run over the configured feeds can be. *)
Definition longestRun (env : Env) (s : Scraper) : nat :=
  8 + 8 * length (Subreddits (scrapingOptions s)) + 20 * expectedTotal env s.

(** The run has come to an end, with the summary or abnormally. *)
Definition ended (st : pipeline) : Prop :=
  is_Some (crashed st) \/ aggr st = A_Done.

(** ** More on the id sets *)

(** The id is in the set of the feed. *)
Definition recorded (ids : gmap string (gmap string bool)) (sub id : string) : Prop :=
  exists seen, ids !! sub = Some seen /\ seen !! id = Some true.

(** The ids of the images a fetcher has got to are in the set of its feed. *)
Definition records (env : Env) (s : Scraper) (ids : gmap string (gmap string bool))
    (f : fetcher) : Prop :=
  match f_pc f with
  | F_Loop links k =>
      forall j raw, j < k -> links !! j = Some raw -> recorded ids (f_sub f) (imageId raw)
  | F_Send links k _ =>
      forall j raw, j <= k -> links !! j = Some raw -> recorded ids (f_sub f) (imageId raw)
  | F_Done =>
      forall links raw,
        feedLinks env s (f_sub f) = Ok links -> raw ∈ links ->
        recorded ids (f_sub f) (imageId raw)
  | _ => True
  end.

(** ** Where the images come from and go to *)

(** The directory of the feed exists, unless [os.MkdirAll] failed for it. *)
Definition dirReady (env : Env) (s : Scraper) (files : gset string) (sub : string) : Prop :=
  feedDir s sub ∈ files \/ mkdirOk env (feedDir s sub) = false.

(** An image that a configured feed provided, under the name of that feed. *)
Definition provided (env : Env) (s : Scraper) (img : Image) : Prop :=
  exists sub links raw,
    sub ∈ Subreddits (scrapingOptions s) /\ feedLinks env s sub = Ok links /\
    raw ∈ links /\ img = set_subreddit sub raw.

(** An image on its way from a fetcher to its worker. *)
Definition queued (env : Env) (s : Scraper) (files : gset string) (img : Image) : Prop :=
  provided env s img /\ dirReady env s files (subreddit img).

(** A worker is downloading a queued image, to the path expected for it. *)
Definition placed (env : Env) (s : Scraper) (files : gset string) (w : worker) : Prop :=
  match w with
  | W_Run d =>
      exists img,
        queued env s files img /\
        match d_pc d with
        | AtEntry => d = enterDownload (workerOutDir s img) img
        | _ => d_img d = set_link (rewriteLink (link img)) img /\
               d_path d = expectedPath s img
        end
  | _ => True
  end.

(** A fetcher past [os.MkdirAll] has its directory. *)
Definition prepared (env : Env) (s : Scraper) (files : gset string) (f : fetcher) : Prop :=
  match f_pc f with
  | F_Lock | F_Gather | F_Mkdir _ => True
  | _ => dirReady env s files (f_sub f)
  end.

Record place_inv (env : Env) (s : Scraper) (st : pipeline) : Prop := {
  place_fetchers : Forall (prepared env s (files st)) (fetchers st);
  place_disp :
    match disp st with
    | D_Add img | D_Acquire img | D_Go img => queued env s (files st) img
    | _ => True
    end;
  place_workers : Forall (placed env s (files st)) (workers st)
}.

(** ** More on the maximum of the progress bar *)

(** The maximum a fetcher has read and not yet written back is below a
    bound. *)
Definition maxRead (bound : nat) (f : fetcher) : Prop :=
  match f_pc f with
  | F_ChangeMax _ max => 1 <= max <= bound
  | _ => True
  end.

(** The download of the second image of [twoEntries], about to report. *)
Definition sampleDownload : download := {|
  d_img := set_link "https://i.imgur.com/b.mp4" (imageOf "b" ".gifv");
  d_outDir := "/out/pics";
  d_path := "/out/pics/b.mp4";
  d_defers := [CloseBody "https://i.imgur.com/b.mp4"; CloseFile "/out/pics/b.mp4"];
  d_pc := AtReport SUCCESS
|}.

(** ** More on paths *)

(** An element [path.Clean] keeps: not empty, not ".", and without "/". *)
Definition keptElem (e : string) : Prop :=
  e <> EmptyString /\ e <> "." /\ lacks "/" e = true.

(** The stack [path.Clean] has built, top first: kept elements only, and a
    ".." only at the bottom of a path that is not rooted, on top of nothing
    but "..". *)
Fixpoint tidy (rooted : bool) (stack : list string) : Prop :=
  match stack with
  | [] => True
  | e :: below =>
      keptElem e /\
      (e = ".." -> rooted = false /\ Forall (fun b => b = "..") below) /\
      tidy rooted below
  end.

(** A listing whose only entry has a blank image id. *)
Definition blankIdEntry : Listings := listingOf [imgurEntry "https://i.imgur.com/.jpg"].

(** The no-break space U+00A0 in UTF-8, alone and after a space. *)
Definition noBreakSpace : string := Eval cbv in bytes [194; 160].

Definition blankName : string := Eval cbv in bytes [32; 194; 160].

(** A listing whose only entry has a no-break space for an image id. *)
Definition nbspIdEntry : Listings :=
  listingOf [imgurEntry ("https://i.imgur.com/" +:+ noBreakSpace +:+ ".jpg")].

(** * Properties *)

(** ** Strings *)

Section StringFacts.

(* stdpp blocks [simpl] on string append; the proofs below compute with it. *)
#[local] Arguments String.append !_ _ / : simpl nomatch.

Lemma append_length (a b : string) :
  String.length (a +:+ b) = String.length a + String.length b.
Proof. induction a as [|c a IH]; simpl; [reflexivity | now rewrite IH]. Qed.

Lemma append_assoc (a b c : string) : (a +:+ b) +:+ c = a +:+ (b +:+ c).
Proof. induction a as [|x a IH]; simpl; [reflexivity | now rewrite IH]. Qed.

Lemma append_empty_r (a : string) : a +:+ EmptyString = a.
Proof. induction a as [|x a IH]; simpl; [reflexivity | now rewrite IH]. Qed.

Lemma substring_all (a : string) : String.substring 0 (String.length a) a = a.
Proof. induction a as [|x a IH]; simpl; [reflexivity | now rewrite IH]. Qed.

Lemma substring_stem (a b : string) :
  String.substring 0 (String.length a) (a +:+ b) = a.
Proof.
  induction a as [|x a IH]; simpl.
  - now destruct b.
  - now rewrite IH.
Qed.

Lemma substring_tail (a b : string) :
  String.substring (String.length a) (String.length b) (a +:+ b) = b.
Proof.
  induction a as [|x a IH]; simpl; [apply substring_all | exact IH].
Qed.

(** A string is its first [n] bytes followed by the rest. *)
Lemma substring_split (n : nat) (a : string) :
  n <= String.length a ->
  a = String.substring 0 n a +:+ String.substring n (String.length a - n) a.
Proof.
  revert n; induction a as [|x a IH]; intros n Hn; simpl in *.
  - destruct n; [reflexivity | lia].
  - destruct n as [|n]; simpl.
    + now rewrite substring_all.
    + f_equal. apply IH. lia.
Qed.

Lemma HasSuffix_append (stem suffix : string) :
  HasSuffix (stem +:+ suffix) suffix = true.
Proof.
  unfold HasSuffix. rewrite append_length.
  replace (String.length stem + String.length suffix - String.length suffix)
    with (String.length stem) by lia.
  rewrite substring_tail, String.eqb_refl, andb_true_r.
  apply Nat.leb_le. lia.
Qed.

(** [strings.HasSuffix] holds exactly of the strings that end in the
    suffix, and the slice before the suffix is the stem. *)
Lemma HasSuffix_true (a suffix : string) :
  HasSuffix a suffix = true ->
  a = String.substring 0 (String.length a - String.length suffix) a +:+ suffix.
Proof.
  unfold HasSuffix. intros H. apply andb_true_iff in H as [Hlen Heq].
  apply Nat.leb_le in Hlen. apply String.eqb_eq in Heq.
  rewrite (substring_split (String.length a - String.length suffix) a) at 1 by lia.
  replace (String.length a - (String.length a - String.length suffix))
    with (String.length suffix) by lia.
  now rewrite Heq.
Qed.

Lemma Split_nonempty (a : string) (sep : ascii) : Split a sep <> [].
Proof.
  induction a as [|c a IH]; simpl; [discriminate|].
  destruct (Ascii.eqb c sep); [discriminate|].
  destruct (Split a sep); discriminate.
Qed.

Lemma Split_lacks (a : string) (sep : ascii) :
  lacks sep a = true -> Split a sep = [a].
Proof.
  induction a as [|c a IH]; simpl; [reflexivity|].
  intros H. apply andb_true_iff in H as [Hc Ha].
  apply negb_true_iff in Hc. rewrite Hc, (IH Ha). reflexivity.
Qed.

(** Splitting around one separator. *)
Lemma Split_append_sep (a b : string) (sep : ascii) :
  Split (a +:+ String sep b) sep = Split a sep ++ Split b sep.
Proof.
  induction a as [|c a IH]; simpl.
  - now rewrite Ascii.eqb_refl.
  - destruct (Ascii.eqb c sep); rewrite IH; [reflexivity|].
    pose proof (Split_nonempty a sep).
    destruct (Split a sep); [contradiction | reflexivity].
Qed.

(** Appending bytes that are not the separator extends the last segment. *)
Lemma Split_append_lacks (a b : string) (sep : ascii) :
  lacks sep b = true ->
  exists segs seg,
    Split a sep = segs ++ [seg] /\ Split (a +:+ b) sep = segs ++ [seg +:+ b].
Proof.
  intros Hb. induction a as [|c a (segs & seg & Ha & Hab)]; simpl.
  - exists [], EmptyString. split; [reflexivity|]. simpl. now apply Split_lacks.
  - destruct (Ascii.eqb c sep).
    + exists (EmptyString :: segs), seg. rewrite Ha, Hab. now split.
    + rewrite Ha, Hab. destruct segs as [|seg0 segs]; simpl.
      * exists [], (String c seg). now split.
      * exists (String c seg0 :: segs), seg. now split.
Qed.

Lemma lastSegment_append_lacks (a b : string) (sep : ascii) :
  lacks sep b = true ->
  lastSegment (a +:+ b) sep = lastSegment a sep +:+ b.
Proof.
  intros Hb. destruct (Split_append_lacks a b sep Hb) as (segs & seg & Ha & Hab).
  unfold lastSegment. rewrite Ha, Hab, !last_last. reflexivity.
Qed.

Lemma lastSegment_append_sep (a b : string) (sep : ascii) :
  lastSegment (a +:+ String sep b) sep = lastSegment b sep.
Proof.
  unfold lastSegment. rewrite Split_append_sep.
  pose proof (Split_nonempty b sep) as Hne.
  destruct (Split b sep) as [|seg segs] using rev_ind; [contradiction|].
  now rewrite app_assoc, !last_last.
Qed.

Lemma lacks_lastSegment (a : string) (sep : ascii) :
  lacks sep (lastSegment a sep) = true.
Proof.
  unfold lastSegment. induction a as [|c a IH]; simpl; [reflexivity|].
  pose proof (Split_nonempty a sep) as Hne.
  destruct (Ascii.eqb c sep) eqn:Hc.
  - destruct (Split a sep); [contradiction | exact IH].
  - destruct (Split a sep) as [|seg [|seg' segs]]; [contradiction | |].
    + simpl in *. now rewrite Hc, IH.
    + exact IH.
Qed.

End StringFacts.

(** ** Paths *)

Section PathFacts.

#[local] Arguments String.append !_ _ / : simpl nomatch.

Lemma lastSegment_lacks (name : string) :
  lacks "/" name = true -> lastSegment name "/" = name.
Proof. intros H. unfold lastSegment. now rewrite Split_lacks. Qed.

Lemma lastSegment_joinSlash (elems : list string) (name : string) :
  lacks "/" name = true ->
  lastSegment (joinSlash (elems ++ [name])) "/" = name.
Proof.
  intros Hname. induction elems as [|e elems IH]; simpl.
  - now apply lastSegment_lacks.
  - destruct (elems ++ [name]) as [|e' rest] eqn:E.
    + now destruct elems.
    + rewrite lastSegment_append_sep. exact IH.
Qed.

Lemma cleanElem_plain (rooted : bool) (kept : list string) (name : string) :
  plainName name = true -> cleanElem rooted kept name = name :: kept.
Proof.
  unfold plainName, cleanElem. intros H.
  repeat (apply andb_true_iff in H as [H ?]).
  apply negb_true_iff in H. rewrite H. simpl.
  destruct (String.eqb name "."); [discriminate|].
  destruct (String.eqb name ".."); [discriminate|]. reflexivity.
Qed.

(** Cleaning a path whose last element is an ordinary name keeps that name
    as the last element. *)
Lemma lastSegment_Clean (p name : string) (segs : list string) :
  plainName name = true ->
  Split p "/" = segs ++ [name] ->
  lastSegment (Clean p) "/" = name.
Proof.
  intros Hplain Hsplit.
  assert (Hlacks : lacks "/" name = true).
  { unfold plainName in Hplain. now apply andb_true_iff in Hplain as [_ ?]. }
  assert (Hne : name <> EmptyString).
  { unfold plainName in Hplain.
    repeat (apply andb_true_iff in Hplain as [Hplain ?]).
    apply negb_true_iff in Hplain. now apply String.eqb_neq. }
  unfold Clean. destruct (String.eqb_spec p EmptyString) as [->|_].
  - destruct segs; simpl in Hsplit; [congruence | destruct segs; discriminate].
  - rewrite Hsplit, fold_left_app. simpl.
    rewrite cleanElem_plain by assumption. simpl.
    set (kept := rev (fold_left _ segs [])).
    pose proof (lastSegment_joinSlash kept name Hlacks) as Hlast.
    destruct (String.prefix "/" p).
    + exact (eq_trans (lastSegment_append_sep EmptyString _ "/") Hlast).
    + destruct (String.eqb_spec (joinSlash (kept ++ [name])) EmptyString) as [E|_];
        [|assumption].
      rewrite E in Hlast. cbn in Hlast. congruence.
Qed.

(** [path.Join(dir, name)] ends in [name] when [name] is an ordinary name. *)
Lemma lastSegment_Join (dir name : string) :
  plainName name = true ->
  lastSegment (Join [dir; name]) "/" = name.
Proof.
  intros Hplain.
  assert (Hlacks : lacks "/" name = true).
  { unfold plainName in Hplain. now apply andb_true_iff in Hplain as [_ ?]. }
  assert (Hne : String.eqb name EmptyString = false).
  { unfold plainName in Hplain.
    repeat (apply andb_true_iff in Hplain as [Hplain ?]).
    now apply negb_true_iff in Hplain. }
  unfold Join. simpl. rewrite Hne, andb_false_r. unfold joinBuf. simpl.
  destruct (String.eqb_spec dir EmptyString) as [->|Hdir]; simpl.
  - rewrite Hne. simpl. apply (lastSegment_Clean name name []); [assumption|].
    now apply Split_lacks.
  - apply String.eqb_neq in Hdir. rewrite Hdir. simpl.
    apply (lastSegment_Clean _ name (Split dir "/")); [assumption|].
    rewrite append_assoc. change ("/" +:+ name) with (String "/" name).
    rewrite Split_append_sep. now rewrite (Split_lacks name).
Qed.

Lemma plainName_mp4 (stem : string) :
  lacks "/" stem = true -> plainName (stem +:+ "mp4") = true.
Proof.
  intros Hstem. unfold plainName.
  assert (Hl : lacks "/" (stem +:+ "mp4") = true).
  { induction stem as [|c stem IH]; [reflexivity|]. simpl in *.
    apply andb_true_iff in Hstem as [-> Hs]. now rewrite IH. }
  assert (Hlen : 3 <= String.length (stem +:+ "mp4"))
    by (rewrite append_length; simpl; lia).
  rewrite Hl, andb_true_r.
  destruct (String.eqb_spec (stem +:+ "mp4") EmptyString) as [E|_];
    [rewrite E in Hlen; simpl in Hlen; lia|].
  destruct (String.eqb_spec (stem +:+ "mp4") ".") as [E|_];
    [rewrite E in Hlen; simpl in Hlen; lia|].
  destruct (String.eqb_spec (stem +:+ "mp4") "..") as [E|_];
    [rewrite E in Hlen; simpl in Hlen; lia|].
  reflexivity.
Qed.

End PathFacts.

(** ** Construction *)

(** [NewScraper] returns a scraper exactly for the supported page types. *)
Lemma NewScraper_returns (options : Options) :
  mapIndex pageTypes (PageType options) = true ->
  exists sc, NewScraper options = Ok sc.
Proof.
  intros H. unfold NewScraper. cbn [supportedPageTypes]. rewrite H. cbn [negb].
  eexists. reflexivity.
Qed.

Lemma NewScraper_fatal (options : Options) :
  mapIndex pageTypes (PageType options) = false ->
  NewScraper options = Panic LogFatal.
Proof.
  intros H. unfold NewScraper. cbn [supportedPageTypes]. now rewrite H.
Qed.

(** C10: for every options value with a supported page type [NewScraper]
    returns a scraper, and the scraper it returns has [ImageLimit] 100 when
    the given limit is above 100, and the given limit otherwise; a limit of
    zero or below is not replaced by 50, because the 50 is stored in a field
    that the final assignment of the whole options struct overwrites.  For
    any other page type there is no scraper: the process ends in
    [log.Fatalf]. *)
Theorem NewScraper_ImageLimit (options : Options) :
  let limit :=
    if (ImageLimit options >? 100)%Z then 100%Z else ImageLimit options in
  (mapIndex pageTypes (PageType options) = true ->
     exists sc,
       NewScraper options = Ok sc /\ ImageLimit (scrapingOptions sc) = limit) /\
  (forall sc,
     NewScraper options = Ok sc ->
     ImageLimit (scrapingOptions sc) = limit /\
     mapIndex pageTypes (PageType options) = true) /\
  (mapIndex pageTypes (PageType options) = false ->
     NewScraper options = Panic LogFatal).
Proof.
  cbv zeta. unfold NewScraper. cbn [supportedPageTypes].
  destruct (mapIndex pageTypes (PageType options)); cbn [negb].
  - split; [|split; [|discriminate]].
    + intros _. eexists. split; [reflexivity|].
      destruct (ImageLimit options >? 100)%Z;
        repeat match goal with |- context [if ?b then _ else _] => destruct b end;
        reflexivity.
    + intros sc H. injection H as <-. split; [|reflexivity].
      destruct (ImageLimit options >? 100)%Z;
        repeat match goal with |- context [if ?b then _ else _] => destruct b end;
        reflexivity.
  - split; [discriminate|]. split; [discriminate | reflexivity].
Qed.

Lemma NewScraper_ImageLimit_witness :
  let above := set_ImageLimit 250 (optionsFor "/out" ["pics"] false) in
  let below := set_ImageLimit (-5) (optionsFor "/out" ["pics"] false) in
  (exists sc,
     NewScraper above = Ok sc /\ ImageLimit (scrapingOptions sc) = 100%Z) /\
  (exists sc,
     NewScraper below = Ok sc /\ ImageLimit (scrapingOptions sc) = (-5)%Z).
Proof.
  intros above below. split.
  - apply (proj1 (NewScraper_ImageLimit above)). reflexivity.
  - apply (proj1 (NewScraper_ImageLimit below)). reflexivity.
Defined.

(** ** Metadata parsing *)

Lemma fillImages_length (filteredList : list Child) :
  forall (k : nat) (slots images : list Image),
    fillImages k filteredList slots = Ok images -> length images = length slots.
Proof.
  induction filteredList as [|v rest IH]; intros k slots images; simpl.
  - now intros [= ->].
  - destruct (redditChildToImage v) as [image|]; simpl; [|discriminate].
    destruct (String.eqb (TrimSpace (imageId image)) EmptyString); intros H.
    + exact (IH _ _ _ H).
    + rewrite (IH _ _ _ H). apply length_insert.
Qed.

(** The second loop of [parseLinksFromListings] drops nothing: there is one
    image per entry that passed the filter. *)
Lemma parseLinksFromListings_length (data : ListingData) (images : list Image) :
  parseLinksFromListings {| Data := Some data |} = Ok images ->
  exists filteredList,
    filterChildren (Children data) = Ok filteredList /\
    length images = length filteredList.
Proof.
  unfold parseLinksFromListings. cbn [Data].
  destruct (Children data) as [|c cs] eqn:E.
  - intros [= <-]. exists []. split; reflexivity.
  - cbn [length Nat.eqb].
    destruct (filterChildren (c :: cs)) as [filteredList|]; simpl; [|discriminate].
    intros H. exists filteredList. split; [reflexivity|].
    rewrite (fillImages_length _ _ _ _ H). apply length_replicate.
Qed.

(** C1: on a feed of five entries that pass the filter, two of them with the
    same image id, the parser returns five images and the fetcher enqueues
    all five: the run ends with five downloads started and five finished,
    although the feed's id set holds four ids.  An entry whose image id is
    blank is not dropped either: its slot keeps the zero [Image], which is
    enqueued like the others. *)
Theorem duplicates_are_scheduled :
  let env := friendlyEnv fiveEntries in
  let sc := scraperFor (optionsFor "/out" ["pics"] false) in
  (exists images,
      parseLinksFromListings fiveEntries = Ok images /\
      imageId <$> images = ["a"; "b"; "a"; "c"; "d"]) /\
  match exec env sc (schedule_from env sc 200 (initial ∅)) (initial ∅) with
  | Some st =>
      aggr st = A_Done /\ crashed st = None /\
      length (workers st) = 5 /\ downloaded st + skipped st + failed st = 5 /\
      size <$> (uniqueImageIds st !! "pics") = Some 4
  | None => False
  end /\
  parseLinksFromListings (listingOf [imgurEntry "https://i.imgur.com/.jpg"])
    = Ok [zeroImage].
Proof.
  split; [|split].
  - eexists. split; reflexivity.
  - vm_compute. repeat split; reflexivity.
  - reflexivity.
Qed.

(** C4: the parsing stage does not survive absent fields.  An entry that
    passes the domain or post-hint test and has no URL makes the filter loop
    dereference nil; an entry with a URL but without author (or domain, id,
    permalink, title, subreddit) makes [redditChildToImage] dereference nil;
    an entry without its [data] object does so at the first test.  In the
    pipeline the panic ends the process. *)
Theorem absent_fields_panic :
  parseLinksFromListings (listingOf [entryWithoutURL]) = Panic NilDereference /\
  parseLinksFromListings (listingOf [entryWithoutAuthor]) = Panic NilDereference /\
  parseLinksFromListings (listingOf [entryWithoutDomain]) = Panic NilDereference /\
  parseLinksFromListings (listingOf [{| ChildData_ := None |}]) = Panic NilDereference /\
  let env := friendlyEnv (listingOf [entryWithoutURL]) in
  let sc := scraperFor (optionsFor "/out" ["pics"] false) in
  crashed <$> exec env sc [RunMeta; RunMeta; RunFetcher 0; RunFetcher 0] (initial ∅)
    = Some (Some NilDereference).
Proof. repeat split; reflexivity. Qed.

(** ** The download worker *)

Section Worker.
Variable env : Env.
Variable s : Scraper.

Lemma enterDownload_step (files : gset string) (outDir : string) (img : Image) :
  dl_step env s files (enterDownload outDir img) =
  Stepped (EvSend {| us_image := img; us_state := DOWNLOADING |})
          {| d_img := set_link (rewriteLink (link img)) img;
             d_outDir := rootOutDir s outDir img;
             d_path := imagePath s outDir img;
             d_defers := []; d_pc := AtStat |}
          files.
Proof. reflexivity. Qed.

(** When the file is there, the worker sends Pending and Skipped, asks for
    nothing else, and leaves the files alone. *)
Lemma downloadImage_existing (files : gset string) (outDir : string) (img : Image) :
  imagePath s outDir img ∈ files ->
  downloadImage env s files outDir img =
  ([EvSend {| us_image := img; us_state := DOWNLOADING |};
    EvStat (imagePath s outDir img);
    EvSend {| us_image := set_link (rewriteLink (link img)) img; us_state := SKIPPED |};
    EvReturn],
   files, Some (Ok tt)).
Proof.
  intros Hin. unfold downloadImage.
  cbn -[imagePath rewriteLink Join lastSegment rootOutDir].
  fold (imagePath s outDir img).
  rewrite bool_decide_true by assumption. reflexivity.
Qed.

(** Every run of [downloadImage], written out. *)
Lemma downloadImage_cases (files : gset string) (outDir : string) (img : Image) :
  let p := imagePath s outDir img in
  let l := rewriteLink (link img) in
  let img' := set_link l img in
  let say st := EvSend {| us_image := img'; us_state := st |} in
  let start := [EvSend {| us_image := img; us_state := DOWNLOADING |}; EvStat p] in
  downloadImage env s files outDir img =
  if bool_decide (p ∈ files) || statBlocked env p
  then (start ++ [say SKIPPED; EvReturn], files, Some (Ok tt))
  else if createOk env p
  then if httpGetOk env l
       then let st := if copyOk env l then SUCCESS else FAILED in
            if bodyCloseOk env l
            then if fileCloseOk env p
                 then (start ++ [EvCreate p; EvGet l; EvCopy l p; say st;
                                 EvClose (CloseBody l); EvClose (CloseFile p); EvReturn],
                       files ∪ {[p]}, Some (Ok tt))
                 else (start ++ [EvCreate p; EvGet l; EvCopy l p; say st;
                                 EvClose (CloseBody l)],
                       files ∪ {[p]}, Some (Panic LogFatal))
            else (start ++ [EvCreate p; EvGet l; EvCopy l p; say st],
                  files ∪ {[p]}, Some (Panic LogFatal))
       else if fileCloseOk env p
            then (start ++ [EvCreate p; EvGet l; say FAILED;
                            EvClose (CloseFile p); EvReturn],
                  files ∪ {[p]}, Some (Ok tt))
            else (start ++ [EvCreate p; EvGet l; say FAILED],
                  files ∪ {[p]}, Some (Panic LogFatal))
  else (start ++ [EvCreate p; say FAILED; EvReturn], files, Some (Ok tt)).
Proof.
  unfold downloadImage, imagePath, fileName.
  cbn -[rewriteLink Join lastSegment rootOutDir].
  repeat first
    [ reflexivity
    | progress cbn -[rewriteLink Join lastSegment rootOutDir]
    | match goal with
      | |- context [if ?b then _ else _] => destruct b
      end ].
Qed.

(** A file that is not there and can be created is created under the image
    path and asked for at the rewritten link, whatever happens next. *)
Lemma downloadImage_creates (files : gset string) (outDir : string) (img : Image) :
  imagePath s outDir img ∉ files ->
  statBlocked env (imagePath s outDir img) = false ->
  createOk env (imagePath s outDir img) = true ->
  let r := downloadImage env s files outDir img in
  touchedPaths (eventsOf r) = [imagePath s outDir img; imagePath s outDir img] /\
  EvCreate (imagePath s outDir img) ∈ eventsOf r /\
  requests (eventsOf r) = [rewriteLink (link img)] /\
  imagePath s outDir img ∈ snd (fst r).
Proof.
  intros Hnew Hstat Hcreate. cbv zeta. rewrite downloadImage_cases. cbv zeta.
  rewrite bool_decide_false, Hstat, Hcreate by assumption. cbn [orb].
  repeat match goal with
  | |- context [if ?b then _ else _] => destruct b
  end.
  all: cbn [app eventsOf touchedPaths requests omap list_omap fst snd].
  all: repeat split; try reflexivity.
  all: try (apply elem_of_union_r, elem_of_singleton; reflexivity).
  all: do 2 right; left.
Qed.

(** Whatever the environment answers: the worker only ever asks for the
    rewritten link and only ever touches the image path; it sends Pending
    first and then exactly one terminal message; and the call ends, by
    returning or, when a deferred [Close] fails, with [log.Fatal]. *)
Lemma downloadImage_targets (files : gset string) (outDir : string) (img : Image) :
  let r := downloadImage env s files outDir img in
  let evs := eventsOf r in
  (forall url, url ∈ requests evs -> url = rewriteLink (link img)) /\
  (forall p, p ∈ touchedPaths evs -> p = imagePath s outDir img) /\
  head (messages evs) = Some {| us_image := img; us_state := DOWNLOADING |} /\
  head (touchedPaths evs) = Some (imagePath s outDir img) /\
  (exists st, us_state <$> messages evs = [DOWNLOADING; st] /\ st <> DOWNLOADING) /\
  (snd r = Some (Ok tt) \/ snd r = Some (Panic LogFatal)).
Proof.
  unfold downloadImage, eventsOf.
  cbn -[imagePath rewriteLink Join lastSegment rootOutDir].
  fold (imagePath s outDir img).
  repeat first
    [ progress cbn -[imagePath rewriteLink Join lastSegment rootOutDir]
    | match goal with
      | |- context [if ?b then _ else _] => destruct b
      end ].
  all: repeat split; try reflexivity; auto.
  all: try (eexists; split; [reflexivity | discriminate]).
  all: intros x Hx; repeat (apply elem_of_cons in Hx as [->|Hx]; [reflexivity|]);
       now apply elem_of_nil in Hx.
Qed.

End Worker.

(** The name under which a rewritten gif-v link is stored ends in "mp4". *)
Lemma fileName_gifv (img : Image) (stem : string) :
  link img = stem +:+ "gifv" ->
  rewriteLink (link img) = stem +:+ "mp4" /\
  fileName img = lastSegment stem "/" +:+ "mp4" /\
  plainName (fileName img) = true.
Proof.
  intros Hlink.
  assert (Hrw : rewriteLink (link img) = stem +:+ "mp4").
  { unfold rewriteLink. rewrite Hlink, HasSuffix_append, append_length.
    change (String.length "gifv") with 4.
    replace (String.length stem + 4 - 4) with (String.length stem) by lia.
    now rewrite substring_stem. }
  assert (Hname : fileName img = lastSegment stem "/" +:+ "mp4").
  { unfold fileName. rewrite Hrw. now apply lastSegment_append_lacks. }
  repeat split; [assumption | assumption |].
  rewrite Hname. apply plainName_mp4, lacks_lastSegment.
Qed.

(** C9: a link that ends in "gifv" has exactly that suffix replaced by "mp4",
    other links are left alone, and the rewrite comes before every other
    step: the existence check is made, in every call, on the path named
    after the rewritten link; and when the file is not there and can be
    created, it is created under that path and the GET is issued, against
    the rewritten link.  The stored file's name is the last segment of the
    rewritten link, which ends in "mp4".  No call asks for another link or
    touches another path. *)
Theorem gifv_rewrite (env : Env) (s : Scraper) (files : gset string)
    (outDir : string) (img : Image) :
  let rewritten := rewriteLink (link img) in
  let r := downloadImage env s files outDir img in
  let evs := eventsOf r in
  let stored := Join [rootOutDir s outDir img; lastSegment rewritten "/"] in
  (HasSuffix (link img) "gifv" = true ->
     exists stem,
       link img = stem +:+ "gifv" /\ rewritten = stem +:+ "mp4" /\
       HasSuffix (fileName img) "mp4" = true /\
       lastSegment (imagePath s outDir img) "/" = fileName img) /\
  (HasSuffix (link img) "gifv" = false -> rewritten = link img) /\
  fileName img = lastSegment rewritten "/" /\
  (forall url, url ∈ requests evs -> url = rewritten) /\
  (forall p, p ∈ touchedPaths evs -> p = stored) /\
  head (touchedPaths evs) = Some stored /\
  ((stored ∉ files) -> statBlocked env stored = false -> createOk env stored = true ->
     touchedPaths evs = [stored; stored] /\
     EvCreate stored ∈ evs /\
     requests evs = [rewritten] /\
     stored ∈ snd (fst r)).
Proof.
  cbv zeta. split; [|split; [|split; [|split; [|split; [|split]]]]].
  - intros Hsuffix. apply HasSuffix_true in Hsuffix.
    set (stem := String.substring 0 _ _) in Hsuffix.
    destruct (fileName_gifv img stem Hsuffix) as (Hrw & Hname & Hplain).
    exists stem. repeat split; try assumption.
    + rewrite Hname. apply HasSuffix_append.
    + unfold imagePath. now apply lastSegment_Join.
  - intros Hsuffix. unfold rewriteLink. now rewrite Hsuffix.
  - reflexivity.
  - apply (downloadImage_targets env s files outDir img).
  - apply (downloadImage_targets env s files outDir img).
  - apply (downloadImage_targets env s files outDir img).
  - apply (downloadImage_creates env s files outDir img).
Qed.

Lemma gifv_rewrite_witness :
  let env := friendlyEnv emptyListings in
  let sc := scraperFor (optionsFor "/out" ["gifs"] false) in
  let img := set_subreddit "gifs"
               (set_link "https://i.imgur.com/cat.gifv" zeroImage) in
  let r := downloadImage env sc ∅ (workerOutDir sc img) img in
  rewriteLink (link img) = "https://i.imgur.com/cat.mp4" /\
  Join [rootOutDir sc (workerOutDir sc img) img;
        lastSegment (rewriteLink (link img)) "/"] = "/out/gifs/cat.mp4" /\
  touchedPaths (eventsOf r) = ["/out/gifs/cat.mp4"; "/out/gifs/cat.mp4"] /\
  EvCreate "/out/gifs/cat.mp4" ∈ eventsOf r /\
  requests (eventsOf r) = ["https://i.imgur.com/cat.mp4"] /\
  "/out/gifs/cat.mp4" ∈ snd (fst r).
Proof.
  intros env sc img r.
  split; [reflexivity|]. split; [reflexivity|].
  apply (gifv_rewrite env sc ∅ (workerOutDir sc img) img).
  - apply not_elem_of_empty.
  - reflexivity.
  - reflexivity.
Defined.

(** A gif-v link with every operation succeeding: the GET goes to the mp4
    link and the file is stored under the mp4 name. *)
Example gifv_download :
  let sc := scraperFor (optionsFor "/out" ["gifs"] false) in
  let img := set_subreddit "gifs"
               (set_link "https://i.imgur.com/cat.gifv" zeroImage) in
  let evs := eventsOf (downloadImage (friendlyEnv emptyListings) sc ∅
                         (workerOutDir sc img) img) in
  requests evs = ["https://i.imgur.com/cat.mp4"] /\
  touchedPaths evs = ["/out/gifs/cat.mp4"; "/out/gifs/cat.mp4"] /\
  us_state <$> messages evs = [DOWNLOADING; SUCCESS].
Proof. repeat split; reflexivity. Qed.

(** In the default layout the worker writes below the directory the fetcher
    created for the feed. *)
Lemma imagePath_default (s : Scraper) (img : Image) :
  RootFolderOnly (scrapingOptions s) = false ->
  imagePath s (workerOutDir s img) img =
    Join [feedDir s (subreddit img); fileName img].
Proof.
  intros H. unfold imagePath, rootOutDir, feedDir, workerOutDir. now rewrite H.
Qed.

(** C7: with root-folder-only set and the feed name occurring in the output
    directory, the file does not go to [<outputDir>/<filename>].  For the
    output directory "/pics/out" and the feed "pics", the fetcher creates
    "/pics/out", while the worker removes the first "pics" of
    "/pics/out/pics" and stores the image at "/out/pics/a.jpg". *)
Theorem root_folder_path_misses_output_dir :
  let sc := scraperFor (optionsFor "/pics/out" ["pics"] true) in
  let img := set_subreddit "pics"
               (set_link "https://i.imgur.com/a.jpg" zeroImage) in
  let evs := eventsOf (downloadImage (friendlyEnv emptyListings) sc ∅
                         (workerOutDir sc img) img) in
  feedDir sc "pics" = "/pics/out" /\
  fileName img = "a.jpg" /\
  Join [OutputDirectory (scrapingOptions sc); fileName img] = "/pics/out/a.jpg" /\
  imagePath sc (workerOutDir sc img) img = "/out/pics/a.jpg" /\
  touchedPaths evs = ["/out/pics/a.jpg"; "/out/pics/a.jpg"].
Proof. repeat split; reflexivity. Qed.

(** ** The pipeline: sums over goroutines *)

Section Totals.
Context {A : Type} (f : A -> nat).

Lemma total_snoc (l : list A) (x : A) : total f (l ++ [x]) = total f l + f x.
Proof. unfold total. rewrite sum_list_with_app. simpl. lia. Qed.

Lemma total_lookup_le (l : list A) (i : nat) (x : A) :
  l !! i = Some x -> f x <= total f l.
Proof.
  revert i; induction l as [|y l IH]; intros [|i] H; simpl in *; try discriminate.
  - injection H as ->. unfold total. simpl. lia.
  - specialize (IH _ H). unfold total in *. simpl. lia.
Qed.

(** Replacing one element moves the sum by the difference. *)
Lemma total_insert (l : list A) (i : nat) (x y : A) :
  l !! i = Some x -> total f (<[i := y]> l) = total f l - f x + f y.
Proof.
  revert i; induction l as [|z l IH]; intros [|i] H; simpl in *; try discriminate.
  - injection H as ->. unfold total. simpl. lia.
  - pose proof (total_lookup_le _ _ _ H). specialize (IH _ H).
    unfold total in *. simpl in *. lia.
Qed.

Lemma total_zero (l : list A) (i : nat) (x : A) :
  total f l = 0 -> l !! i = Some x -> f x = 0.
Proof. intros H0 H. pose proof (total_lookup_le _ _ _ H). lia. Qed.

Lemma total_le (g : A -> nat) (l : list A) :
  (forall x, f x <= g x) -> total f l <= total g l.
Proof.
  intros H. induction l as [|x l IH]; unfold total in *; simpl; [lia|].
  specialize (H x). lia.
Qed.

End Totals.

(** Case analysis on one transition: splits on what the step function
    inspects, keeping the facts about the source state in step. *)
Ltac split_on x :=
  let E := fresh "E" in
  destruct x eqn:E; rewrite ?E in *; try discriminate.

Ltac step_case H :=
  match type of H with
  | context [match ?x with _ => _ end] => split_on x
  | context [if ?x then _ else _] => split_on x
  end.

Ltac unfold_step H :=
  unfold step, step_meta, step_fetcher, step_dispatcher, step_worker,
    step_aggregator, step_race, crash, set_fetcher, set_worker in H.

Ltac step_cases H :=
  unfold_step H; repeat step_case H;
  try (injection H as H; subst).

Arguments total : simpl never.

Ltac use_totals :=
  repeat match goal with
  | E : ?l !! ?i = Some ?x |- context [total ?f (<[?i := ?y]> ?l)] =>
      rewrite (total_insert f l i x y E);
      pose proof (total_lookup_le f l i x E)
  | |- context [total _ (_ ++ [_])] => rewrite total_snoc
  end.

Ltac use_pcs :=
  repeat match goal with
  | E : f_pc _ = _ |- _ => rewrite E in *
  | E : d_pc _ = _ |- _ => rewrite E in *
  end.

Ltac use_tests :=
  repeat match goal with
  | H : (_ =? _) = true |- _ => apply Nat.eqb_eq in H
  | H : (_ <=? _)%Z = true |- _ => apply Z.leb_le in H
  end.

Ltac measures :=
  unfold live, counted, holds, transferring, spawning, enrolled, granted in *;
  cbn in *; use_pcs; use_tests.

(** ** The panics the sequential code can raise *)

Lemma deref_panic {A : Type} (p : option A) (k : panic) :
  deref p = Panic k -> k = NilDereference.
Proof. destruct p; simpl; congruence. Qed.

Ltac bind_panic H :=
  repeat match type of H with
  | bind (deref ?p) _ = Panic _ =>
      let E := fresh "E" in
      destruct p eqn:E; cbn [bind deref] in H; [|congruence]
  end.

Lemma redditChildToImage_panic (child : Child) (k : panic) :
  redditChildToImage child = Panic k -> k = NilDereference.
Proof.
  unfold redditChildToImage. intros H. bind_panic H. discriminate.
Qed.

Lemma keepsChild_panic (value : Child) (k : panic) :
  keepsChild value = Panic k -> k = NilDereference.
Proof.
  unfold keepsChild. intros H. bind_panic H.
  destruct (_ || _); [|discriminate]. bind_panic H. discriminate.
Qed.

Lemma filterChildren_panic (children : list Child) (k : panic) :
  filterChildren children = Panic k -> k = NilDereference.
Proof.
  induction children as [|value rest IH]; simpl; [discriminate|].
  destruct (keepsChild value) eqn:E; simpl.
  - destruct (filterChildren rest); simpl; [discriminate|].
    intros [= <-]. now apply IH.
  - intros [= <-]. eapply keepsChild_panic, E.
Qed.

Lemma fillImages_panic (filteredList : list Child) (k : panic) :
  forall (i : nat) (slots : list Image),
    fillImages i filteredList slots = Panic k -> k = NilDereference.
Proof.
  induction filteredList as [|v rest IH]; intros i slots; simpl; [discriminate|].
  destruct (redditChildToImage v) eqn:E; simpl.
  - destruct (String.eqb _ _); apply IH.
  - intros [= <-]. eapply redditChildToImage_panic, E.
Qed.

Lemma parseLinksFromListings_panic (listings : Listings) (k : panic) :
  parseLinksFromListings listings = Panic k -> k = NilDereference.
Proof.
  unfold parseLinksFromListings. destruct (Data listings); [|discriminate].
  destruct (Nat.eqb _ _); [discriminate|].
  destruct (filterChildren _) eqn:E; simpl.
  - apply fillImages_panic.
  - intros [= <-]. eapply filterChildren_panic, E.
Qed.

(** A fetch can end the process by a nil dereference, [log.Panic] or
    [log.Fatal], and in no other way. *)
Lemma feedLinks_panic (env : Env) (s : Scraper) (sub : string) (k : panic) :
  feedLinks env s sub = Panic k ->
  k = NilDereference \/ k = LogPanic \/ k = LogFatal.
Proof.
  unfold feedLinks, gatherRedditFeed.
  destruct (String.eqb _ _); simpl.
  - discriminate.
  - destruct (newRequestOk _ _); simpl; [|intros [= <-]; auto].
    destruct (clientDo _ _); simpl; [|intros [= <-]; auto].
    destruct (feedCloseOk _ _); simpl; [|intros [= <-]; auto].
    intros H. left. eapply parseLinksFromListings_panic, H.
Qed.

Lemma dl_step_fatal (env : Env) (s : Scraper) (files : gset string)
    (d : download) (k : panic) :
  dl_step env s files d = Fatal k -> k = LogFatal.
Proof.
  unfold dl_step. intros H. repeat case_match; congruence.
Qed.

(** ** The pipeline: wait groups, semaphore and channel closing *)

Ltac pose_lookups :=
  try match goal with
  | E : fetchers _ !! _ = Some _ |- _ => pose proof (total_lookup_le live _ _ _ E)
  end;
  try match goal with
  | E : workers _ !! _ = Some _ |- _ =>
      pose proof (total_lookup_le counted _ _ _ E);
      pose proof (total_lookup_le holds _ _ _ E)
  end.

Ltac known_panics :=
  repeat match goal with
  | E : feedLinks _ _ _ = Panic _ |- _ =>
      apply feedLinks_panic in E as [ -> | [ -> | -> ] ]
  | E : dl_step _ _ _ _ = Fatal _ |- _ => apply dl_step_fatal in E as ->
  end.

Section SyncFacts.
Variable env : Env.
Variable s : Scraper.

Lemma sync_initial (fs : gset string) : sync_inv s (initial fs).
Proof.
  constructor; simpl; auto; try discriminate.
Qed.

Lemma sync_step (l : label) (st st' : pipeline) :
  sync_inv s st -> step env s l st = Some st' -> sync_inv s st'.
Proof.
  intros [Hmwg Hjoin Hq Hwg Hsem Hbound Hdrain Hpump Hafter Haggr Hcrash] H.
  unfold step in H. destruct (crashed st) eqn:Hc; [discriminate|].
  destruct l; step_cases H.
  all: constructor; cbn; rewrite ?Hc; try assumption.
  all: use_totals; pose_lookups; known_panics; measures.
  all: try solve [ lia | tauto | congruence | intuition congruence
                 | destruct (disp st); try tauto; lia
                 | destruct (meta st); try tauto; lia
                 | repeat split; discriminate
                 | exfalso; destruct (meta st); try discriminate; lia
                 | exfalso; destruct (disp st); try discriminate; lia ].
Qed.

Lemma sync_exec (schedule : list label) :
  forall st st', sync_inv s st -> exec env s schedule st = Some st' -> sync_inv s st'.
Proof.
  induction schedule as [|l rest IH]; intros st st' Hinv; simpl.
  - now intros [= <-].
  - destruct (step env s l st) as [st1|] eqn:E; [|discriminate].
    apply IH. eapply sync_step; eassumption.
Qed.

Lemma sync_reachable (fs : gset string) (st : pipeline) :
  reachable env s fs st -> sync_inv s st.
Proof. intros [schedule H]. eapply sync_exec; [apply sync_initial | exact H]. Qed.

End SyncFacts.

(** ** The pipeline: every image is accounted for *)

Lemma fmap_f_sub_insert (l : list fetcher) (i : nat) (f : fetcher) (pc : fetcher_pc) :
  l !! i = Some f ->
  f_sub <$> <[i := {| f_sub := f_sub f; f_pc := pc |}]> l = f_sub <$> l.
Proof.
  intros H. rewrite list_fmap_insert. cbn.
  apply list_insert_id. now rewrite list_lookup_fmap, H.
Qed.

Ltac use_foralls :=
  repeat match goal with
  | H : Forall ?P ?l, E : ?l !! _ = Some _ |- _ =>
      lazymatch goal with
      | _ : P _ |- _ => fail
      | _ => pose proof (Forall_lookup_1 P l _ _ H E)
      end
  end;
  try match goal with
  | |- Forall _ (<[_ := _]> _) => apply Forall_insert; [assumption|]
  | |- Forall _ (_ ++ [_]) =>
      apply Forall_app; split; [assumption | apply Forall_singleton]
  end.

(** Exactly the step from [AtReport] turns an unreported download into a
    reported one, and it sends a terminal message. *)
Lemma dl_step_report (env : Env) (s : Scraper) (files files' : gset string)
    (d d' : download) (ev : event) :
  dl_step env s files d = Stepped ev d' files' ->
  d_pc d <> AtReport DOWNLOADING ->
  d_pc d' <> AtReport DOWNLOADING /\
  unreported d =
    unreported d' + (match ev with EvSend u => handling (A_Handle u) | _ => 0 end).
Proof.
  unfold dl_step, unreported. intros H Hpc.
  destruct (d_pc d) eqn:E; repeat step_case H; simplify_eq; cbn;
    split; try congruence; try reflexivity.
  all: destruct st; first [reflexivity | congruence].
Qed.

Lemma dl_step_finished (env : Env) (s : Scraper) (files : gset string) (d : download) :
  dl_step env s files d = Finished -> unreported d = 0.
Proof.
  unfold dl_step, unreported. intros H.
  destruct (d_pc d) eqn:E; repeat case_match; simplify_eq; reflexivity.
Qed.

Ltac use_dl_steps :=
  repeat match goal with
  | E : dl_step _ _ _ ?d = Stepped _ _ _, H : worker_ok (W_Run ?d) |- _ =>
      destruct (dl_step_report _ _ _ _ _ _ _ E H); clear E
  | E : dl_step _ _ _ ?d = Finished |- _ =>
      apply dl_step_finished in E
  end.

Section FlowFacts.
Variable env : Env.
Variable s : Scraper.

Lemma flow_initial (fs : gset string) : flow_inv env s (initial fs).
Proof. constructor; simpl; auto. Qed.

Lemma flow_step (l : label) (st st' : pipeline) :
  flow_inv env s st -> step env s l st = Some st' -> flow_inv env s st'.
Proof.
  intros [Hfs Hws Hsp Hgo Hcount] H.
  unfold step in H. destruct (crashed st) eqn:Hc; [discriminate|].
  destruct l; step_cases H.
  all: constructor; cbn; try assumption.
  all: use_foralls; use_dl_steps.
  all: rewrite ?fmap_f_sub_insert by assumption; try assumption.
  all: use_totals.
  all: unfold fetcher_ok, worker_ok, sent, owes, holding, handling, scheduledCount, processed in *;
       cbn in *; use_pcs.
  all: repeat match goal with
       | E : us_state _ = _ |- _ => rewrite E in *
       | H : _ /\ _ |- _ => destruct H
       | H : ex _ |- _ => destruct H
       | E : _ !! _ = None |- _ => apply lookup_ge_None in E
       | E : ?l !! _ = Some _ |- context [length ?l] => apply lookup_lt_Some in E
       | H : _ /\ _ |- _ => destruct H
       | H : ex _ |- _ => destruct H
       | H : feedLinks _ _ _ = Ok _ |- _ => rewrite H in *
       end.
  all: try solve [ lia | tauto | discriminate | intuition eauto | intuition lia ].
  - rewrite Hsp. now rewrite !take_ge by lia.
  - rewrite fmap_app, Hsp. cbn. symmetry. now apply take_S_r.
Qed.

Lemma flow_exec (schedule : list label) :
  forall st st',
    flow_inv env s st -> exec env s schedule st = Some st' -> flow_inv env s st'.
Proof.
  induction schedule as [|l rest IH]; intros st st' Hinv; simpl.
  - now intros [= <-].
  - destruct (step env s l st) as [st1|] eqn:E; [|discriminate].
    apply IH. eapply flow_step; eassumption.
Qed.

Lemma flow_reachable (fs : gset string) (st : pipeline) :
  reachable env s fs st -> flow_inv env s st.
Proof. intros [schedule H]. eapply flow_exec; [apply flow_initial | exact H]. Qed.

End FlowFacts.

(** ** The end of a run *)

Lemma owes_le_counted (w : worker) : owes w <= counted w.
Proof. destruct w as [d| | |]; cbn; try lia. unfold unreported. destruct (d_pc d); lia. Qed.

Lemma transferring_le_holds (w : worker) : transferring w <= holds w.
Proof. destruct w; cbn; lia. Qed.

Lemma total_fmap {A B : Type} (g : B -> nat) (h : A -> B) (l : list A) :
  total (fun x => g (h x)) l = total g (h <$> l).
Proof. induction l as [|x l IH]; unfold total in *; cbn; [reflexivity | now rewrite IH]. Qed.

Lemma total_zero_Forall {A : Type} (f : A -> nat) (l : list A) :
  total f l = 0 -> Forall (fun x => f x = 0) l.
Proof.
  induction l as [|x l IH]; unfold total in *; cbn; intros H; constructor.
  - lia.
  - apply IH. lia.
Qed.

Lemma live_zero (f : fetcher) : live f = 0 -> f_pc f = F_Done.
Proof. unfold live. destruct (f_pc f); congruence. Qed.

Lemma counted_zero (w : worker) : counted w = 0 -> w = W_Gone.
Proof. destruct w; cbn; congruence. Qed.

Lemma sent_all_done (env : Env) (s : Scraper) (l : list fetcher) :
  total live l = 0 ->
  total (sent env s) l = total (scheduledCount env s) (f_sub <$> l).
Proof.
  induction l as [|f l IH]; unfold total in *; cbn; [reflexivity|].
  intros H. rewrite IH by lia. f_equal.
  unfold sent. rewrite (live_zero f) by lia. reflexivity.
Qed.

Section Endings.
Variable env : Env.
Variable s : Scraper.

(** Once the message channel is closed, everything upstream is over. *)
Lemma pump_closed_all_over (st : pipeline) :
  sync_inv s st -> pumpClosed st = true ->
  disp st = D_Done /\ meta st = M_Done /\ queueClosed st = true /\
  total counted (workers st) = 0 /\ total live (fetchers st) = 0.
Proof.
  intros [Hmwg Hjoin Hq Hwg Hsem Hbound Hdrain Hpump Hafter Haggr Hcrash] Hclosed.
  rewrite Hclosed in Hpump.
  destruct (disp st); try discriminate.
  rewrite Hafter in Hq.
  destruct (meta st); try discriminate.
  repeat split; assumption.
Qed.

(** When [Start] has left its loop, the terminal messages it counted are
    as many as the images the feeds provided. *)
Lemma finished_processed (st : pipeline) :
  sync_inv s st -> flow_inv env s st -> aggr st = A_Done ->
  processed st = expectedTotal env s.
Proof.
  intros Hsync Hflow Hdone.
  destruct (pump_closed_all_over st Hsync (sync_aggr _ _ Hsync Hdone))
    as (Hdisp & Hmeta & _ & Hworkers & Hfetchers).
  pose proof (flow_count _ _ _ Hflow) as Hcount.
  pose proof (flow_spawned _ _ _ Hflow) as Hsp.
  rewrite Hdone, Hdisp in Hcount. rewrite Hmeta in Hsp. cbn in Hcount, Hsp.
  rewrite firstn_all in Hsp.
  pose proof (total_le owes counted (workers st) owes_le_counted).
  rewrite sent_all_done, Hsp in Hcount by assumption.
  unfold expectedTotal. lia.
Qed.

End Endings.

(** ** The progress bar's maximum, for a single feed *)

Lemma total_single {A : Type} (f : A -> nat) (l : list A) (i : nat) (x : A) :
  length l <= 1 -> l !! i = Some x -> total f l = f x.
Proof.
  destruct l as [|y [|z l]]; cbn; intros Hlen H; try lia.
  - discriminate.
  - destruct i; cbn in H; [|discriminate]. injection H as ->.
    unfold total. cbn. lia.
Qed.

Lemma sent_le_credited (env : Env) (s : Scraper) (f : fetcher) :
  fetcher_ok env s f -> sent env s f <= credited env s f.
Proof.
  unfold fetcher_ok, sent, credited. destruct (f_pc f); try lia.
  intros [_ (raw & Hraw & _)]. apply lookup_lt_Some in Hraw. lia.
Qed.

Lemma total_le_Forall {A : Type} (f g : A -> nat) (P : A -> Prop) (l : list A) :
  (forall x, P x -> f x <= g x) -> Forall P l -> total f l <= total g l.
Proof.
  intros Hle Hall. induction Hall as [|x l Hx _ IH]; unfold total in *; cbn; [lia|].
  specialize (Hle x Hx). lia.
Qed.

Section SingleFeed.
Variable env : Env.
Variable s : Scraper.
Hypothesis one_feed : length (Subreddits (scrapingOptions s)) <= 1.

Lemma single_fetcher (st : pipeline) :
  flow_inv env s st -> length (fetchers st) <= 1.
Proof.
  intros Hflow. pose proof (flow_spawned _ _ _ Hflow) as Hsp.
  apply (f_equal length) in Hsp. rewrite length_fmap, length_take in Hsp. lia.
Qed.

Lemma single_initial (fs : gset string) : single_inv env s (initial fs).
Proof. constructor; cbn; auto. Qed.

Lemma single_step (l : label) (st st' : pipeline) :
  flow_inv env s st -> single_inv env s st ->
  step env s l st = Some st' -> single_inv env s st'.
Proof.
  intros Hflow [Hmax Hread] H.
  pose proof (single_fetcher st Hflow) as Hlen.
  destruct Hflow as [Hfs _ _ _ _].
  unfold step in H. destruct (crashed st) eqn:Hc; [discriminate|].
  destruct l; step_cases H.
  all: constructor; cbn; try assumption.
  all: use_foralls.
  all: try match goal with
       | E : fetchers _ !! _ = Some _ |- _ =>
           pose proof (total_single (credited env s) _ _ _ Hlen E)
       end.
  all: use_totals.
  all: unfold fetcher_ok, read_one, credited, scheduledCount in *; cbn in *; use_pcs.
  all: repeat match goal with
       | H : _ /\ _ |- _ => destruct H
       | H : feedLinks _ _ _ = Ok _ |- _ => rewrite H in *
       end.
  all: try solve [ lia | tauto ].
Qed.

Lemma single_exec (schedule : list label) :
  forall st st',
    flow_inv env s st -> single_inv env s st ->
    exec env s schedule st = Some st' -> single_inv env s st'.
Proof.
  induction schedule as [|l rest IH]; intros st st' Hflow Hinv; simpl.
  - now intros [= <-].
  - destruct (step env s l st) as [st1|] eqn:E; [|discriminate].
    apply IH.
    + eapply flow_step; eassumption.
    + eapply single_step; eassumption.
Qed.

Lemma single_reachable (fs : gset string) (st : pipeline) :
  reachable env s fs st -> single_inv env s st.
Proof.
  intros [schedule H].
  eapply single_exec; [apply flow_initial | apply single_initial | exact H].
Qed.

End SingleFeed.

(** With a single feed the maximum of the progress bar never goes down. *)
Lemma progressMax_grows (env : Env) (s : Scraper) (fs : gset string)
    (l : label) (st st' : pipeline) :
  length (Subreddits (scrapingOptions s)) <= 1 ->
  reachable env s fs st ->
  step env s l st = Some st' ->
  progressMax st <= progressMax st'.
Proof.
  intros Hone Hreach H.
  pose proof (flow_reachable env s fs st Hreach) as Hflow.
  pose proof (single_reachable env s Hone fs st Hreach) as [Hmax Hread].
  pose proof (single_fetcher env s Hone st Hflow) as Hlen.
  unfold step in H. destruct (crashed st) eqn:Hc; [discriminate|].
  destruct l; step_cases H; cbn; try lia.
  use_foralls.
  pose proof (total_single (credited env s) _ _ _ Hlen E) as Hsum.
  unfold read_one, credited in *. use_pcs. lia.
Qed.

(** ** Runs over a populated output directory *)

Lemma populated_lookup (env : Env) (s : Scraper) (fs : gset string)
    (sub : string) (links : list Image) (k : nat) (raw : Image) :
  populated env s fs = true ->
  sub ∈ Subreddits (scrapingOptions s) ->
  feedLinks env s sub = Ok links ->
  links !! k = Some raw ->
  expectedPath s (set_subreddit sub raw) ∈ fs.
Proof.
  unfold populated. intros Hpop Hsub Hfeed Hraw.
  rewrite forallb_forall in Hpop.
  apply list_elem_of_In in Hsub. specialize (Hpop sub Hsub).
  rewrite Hfeed, forallb_forall in Hpop.
  apply list_elem_of_lookup_2, list_elem_of_In in Hraw.
  specialize (Hpop raw Hraw). now apply bool_decide_eq_true in Hpop.
Qed.

(** A skipping worker stays one, leaves the files alone, and sends only
    Pending and Skipped. *)
Lemma dl_step_skipping (env : Env) (s : Scraper) (fs files files' : gset string)
    (d d' : download) (ev : event) :
  fs ⊆ files ->
  skipping s fs (W_Run d) ->
  dl_step env s files d = Stepped ev d' files' ->
  files' = files /\ skipping s fs (W_Run d') /\
  match ev with
  | EvSend u => us_state u = DOWNLOADING \/ us_state u = SKIPPED
  | EvGet _ => False
  | _ => True
  end.
Proof.
  unfold skipping, dl_step. intros Hsub [Hdefers Hpc] H.
  destruct (d_pc d) eqn:E; try contradiction.
  - injection H as <- <- <-. cbn. repeat split; auto.
  - injection H as <- <- <-. cbn.
    rewrite bool_decide_true by set_solver. repeat split; auto.
  - injection H as <- <- <-. cbn. repeat split; auto.
  - rewrite Hdefers in H. injection H as <- <- <-. cbn. repeat split; auto.
  - discriminate.
Qed.

Lemma dl_step_skipping_fatal (env : Env) (s : Scraper) (fs files : gset string)
    (d : download) (p : panic) :
  skipping s fs (W_Run d) -> dl_step env s files d <> Fatal p.
Proof.
  unfold skipping, dl_step. intros [Hdefers Hpc].
  destruct (d_pc d); try contradiction; try discriminate.
  now rewrite Hdefers.
Qed.

Lemma MkdirAll_grows (dir : string) (files : gset string) : files ⊆ MkdirAll dir files.
Proof. unfold MkdirAll. set_solver. Qed.

Ltac use_skipping :=
  repeat match goal with
  | Hsub : ?fs ⊆ files ?st, Hw : skipping _ ?fs (W_Run ?d),
    E : dl_step _ _ (files ?st) ?d = Stepped _ _ _ |- _ =>
      destruct (dl_step_skipping _ _ _ _ _ _ _ _ Hsub Hw E) as (? & ? & ?);
      subst; clear E
  end.

Section Populated.
Variable env : Env.
Variable s : Scraper.
Variable fs : gset string.
Hypothesis all_there : populated env s fs = true.

Lemma skip_initial : skip_inv s fs (initial fs).
Proof. constructor; cbn; auto. Qed.

Lemma fetcher_sub_known (st : pipeline) (i : nat) (f : fetcher) :
  flow_inv env s st -> fetchers st !! i = Some f ->
  f_sub f ∈ Subreddits (scrapingOptions s).
Proof.
  intros Hflow Hf. pose proof (flow_spawned _ _ _ Hflow) as Hsp.
  assert (H : (f_sub <$> fetchers st) !! i = Some (f_sub f))
    by now rewrite list_lookup_fmap, Hf.
  rewrite Hsp in H. apply lookup_take_Some in H as [H _].
  eapply list_elem_of_lookup_2, H.
Qed.

Lemma skip_step (l : label) (st st' : pipeline) :
  flow_inv env s st -> skip_inv s fs st ->
  step env s l st = Some st' -> skip_inv s fs st'.
Proof.
  intros Hflow [Hfiles Hdl Hfail Haggr Hws Hdisp Hfs] H.
  pose proof (fetcher_sub_known st) as Hknown. specialize (fun i f => Hknown i f Hflow).
  destruct Hflow as [Hok _ _ _ _].
  unfold step in H. destruct (crashed st) eqn:Hc; [discriminate|].
  destruct l; step_cases H.
  all: constructor; cbn; try assumption.
  all: use_foralls; use_skipping.
  all: try assumption.
  all: unfold sends_expected, skipping, fetcher_ok, expectedPath in *; cbn in *; use_pcs.
  all: repeat match goal with
       | E : us_state _ = _ |- _ => rewrite E in *
       | H : _ /\ _ |- _ => destruct H
       | H : ex _ |- _ => destruct H
       end; subst.
  all: try solve [ tauto | intuition congruence
                 | etransitivity; [eassumption | apply MkdirAll_grows] ].
  eapply (populated_lookup env s fs); eauto.
Qed.

Lemma skip_exec (schedule : list label) :
  forall st st',
    flow_inv env s st -> skip_inv s fs st ->
    exec env s schedule st = Some st' -> skip_inv s fs st'.
Proof.
  induction schedule as [|l rest IH]; intros st st' Hflow Hinv; simpl.
  - now intros [= <-].
  - destruct (step env s l st) as [st1|] eqn:E; [|discriminate].
    apply IH.
    + eapply flow_step; eassumption.
    + eapply skip_step; eassumption.
Qed.

Lemma skip_reachable (st : pipeline) :
  reachable env s fs st -> skip_inv s fs st.
Proof.
  intros [schedule H].
  eapply skip_exec; [apply flow_initial | apply skip_initial | exact H].
Qed.

End Populated.

(** ** The pipeline: id sets and abnormal ends *)

Lemma marked_grow (ids ids' : gmap string (gmap string bool)) (f : fetcher) :
  ids_grow ids ids' -> marked ids f -> marked ids' f.
Proof.
  unfold marked. intros Hgrow.
  destruct (f_pc f); try tauto;
    try (intros [seen Hseen]; destruct (Hgrow _ _ Hseen) as (seen' & H' & _); eauto).
  intros (seen & Hseen & Hid). destruct (Hgrow _ _ Hseen) as (seen' & H' & Hkeep).
  eauto.
Qed.

Lemma ids_grow_create (ids : gmap string (gmap string bool)) (sub : string) :
  ids !! sub = None -> ids_grow ids (<[sub := ∅]> ids).
Proof.
  intros Hnone sub' seen Hseen. exists seen. split; [|auto].
  rewrite lookup_insert_ne; [assumption | congruence].
Qed.

Lemma ids_grow_mark (ids : gmap string (gmap string bool)) (sub id : string)
    (seen : gmap string bool) :
  ids !! sub = Some seen ->
  ids_grow ids (<[sub := <[id := true]> seen]> ids).
Proof.
  intros Hsub sub' seen' Hseen'.
  destruct (decide (sub = sub')) as [<-|Hne].
  - rewrite Hsub in Hseen'. injection Hseen' as <-.
    exists (<[id := true]> seen). rewrite lookup_insert_eq. split; [reflexivity|].
    intros id' Hid'. destruct (decide (id = id')) as [<-|Hne'].
    + apply lookup_insert_eq.
    + now rewrite lookup_insert_ne.
  - exists seen'. rewrite lookup_insert_ne by assumption. auto.
Qed.

Section IdSets.
Variable env : Env.
Variable s : Scraper.

Lemma ids_initial (fs : gset string) : ids_inv (initial fs).
Proof. constructor; cbn; auto; discriminate. Qed.

Lemma ids_step (l : label) (st st' : pipeline) :
  ids_inv st -> step env s l st = Some st' -> ids_inv st'.
Proof.
  intros [Hmarked Hcrash] H.
  unfold step in H. destruct (crashed st) eqn:Hc; [discriminate|].
  destruct l; step_cases H.
  all: constructor; cbn; rewrite ?Hc; try assumption; try discriminate.
  all: use_foralls; known_panics; try discriminate.
  all: try match goal with
       | |- Forall (marked _) (<[_ := _]> _) =>
           apply Forall_insert;
           [ eapply Forall_impl; [eassumption|];
             intros ? ?; eapply marked_grow; [|eassumption];
             first [ apply ids_grow_create; assumption
                   | apply ids_grow_mark; assumption ]
           | ]
       end.
  all: unfold marked in *; cbn in *; use_pcs.
  all: repeat match goal with
       | H : ex _ |- _ => destruct H
       | H : _ /\ _ |- _ => destruct H
       | H : is_Some _ |- _ => destruct H
       end.
  all: rewrite ?lookup_insert_eq.
  all: try solve [ eauto | congruence ].
  eexists. split; [reflexivity | apply lookup_insert_eq].
Qed.

Lemma ids_exec (schedule : list label) :
  forall st st', ids_inv st -> exec env s schedule st = Some st' -> ids_inv st'.
Proof.
  induction schedule as [|l rest IH]; intros st st' Hinv; simpl.
  - now intros [= <-].
  - destruct (step env s l st) as [st1|] eqn:E; [|discriminate].
    apply IH. eapply ids_step; eassumption.
Qed.

Lemma ids_reachable (fs : gset string) (st : pipeline) :
  reachable env s fs st -> ids_inv st.
Proof. intros [schedule H]. eapply ids_exec; [apply ids_initial | exact H]. Qed.

(** The only ways in which a run ends abnormally: a nil dereference while
    parsing a feed or building its request, the [log.Panic] of a failed
    feed request, the [log.Fatal] of a failed [Close], and the fatal error
    of the runtime on an unsynchronised map access. *)
Lemma crash_kinds (fs : gset string) (st : pipeline) (p : panic) :
  reachable env s fs st -> crashed st = Some p ->
  p = NilDereference \/ p = LogPanic \/ p = LogFatal \/ p = ConcurrentMapAccess.
Proof.
  intros Hreach Hp.
  destruct (sync_crash _ _ (sync_reachable env s fs st Hreach)) as (H1 & H2 & H3).
  pose proof (ids_crash _ (ids_reachable fs st Hreach)) as H4.
  destruct p; auto; congruence.
Qed.

(** Before a fetcher sends an image, the image id is in the id set of its
    feed. *)
Lemma id_inserted_before_enqueue (fs : gset string) (st : pipeline)
    (i : nat) (f : fetcher) (links : list Image) (k : nat) (image : Image) :
  reachable env s fs st ->
  fetchers st !! i = Some f -> f_pc f = F_Send links k image ->
  exists seen,
    uniqueImageIds st !! f_sub f = Some seen /\ seen !! imageId image = Some true.
Proof.
  intros Hreach Hf Hpc.
  pose proof (Forall_lookup_1 _ _ _ _ (ids_marked _ (ids_reachable fs st Hreach)) Hf)
    as H.
  unfold marked in H. now rewrite Hpc in H.
Qed.

End IdSets.

(** ** The pipeline: what every run guarantees *)

Section Runs.
Variable env : Env.
Variable s : Scraper.

(** C3: the shutdown is staged.  The download queue is closed only when
    every feed has had its fetcher and every fetcher has returned; the
    message channel is closed only when the queue is closed, the dispatcher
    is past its wait, and every worker goroutine has finished; the loop of
    [Start] ends only when the message channel is closed.  No run reaches a
    send on a closed channel. *)
Theorem staged_shutdown (fs : gset string) (st : pipeline) :
  reachable env s fs st ->
  (queueClosed st = true ->
     meta st = M_Done /\
     length (fetchers st) = length (Subreddits (scrapingOptions s)) /\
     Forall (fun f => f_pc f = F_Done) (fetchers st)) /\
  (pumpClosed st = true ->
     queueClosed st = true /\ disp st = D_Done /\
     Forall (fun w => w = W_Gone) (workers st)) /\
  (aggr st = A_Done -> pumpClosed st = true) /\
  crashed st <> Some SendOnClosedChannel.
Proof.
  intros Hreach.
  pose proof (sync_reachable env s fs st Hreach) as Hsync.
  pose proof (flow_reachable env s fs st Hreach) as Hflow.
  split; [|split; [|split]].
  - intros Hclosed.
    destruct Hsync as [_ Hjoin Hq _ _ _ _ _ _ _ _].
    pose proof (flow_spawned _ _ _ Hflow) as Hsp.
    rewrite Hclosed in Hq. destruct (meta st); try discriminate.
    split; [reflexivity|]. split.
    + apply (f_equal length) in Hsp. cbn in Hsp.
      now rewrite length_fmap, firstn_all in Hsp.
    + eapply Forall_impl; [apply total_zero_Forall, Hjoin|].
      intros f. apply live_zero.
  - intros Hclosed.
    destruct (pump_closed_all_over s st Hsync Hclosed)
      as (Hdisp & _ & Hqueue & Hworkers & _).
    repeat split; try assumption.
    eapply Forall_impl; [apply total_zero_Forall, Hworkers|].
    intros w. apply counted_zero.
  - apply (sync_aggr _ _ Hsync).
  - apply (sync_crash _ _ Hsync).
Qed.

(** C6: with a bound of at least one, the worker goroutines that are inside
    [downloadImage] are never more than the bound, over all feeds together.
    Every unit of the semaphore that is held belongs to a worker goroutine
    that has not released yet, or to the one the dispatcher acquired it for
    and is about to start.  A worker whose [downloadImage] has returned,
    with whatever outcome, releases next, and the release gives one unit
    back; [downloadImage] always comes to an end, by returning or, when a
    deferred [Close] fails, by ending the process. *)
Theorem concurrency_bound (fs : gset string) (st : pipeline) :
  (1 <= MaxConcurrentDownloads (scrapingOptions s))%Z ->
  reachable env s fs st ->
  (Z.of_nat (total transferring (workers st))
     <= MaxConcurrentDownloads (scrapingOptions s))%Z /\
  sem st = total holds (workers st) + granted (disp st) /\
  (forall j d,
      crashed st = None ->
      workers st !! j = Some (W_Run d) -> d_pc d = Returned ->
      step env s (RunWorker j) st = Some (set_worker j W_Release st)) /\
  (forall j,
      crashed st = None ->
      workers st !! j = Some W_Release ->
      exists n,
        sem st = S n /\
        step env s (RunWorker j) st = Some (set_worker j W_WgDone (set_sem n st))) /\
  (forall files outDir img,
      let r := downloadImage env s files outDir img in
      snd r = Some (Ok tt) \/ snd r = Some (Panic LogFatal)).
Proof.
  intros Hbound Hreach.
  pose proof (sync_reachable env s fs st Hreach) as Hsync.
  destruct Hsync as [_ _ _ _ Hsem Hle _ _ _ _ _].
  split; [|split; [|split; [|split]]].
  - pose proof (total_le transferring holds (workers st) transferring_le_holds).
    lia.
  - exact Hsem.
  - intros j d Hc Hj Hpc. unfold step, step_worker, dl_step.
    now rewrite Hc, Hj, Hpc.
  - intros j Hc Hj.
    pose proof (total_lookup_le holds _ _ _ Hj) as Hheld. cbn in Hheld.
    destruct (sem st) as [|n] eqn:E; [lia|].
    exists n. split; [reflexivity|].
    unfold step, step_worker. now rewrite Hc, Hj, E.
  - intros files outDir img. apply (downloadImage_targets env s files outDir img).
Qed.

(** C5: in a run over a single feed the maximum of the progress bar, which
    the summary reports as the number of images processed, is always above
    the number of terminal messages counted, and when [Start] leaves its
    loop it is that number plus one: the bar was created with a maximum of
    1 and the fetcher adds the number of its images to it. *)
Theorem summary_total_off_by_one (fs : gset string) (st : pipeline) :
  length (Subreddits (scrapingOptions s)) <= 1 ->
  reachable env s fs st ->
  processed st + 1 <= progressMax st /\
  (aggr st = A_Done ->
     processed st = expectedTotal env s /\
     progressMax st = processed st + 1).
Proof.
  intros Hone Hreach.
  pose proof (sync_reachable env s fs st Hreach) as Hsync.
  pose proof (flow_reachable env s fs st Hreach) as Hflow.
  pose proof (single_reachable env s Hone fs st Hreach) as [Hmax _].
  pose proof (flow_count _ _ _ Hflow) as Hcount.
  pose proof (total_le_Forall (sent env s) (credited env s) _ (fetchers st)
                (sent_le_credited env s) (flow_fetchers _ _ _ Hflow)) as Hle.
  split; [lia|].
  intros Hdone.
  pose proof (finished_processed env s st Hsync Hflow Hdone) as Hall.
  split; [assumption|].
  destruct (pump_closed_all_over s st Hsync (sync_aggr _ _ Hsync Hdone))
    as (Hdisp & _ & _ & Hworkers & Hfetchers).
  pose proof (total_le owes counted (workers st) owes_le_counted).
  rewrite Hdone, Hdisp in Hcount. cbn in Hcount.
  assert (Hsame : total (credited env s) (fetchers st) = total (sent env s) (fetchers st)).
  { clear -Hfetchers. induction (fetchers st) as [|f l IH]; [reflexivity|].
    unfold total in *. cbn in *.
    rewrite IH by lia. f_equal.
    unfold credited, sent. rewrite (live_zero f) by lia. reflexivity. }
  lia.
Qed.

(** C8: a worker that finds its file sends Pending and Skipped, makes no
    request and changes no file.  So in a run that starts with the file of
    every image of every feed in place, nothing is ever counted as
    downloaded or failed, and when [Start] leaves its loop the skipped
    count is the number of images the feeds provided. *)
Theorem populated_run_skips_everything (fs : gset string) (st : pipeline) :
  populated env s fs = true ->
  reachable env s fs st ->
  (forall outDir img,
      imagePath s outDir img ∈ files st ->
      let r := downloadImage env s (files st) outDir img in
      us_state <$> messages (eventsOf r) = [DOWNLOADING; SKIPPED] /\
      requests (eventsOf r) = [] /\
      snd (fst r) = files st) /\
  downloaded st = 0 /\ failed st = 0 /\
  (aggr st = A_Done -> skipped st = expectedTotal env s).
Proof.
  intros Hpop Hreach.
  pose proof (skip_reachable env s fs Hpop st Hreach) as Hskip.
  split; [|split; [|split]].
  - intros outDir img Hin. cbv zeta.
    rewrite (downloadImage_existing env s _ _ _ Hin). repeat split.
  - apply (skip_downloaded _ _ _ Hskip).
  - apply (skip_failed _ _ _ Hskip).
  - intros Hdone.
    pose proof (finished_processed env s st
                  (sync_reachable env s fs st Hreach)
                  (flow_reachable env s fs st Hreach) Hdone) as Hall.
    unfold processed in Hall.
    rewrite (skip_downloaded _ _ _ Hskip), (skip_failed _ _ _ Hskip) in Hall.
    lia.
Qed.

(** C2: what a failed fetch of a feed leads to, for a feed name that is not
    blank and a URL [http.NewRequest] accepts.  When a response arrives, the
    feed yields the links of whatever the decoder returns, and the decoder's
    error is dropped (line 184); so when the body cannot be read or decoded
    and the decoder returns the zero [Listings], the feed yields no links,
    schedules nothing, and its fetcher goes on to its directory: no other
    goroutine is touched.  When [client.Do] itself returns an error, line
    334 calls [log.Panic]: [gatherRedditFeed] does not return, the feed
    yields no listing, and the step of its fetcher ends the process with
    that panic. *)
Theorem feed_fetch_failure (sub : string) :
  let url := determineRedditUrl s sub in
  let fetching := {| f_sub := sub; f_pc := F_Gather |} in
  String.eqb (TrimSpace sub) EmptyString = false ->
  newRequestOk env url = true ->
  (clientDo env url = None ->
     gatherRedditFeed env s sub = Panic LogPanic /\
     feedLinks env s sub = Panic LogPanic /\
     forall st i,
       crashed st = None -> fetchers st !! i = Some fetching ->
       exists st', step env s (RunFetcher i) st = Some st' /\
                   crashed st' = Some LogPanic) /\
  (forall body,
     clientDo env url = Some body -> feedCloseOk env url = true ->
     gatherRedditFeed env s sub = Ok (UnmarshalListing env body) /\
     feedLinks env s sub = parseLinksFromListings (fst (UnmarshalListing env body)) /\
     (fst (UnmarshalListing env body) = emptyListings ->
        feedLinks env s sub = Ok [] /\
        scheduledCount env s sub = 0 /\
        forall st i,
          crashed st = None -> fetchers st !! i = Some fetching ->
          step env s (RunFetcher i) st = Some (set_fetcher i sub (F_Mkdir []) st))).
Proof.
  cbv zeta. intros Hsub Hreq. split.
  - intros Hdo.
    assert (Hgather : gatherRedditFeed env s sub = Panic LogPanic).
    { unfold gatherRedditFeed. now rewrite Hsub, Hreq, Hdo. }
    assert (Hfeed : feedLinks env s sub = Panic LogPanic).
    { unfold feedLinks. now rewrite Hgather. }
    split; [assumption|]. split; [assumption|].
    intros st i Hc Hi. exists (crash LogPanic st). split; [|reflexivity].
    unfold step, step_fetcher. rewrite Hc, Hi. cbn. now rewrite Hfeed.
  - intros body Hdo Hclose.
    assert (Hgather : gatherRedditFeed env s sub = Ok (UnmarshalListing env body)).
    { unfold gatherRedditFeed. now rewrite Hsub, Hreq, Hdo, Hclose. }
    assert (Hfeed : feedLinks env s sub =
                    parseLinksFromListings (fst (UnmarshalListing env body))).
    { unfold feedLinks. now rewrite Hgather. }
    split; [assumption|]. split; [assumption|].
    intros Hzero. rewrite Hzero in Hfeed. change (feedLinks env s sub = Ok []) in Hfeed.
    split; [assumption|]. split.
    + unfold scheduledCount. now rewrite Hfeed.
    + intros st i Hc Hi.
      unfold step, step_fetcher. rewrite Hc, Hi. cbn. now rewrite Hfeed.
Qed.

End Runs.

(** ** Sample runs *)

Lemma staged_shutdown_witness :
  let env := friendlyEnv twoEntries in
  let st := run env twoFeeds 400 ∅ in
  reachable env twoFeeds ∅ st /\
  pumpClosed st = true /\
  length (workers st) = 4 /\
  Forall (fun w => w = W_Gone) (workers st) /\
  crashed st <> Some SendOnClosedChannel.
Proof.
  intros env st.
  assert (Hreach : reachable env twoFeeds ∅ st).
  { exists (schedule_from env twoFeeds 400 (initial ∅)). vm_compute. reflexivity. }
  destruct (staged_shutdown env twoFeeds ∅ st Hreach) as (_ & Hpump & _ & Hcrash).
  assert (Hclosed : pumpClosed st = true) by (vm_compute; reflexivity).
  split; [exact Hreach|]. split; [exact Hclosed|].
  split; [vm_compute; reflexivity|].
  split; [apply (Hpump Hclosed) | exact Hcrash].
Defined.

Lemma concurrency_bound_witness :
  let env := friendlyEnv twoEntries in
  let st := run env twoFeeds 40 ∅ in
  (1 <= MaxConcurrentDownloads (scrapingOptions twoFeeds))%Z /\
  reachable env twoFeeds ∅ st /\
  total transferring (workers st) = 1 /\
  (Z.of_nat (total transferring (workers st)) <= 2)%Z.
Proof.
  intros env st.
  assert (Hbound : (1 <= MaxConcurrentDownloads (scrapingOptions twoFeeds))%Z)
    by (vm_compute; discriminate).
  assert (Hreach : reachable env twoFeeds ∅ st).
  { exists (schedule_from env twoFeeds 40 (initial ∅)). vm_compute. reflexivity. }
  split; [exact Hbound|]. split; [exact Hreach|].
  split; [vm_compute; reflexivity|].
  apply (concurrency_bound env twoFeeds ∅ st Hbound Hreach).
Defined.

(** With a bound of two, two downloads in flight and a third image received:
    the dispatcher waits in [sem.Acquire] until a worker releases, and a
    release lets it go on. *)
Example third_download_waits :
  let env := friendlyEnv twoEntries in
  let two_running :=
    [RunMeta; RunMeta; RunMeta; RunMeta] ++
    repeat (RunFetcher 0) 7 ++ repeat RunDispatcher 3 ++
    repeat (RunFetcher 0) 2 ++ repeat RunDispatcher 3 ++
    repeat (RunFetcher 1) 7 ++ [RunDispatcher] in
  match exec env twoFeeds two_running (initial ∅) with
  | Some st =>
      total transferring (workers st) = 2 /\ sem st = 2 /\
      (exists img, disp st = D_Acquire img) /\
      step env twoFeeds RunDispatcher st = None /\
      match exec env twoFeeds (repeat (RunWorker 0) 2 ++ [RunAggregator]
                               ++ repeat (RunWorker 0) 4 ++ [RunAggregator]
                               ++ repeat (RunWorker 0) 5) st with
      | Some st' => sem st' = 1 /\ is_Some (step env twoFeeds RunDispatcher st')
      | None => False
      end
  | None => False
  end.
Proof. vm_compute. repeat split; eauto. Qed.

Lemma summary_total_off_by_one_witness :
  let env := friendlyEnv oneEntry in
  let st := run env oneFeed 200 ∅ in
  length (Subreddits (scrapingOptions oneFeed)) <= 1 /\
  reachable env oneFeed ∅ st /\
  aggr st = A_Done /\
  processed st = 1 /\
  progressMax st = processed st + 1.
Proof.
  intros env st.
  assert (Hone : length (Subreddits (scrapingOptions oneFeed)) <= 1)
    by (vm_compute; lia).
  assert (Hreach : reachable env oneFeed ∅ st).
  { exists (schedule_from env oneFeed 200 (initial ∅)). vm_compute. reflexivity. }
  assert (Hdone : aggr st = A_Done) by (vm_compute; reflexivity).
  split; [exact Hone|]. split; [exact Hreach|]. split; [exact Hdone|].
  split; [vm_compute; reflexivity|].
  apply (summary_total_off_by_one env oneFeed ∅ st Hone Hreach). exact Hdone.
Defined.

(** With two feeds the read and the write of the maximum interleave: both
    fetchers read 1 before either writes, both write 3, and the run ends
    with four images processed under a maximum of 3. *)
Lemma progress_maximum_race :
  let env := friendlyEnv twoEntries in
  let both_read :=
    [RunMeta; RunMeta; RunMeta; RunMeta;
     RunFetcher 0; RunFetcher 0; RunFetcher 0; RunFetcher 0;
     RunFetcher 1; RunFetcher 1; RunFetcher 1; RunFetcher 1] in
  match exec env twoFeeds both_read (initial ∅) with
  | Some mid =>
      match exec env twoFeeds (schedule_from env twoFeeds 400 mid) mid with
      | Some st =>
          aggr st = A_Done /\ crashed st = None /\
          processed st = 4 /\ progressMax st = 3
      | None => False
      end
  | None => False
  end.
Proof. vm_compute. repeat split; reflexivity. Qed.

Lemma populated_run_skips_everything_witness :
  let env := friendlyEnv twoEntries in
  let st := run env oneFeed 200 populatedDir in
  populated env oneFeed populatedDir = true /\
  reachable env oneFeed populatedDir st /\
  aggr st = A_Done /\
  downloaded st = 0 /\ failed st = 0 /\ skipped st = 2.
Proof.
  intros env st.
  assert (Hpop : populated env oneFeed populatedDir = true) by (vm_compute; reflexivity).
  assert (Hreach : reachable env oneFeed populatedDir st).
  { exists (schedule_from env oneFeed 200 (initial populatedDir)).
    vm_compute. reflexivity. }
  assert (Hdone : aggr st = A_Done) by (vm_compute; reflexivity).
  destruct (populated_run_skips_everything env oneFeed populatedDir st Hpop Hreach)
    as (_ & Hdl & Hfail & Hskip).
  split; [exact Hpop|]. split; [exact Hreach|]. split; [exact Hdone|].
  split; [exact Hdl|]. split; [exact Hfail|].
  rewrite (Hskip Hdone). vm_compute. reflexivity.
Defined.

Lemma feed_fetch_failure_witness :
  String.eqb (TrimSpace "pics") EmptyString = false /\
  newRequestOk offlineEnv (determineRedditUrl twoFeeds "pics") = true /\
  clientDo offlineEnv (determineRedditUrl twoFeeds "pics") = None /\
  gatherRedditFeed offlineEnv twoFeeds "pics" = Panic LogPanic /\
  feedLinks offlineEnv twoFeeds "pics" = Panic LogPanic.
Proof.
  split; [reflexivity|]. split; [reflexivity|]. split; [reflexivity|].
  destruct (feed_fetch_failure offlineEnv twoFeeds "pics" eq_refl eq_refl)
    as [Hpanic _].
  destruct (Hpanic eq_refl) as (Hgather & Hfeed & _).
  split; [exact Hgather | exact Hfeed].
Defined.

(** The feed "pics" cannot be reached: its fetcher panics and the process is
    over while [Start] is still in its loop and the fetcher of the sibling
    feed "cats", which had been started, has not taken a step. *)
Example feed_network_error_not_isolated :
  feedLinks offlineEnv twoFeeds "pics" <> Ok [] /\
  match exec offlineEnv twoFeeds
          [RunMeta; RunMeta; RunMeta; RunMeta; RunFetcher 0; RunFetcher 0]
          (initial ∅) with
  | Some st =>
      crashed st = Some LogPanic /\
      aggr st = A_Recv /\
      fetchers st !! 1 = Some {| f_sub := "cats"; f_pc := F_Lock |}
  | None => False
  end.
Proof.
  split; [discriminate|].
  vm_compute. repeat split; reflexivity.
Qed.

(** The sibling path: the feed "pics" answers with a body that does not
    decode.  That feed yields nothing, the feed "cats" has both its images
    downloaded, and the run ends in the ordinary way. *)
Example undecodable_feed_is_isolated :
  let st := run garbledEnv twoFeeds 400 ∅ in
  feedLinks garbledEnv twoFeeds "pics" = Ok [] /\
  crashed st = None /\
  aggr st = A_Done /\
  length (workers st) = 2 /\
  downloaded st = 2 /\
  "/out/cats/a.jpg" ∈ files st /\
  "/out/cats/b.mp4" ∈ files st.
Proof.
  cbv zeta. split; [reflexivity|].
  repeat split; try (vm_compute; reflexivity); apply bool_decide_eq_true;
    vm_compute; reflexivity.
Qed.

(** ** More on parsing *)

Section ParseFacts.

#[local] Arguments String.append !_ _ / : simpl nomatch.

Lemma filterChildren_filter (children filtered : list Child) :
  filterChildren children = Ok filtered ->
  filtered = List.filter kept children /\
  Forall (fun v => exists b, keepsChild v = Ok b) children.
Proof.
  revert filtered. induction children as [|v rest IH]; intros filtered; simpl.
  - intros [= <-]. split; [reflexivity | constructor].
  - unfold kept at 1. destruct (keepsChild v) as [b|] eqn:E; simpl; [|discriminate].
    destruct (filterChildren rest) as [tl|]; simpl; [|discriminate].
    intros [= <-]. destruct (IH tl eq_refl) as [-> Hall].
    split; [now destruct b | constructor; eauto].
Qed.

Lemma fillImages_slots (filteredList : list Child) :
  forall (pre images : list Image),
    fillImages (length pre) filteredList
      (pre ++ replicate (length filteredList) zeroImage) = Ok images ->
    exists imgs, images = pre ++ imgs /\ Forall2 slot_of filteredList imgs.
Proof.
  induction filteredList as [|v rest IH]; intros pre images; simpl.
  - intros [= <-]. exists []. split; [reflexivity | constructor].
  - destruct (redditChildToImage v) as [image|] eqn:E; simpl; [|discriminate].
    destruct (String.eqb (TrimSpace (imageId image)) EmptyString) eqn:Hblank; intros H.
    + replace (pre ++ zeroImage :: replicate (length rest) zeroImage)
        with ((pre ++ [zeroImage]) ++ replicate (length rest) zeroImage) in H
        by now rewrite <- app_assoc.
      replace (S (length pre)) with (length (pre ++ [zeroImage])) in H
        by (rewrite length_app; simpl; lia).
      destruct (IH _ _ H) as (imgs & -> & Hall).
      exists (zeroImage :: imgs). rewrite <- app_assoc. split; [reflexivity|].
      constructor; [|assumption]. exists image. unfold blankId. now rewrite Hblank.
    + rewrite insert_app_r_alt in H by lia.
      rewrite Nat.sub_diag in H. simpl in H.
      replace (pre ++ image :: replicate (length rest) zeroImage)
        with ((pre ++ [image]) ++ replicate (length rest) zeroImage) in H
        by now rewrite <- app_assoc.
      replace (S (length pre)) with (length (pre ++ [image])) in H
        by (rewrite length_app; simpl; lia).
      destruct (IH _ _ H) as (imgs & -> & Hall).
      exists (image :: imgs). rewrite <- app_assoc. split; [reflexivity|].
      constructor; [|assumption]. exists image. unfold blankId. now rewrite Hblank.
Qed.

Lemma parse_filtered_slots (data : ListingData) (images : list Image) :
  parseLinksFromListings {| Data := Some data |} = Ok images ->
  Forall2 slot_of (List.filter kept (Children data)) images /\
  Forall (fun v => exists b, keepsChild v = Ok b) (Children data).
Proof.
  unfold parseLinksFromListings. cbn [Data].
  destruct (Children data) as [|c cs] eqn:Hc.
  - intros [= <-]. split; constructor.
  - cbn [length Nat.eqb].
    destruct (filterChildren (c :: cs)) as [filteredList|] eqn:E;
      cbn [bind]; [|discriminate].
    intros H. destruct (filterChildren_filter _ _ E) as [Hf Hall].
    destruct (fillImages_slots filteredList [] images H) as (imgs & -> & Hslots).
    rewrite <- Hf. split; assumption.
Qed.

(** X1: the parser returns one slot per entry that passes the filter, in
    listing order; the slot holds the image made from the entry, or the zero
    image when the image id is blank.  Entries that fail the filter leave no
    slot, and the filter test has run on every entry without a panic. *)
Theorem parse_slots (data : ListingData) (images : list Image) :
  parseLinksFromListings {| Data := Some data |} = Ok images ->
  Forall2 slot_of (List.filter kept (Children data)) images /\
  Forall (fun v => exists b, keepsChild v = Ok b) (Children data).
Proof. apply parse_filtered_slots. Qed.

Lemma parse_slots_witness :
  parseLinksFromListings {| Data := Some mixedListing |} = Ok [imageOf "a" ".jpg"] /\
  Forall2 slot_of (List.filter kept (Children mixedListing)) [imageOf "a" ".jpg"].
Proof.
  split; [reflexivity|].
  apply (parse_slots mixedListing [imageOf "a" ".jpg"]). reflexivity.
Defined.

(** The first segment of a split: it lacks the separator, and the string is
    that segment alone or the segment, the separator and a rest. *)
Lemma Split_hd (a : string) (sep : ascii) :
  lacks sep (List.hd EmptyString (Split a sep)) = true /\
  (a = List.hd EmptyString (Split a sep) \/
   exists rest, a = List.hd EmptyString (Split a sep) +:+ String sep rest).
Proof.
  induction a as [|c a [IHl IHr]]; simpl.
  - split; [reflexivity | now left].
  - destruct (Ascii.eqb_spec c sep) as [->|Hne]; simpl.
    + split; [reflexivity|]. right. exists a. reflexivity.
    + pose proof (Split_nonempty a sep) as Hnil.
      destruct (Split a sep) as [|seg segs]; [contradiction|]. simpl in *.
      apply Ascii.eqb_neq in Hne. rewrite Hne, IHl. split; [reflexivity|].
      destruct IHr as [->|[rest ->]]; [now left|]. right. now exists rest.
Qed.

Lemma Contains_byte (a : string) (c : ascii) :
  Contains a (String c EmptyString) = negb (lacks c a).
Proof.
  induction a as [|x a IH]; simpl; [reflexivity|].
  rewrite IH. destruct (Ascii.eqb_spec x c) as [->|Hne].
  - destruct (ascii_dec c c); [|contradiction]. now destruct a.
  - destruct (ascii_dec c x) as [->|_]; [contradiction|]. reflexivity.
Qed.

Lemma lacks_append_l (a b : string) (c : ascii) :
  lacks c (a +:+ b) = true -> lacks c a = true.
Proof.
  induction a as [|x a IH]; simpl; [reflexivity|].
  intros H. apply andb_true_iff in H as [-> H]. now apply IH.
Qed.

Lemma redditChildToImage_url (v : Child) (image : Image) :
  redditChildToImage v = Ok image ->
  exists data,
    ChildData_ v = Some data /\ URL data = Some (link image) /\
    imageId image =
      List.hd EmptyString (Split (lastSegment (link image) "/") ".").
Proof.
  unfold redditChildToImage. intros H.
  destruct (ChildData_ v) as [data|]; cbn [bind deref] in H; [|discriminate].
  destruct (URL data) as [url|] eqn:Hurl; cbn [bind deref] in H; [|discriminate].
  destruct (Author_ data); cbn [bind deref] in H; [|discriminate].
  destruct (ID data); cbn [bind deref] in H; [|discriminate].
  destruct (Permalink data); cbn [bind deref] in H; [|discriminate].
  destruct (Title data); cbn [bind deref] in H; [|discriminate].
  destruct (Subreddit data); cbn [bind deref] in H; [|discriminate].
  destruct (Domain data); cbn [bind deref] in H; [|discriminate].
  injection H as <-. exists data. split; [reflexivity|]. split; [exact Hurl | reflexivity].
Qed.

Lemma kept_url (v : Child) (data : ChildData) (url : string) :
  kept v = true -> ChildData_ v = Some data -> URL data = Some url ->
  Contains (lastSegment url "/") "." = true.
Proof.
  unfold kept, keepsChild. intros H Hd Hu. rewrite Hd in H. cbn [bind deref] in H.
  destruct (_ || _); [|discriminate].
  rewrite Hu in H. cbn [bind deref] in H. unfold lastSegment.
  destruct (Contains _ _); [reflexivity | discriminate].
Qed.

(** X2: every image the parser returns, other than the zero image of a blank
    id, has a link whose last path segment is the image id, a dot and an
    extension; the image id holds neither "." nor "/" and is not blank. *)
Theorem parsed_image_shape (data : ListingData) (images : list Image) (img : Image) :
  parseLinksFromListings {| Data := Some data |} = Ok images ->
  img ∈ images ->
  img <> zeroImage ->
  (exists ext, lastSegment (link img) "/" = imageId img +:+ String "." ext) /\
  lacks "." (imageId img) = true /\
  lacks "/" (imageId img) = true /\
  blankId img = false.
Proof.
  intros Hparse Hin Hnz.
  destruct (parse_filtered_slots _ _ Hparse) as [Hslots _].
  apply list_elem_of_lookup in Hin as [k Hk].
  destruct (Forall2_lookup_r _ _ _ _ _ Hslots Hk) as (v & Hv & image & Himage & Himg).
  destruct (blankId image) eqn:Hblank; [contradiction|]. subst img.
  apply list_elem_of_lookup_2, list_elem_of_In, filter_In in Hv as [_ Hkept].
  destruct (redditChildToImage_url _ _ Himage) as (d & Hd & Hu & Hid).
  pose proof (kept_url _ _ _ Hkept Hd Hu) as Hdot.
  destruct (Split_hd (lastSegment (link image) "/") ".") as [Hlacks Hshape].
  rewrite <- Hid in Hlacks, Hshape.
  assert (Hslash : lacks "/" (imageId image) = true).
  { pose proof (lacks_lastSegment (link image) "/") as Hl.
    destruct Hshape as [E|[rest E]].
    - now rewrite E in Hl.
    - rewrite E in Hl. now apply lacks_append_l in Hl. }
  repeat split; try assumption.
  destruct Hshape as [E|[rest E]]; [|now exists rest].
  rewrite Contains_byte, E, Hlacks in Hdot. discriminate.
Qed.

Lemma parsed_image_shape_witness :
  parseLinksFromListings {| Data := Some mixedListing |} = Ok [imageOf "a" ".jpg"] /\
  imageOf "a" ".jpg" ∈ [imageOf "a" ".jpg"] /\
  imageOf "a" ".jpg" <> zeroImage /\
  lacks "." (imageId (imageOf "a" ".jpg")) = true.
Proof.
  assert (Hin : imageOf "a" ".jpg" ∈ [imageOf "a" ".jpg"]) by (left).
  assert (Hnz : imageOf "a" ".jpg" <> zeroImage) by discriminate.
  split; [reflexivity|]. split; [exact Hin|]. split; [exact Hnz|].
  apply (parsed_image_shape mixedListing [imageOf "a" ".jpg"] _ eq_refl Hin Hnz).
Defined.

Lemma completeChild_keeps (v : Child) :
  completeChild v = true -> exists b, keepsChild v = Ok b.
Proof.
  unfold completeChild, keepsChild.
  destruct (ChildData_ v) as [data|]; [|discriminate]. cbn [bind deref].
  intros H. repeat (apply andb_true_iff in H as [H ?]).
  destruct (_ || _); [|eauto].
  destruct (URL data); [cbn; eauto | discriminate].
Qed.

Lemma completeChild_image (v : Child) :
  completeChild v = true -> exists image, redditChildToImage v = Ok image.
Proof.
  unfold completeChild, redditChildToImage.
  destruct (ChildData_ v) as [data|]; [|discriminate]. cbn [bind deref].
  intros H. repeat (apply andb_true_iff in H as [H ?]).
  destruct (Title data), (Domain data), (ID data), (Author_ data),
    (Permalink data), (URL data), (Subreddit data); try discriminate.
  cbn. eauto.
Qed.

Lemma filterChildren_complete (children : list Child) :
  forallb completeChild children = true ->
  exists filtered,
    filterChildren children = Ok filtered /\ forallb completeChild filtered = true.
Proof.
  induction children as [|v rest IH]; simpl.
  - exists []. split; reflexivity.
  - intros H. apply andb_true_iff in H as [Hv Hrest].
    destruct (completeChild_keeps v Hv) as [b ->].
    destruct (IH Hrest) as (filtered & -> & Hall). cbn.
    destruct b; eexists; (split; [reflexivity|]); simpl; now rewrite ?Hv.
Qed.

Lemma fillImages_complete (filteredList : list Child) :
  forallb completeChild filteredList = true ->
  forall k slots, exists images, fillImages k filteredList slots = Ok images.
Proof.
  induction filteredList as [|v rest IH]; simpl; intros H k slots.
  - eauto.
  - apply andb_true_iff in H as [Hv Hrest].
    destruct (completeChild_image v Hv) as [image ->]. cbn.
    destruct (String.eqb _ _); apply IH; assumption.
Qed.

(** X3: on a listing whose entries all have their data object and all the
    fields the parser reads, the parser does not panic. *)
Theorem parse_complete_listing (listings : Listings) :
  completeListing listings = true ->
  exists images, parseLinksFromListings listings = Ok images.
Proof.
  unfold completeListing, parseLinksFromListings. intros H.
  destruct (Data listings) as [data|]; [|eauto].
  destruct (Nat.eqb _ _); [eauto|].
  destruct (filterChildren_complete _ H) as (filtered & -> & Hall).
  cbn [bind]. now apply fillImages_complete.
Qed.

Lemma parse_complete_listing_witness :
  completeListing fiveEntries = true /\
  exists images, parseLinksFromListings fiveEntries = Ok images.
Proof.
  split; [reflexivity|]. apply (parse_complete_listing fiveEntries). reflexivity.
Defined.

End ParseFacts.


(** ** More on construction *)

(** Closed decidable facts, by evaluation. *)
Ltac by_computation := apply (bool_decide_unpack _); vm_compute; exact I.

Lemma mapIndex_pageTypes (pageType : string) :
  mapIndex pageTypes pageType = true <-> pageType ∈ supportedNames.
Proof.
  unfold mapIndex. change pageTypes with
    (list_to_map ((fun t : string => (t, true)) <$> supportedNames) : gmap string bool).
  split.
  - destruct (_ !! pageType) as [b|] eqn:E; simpl; [|discriminate].
    intros ->. apply elem_of_list_to_map_2 in E.
    apply list_elem_of_fmap in E as (t & [= ->] & Ht). exact Ht.
  - intros Hin.
    assert (Hnodup : NoDup (((fun t : string => (t, true)) <$> supportedNames).*1)).
    { by_computation. }
    rewrite (elem_of_list_to_map_1 _ pageType true Hnodup); [reflexivity|].
    apply list_elem_of_fmap. exists pageType. split; [reflexivity | assumption].
Qed.

(** X4: [NewScraper] ends the process with [log.Fatalf] exactly when the page
    type is not one of the sixteen names of its table, and returns a scraper
    otherwise; "top-day" or an empty page type are among the rejected. *)
Theorem NewScraper_page_type (options : Options) :
  (NewScraper options = Panic LogFatal <-> PageType options ∉ supportedNames) /\
  ((exists sc, NewScraper options = Ok sc) <-> PageType options ∈ supportedNames) /\
  ("top-day" ∉ supportedNames) /\ (EmptyString ∉ supportedNames).
Proof.
  pose proof (mapIndex_pageTypes (PageType options)) as Hmap.
  unfold NewScraper. cbn [supportedPageTypes].
  destruct (mapIndex pageTypes (PageType options)); cbn [negb].
  - split; [|split; [|split]].
    + split; [discriminate|]. intros H. exfalso. apply H, Hmap. reflexivity.
    + split; [intros _; now apply Hmap | eauto].
    + by_computation.
    + by_computation.
  - split; [|split; [|split]].
    + split; [|reflexivity]. intros _ Hin. apply Hmap in Hin. discriminate.
    + split; [intros [sc H]; discriminate|]. intros Hin. apply Hmap in Hin. discriminate.
    + by_computation.
    + by_computation.
Qed.

Lemma NewScraper_fields (options : Options) (sc : Scraper) :
  NewScraper options = Ok sc ->
  after sc = 0%Z /\
  supportedPageTypes sc = pageTypes /\
  OutputDirectory (scrapingOptions sc) = OutputDirectory options /\
  PageType (scrapingOptions sc) = PageType options /\
  FrontPage (scrapingOptions sc) = FrontPage options /\
  MaxConcurrentDownloads (scrapingOptions sc) = MaxConcurrentDownloads options /\
  RootFolderOnly (scrapingOptions sc) = RootFolderOnly options /\
  Subreddits (scrapingOptions sc) =
    Subreddits options ++ (if FrontPage options then ["frontpage"] else []).
Proof.
  unfold NewScraper. cbn [supportedPageTypes].
  destruct (mapIndex pageTypes (PageType options)); cbn [negb]; [|discriminate].
  intros H. injection H as <-.
  destruct (ImageLimit options >? 100)%Z; cbn;
    destruct (FrontPage options) eqn:Hf; cbn;
    repeat match goal with |- context [if ?b then _ else _] => destruct b end;
    cbn; rewrite ?Hf, ?app_nil_r; repeat split; reflexivity.
Qed.

(** X5: the scraper [NewScraper] returns starts at cursor 0 and carries the
    given output directory, page type, concurrency bound and folder mode
    unchanged; its feed list is the given one, followed by "frontpage" when
    the front page is asked for. *)
Theorem NewScraper_options (options : Options) (sc : Scraper) :
  NewScraper options = Ok sc ->
  after sc = 0%Z /\
  supportedPageTypes sc = pageTypes /\
  OutputDirectory (scrapingOptions sc) = OutputDirectory options /\
  PageType (scrapingOptions sc) = PageType options /\
  FrontPage (scrapingOptions sc) = FrontPage options /\
  MaxConcurrentDownloads (scrapingOptions sc) = MaxConcurrentDownloads options /\
  RootFolderOnly (scrapingOptions sc) = RootFolderOnly options /\
  Subreddits (scrapingOptions sc) =
    Subreddits options ++ (if FrontPage options then ["frontpage"] else []).
Proof. apply NewScraper_fields. Qed.

Lemma NewScraper_options_witness :
  let options := optionsFor "/out" ["pics"] false in
  NewScraper options = Ok (scraperFor options) /\
  Subreddits (scrapingOptions (scraperFor options)) = ["pics"].
Proof.
  intros options. split; [reflexivity|].
  apply (NewScraper_options options (scraperFor options)). reflexivity.
Defined.

(** X6: for a scraper that [NewScraper] returned, the feed URL names one of
    reddit's listings (hot, new, rising, best, top, controversial), carries
    the scraper's limit and the cursor 0, and ends in nothing or in one of
    the five time spans; the feed "frontpage" has no "/r/<feed>" part. *)
Theorem feed_url_shape (options : Options) (sc : Scraper) (sub : string) :
  NewScraper options = Ok sc ->
  exists listing span,
    listing ∈ listingNames /\ span ∈ spanParameters /\
    determineRedditUrl sc sub =
      if String.eqb sub "frontpage"
      then "https://www.reddit.com/" +:+ listing +:+ "/.json?limit=" +:+
           formatInt (ImageLimit (scrapingOptions sc)) +:+ "&after=0" +:+ span
      else "https://www.reddit.com/r/" +:+ sub +:+ "/" +:+ listing +:+
           ".json?limit=" +:+ formatInt (ImageLimit (scrapingOptions sc)) +:+
           "&after=0" +:+ span.
Proof.
  intros Hnew.
  destruct (NewScraper_fields options sc Hnew) as (Hafter & _ & _ & Hpt & _).
  assert (Hin : PageType (scrapingOptions sc) ∈ supportedNames).
  { rewrite Hpt. apply mapIndex_pageTypes. revert Hnew.
    unfold NewScraper. cbn [supportedPageTypes].
    now destruct (mapIndex pageTypes (PageType options)). }
  unfold determineRedditUrl. rewrite Hafter.
  unfold supportedNames in Hin.
  repeat (apply elem_of_cons in Hin as [->|Hin];
          [ match goal with
            | |- context [Contains ?pt "-"] =>
                let b := eval vm_compute in (List.nth 0 (Split pt "-") EmptyString) in
                let t := eval vm_compute in
                  (if Contains pt "-"
                   then "&t=" +:+ List.nth 1 (Split pt "-") EmptyString
                   else EmptyString) in
                exists b, t
            end;
            split; [by_computation|];
            split; [by_computation|];
            destruct (String.eqb sub "frontpage"); reflexivity
          | ]).
  now apply elem_of_nil in Hin.
Qed.

Lemma feed_url_shape_witness :
  let options := set_ImageLimit 250 (optionsFor "/out" ["pics"] false) in
  let sc := scraperFor (set_ImageLimit 100 options) in
  NewScraper options = Ok sc /\
  exists listing span,
    listing ∈ listingNames /\ span ∈ spanParameters /\
    "https://www.reddit.com/r/pics/hot.json?limit=100&after=0" =
      "https://www.reddit.com/r/" +:+ "pics" +:+ "/" +:+ listing +:+
      ".json?limit=" +:+ "100" +:+ "&after=0" +:+ span.
Proof.
  intros options sc. split; [reflexivity|].
  apply (feed_url_shape options sc "pics"). reflexivity.
Defined.

(** ** More on fetching a feed *)

(** X7: a feed whose name is blank is answered without any request: whatever
    the network and the decoder would say, [gatherRedditFeed] returns the
    empty listing with an error, the error is dropped, and the feed
    provides no image. *)
Theorem blank_feed_name (env : Env) (s : Scraper) (sub : string) :
  String.eqb (TrimSpace sub) EmptyString = true ->
  gatherRedditFeed env s sub = Ok (emptyListings, true) /\
  feedLinks env s sub = Ok [] /\
  scheduledCount env s sub = 0.
Proof.
  intros Hblank. unfold scheduledCount, feedLinks, gatherRedditFeed.
  rewrite Hblank. repeat split.
Qed.

Lemma blank_feed_name_witness :
  String.eqb (TrimSpace blankName) EmptyString = true /\
  gatherRedditFeed offlineEnv oneFeed blankName = Ok (emptyListings, true) /\
  feedLinks offlineEnv oneFeed blankName = Ok [] /\
  scheduledCount offlineEnv oneFeed blankName = 0.
Proof.
  split; [reflexivity|].
  apply (blank_feed_name offlineEnv oneFeed blankName). reflexivity.
Defined.

(** [strings.TrimSpace] removes the white space of Unicode at both ends: the
    ASCII blanks, the no-break space U+00A0, the ideographic space U+3000,
    the line separator U+2028.  It leaves white space inside the string, the
    zero-width space U+200B, which is no white space, and a byte that is no
    encoding of a rune. *)
Example TrimSpace_unicode :
  TrimSpace (bytes [32; 194; 160; 112; 105; 32; 99; 115; 227; 128; 128; 9; 226; 128; 168])
    = "pi cs" /\
  TrimSpace noBreakSpace = EmptyString /\
  TrimSpace "  " = EmptyString /\
  TrimSpace (bytes [226; 128; 139; 32]) = bytes [226; 128; 139] /\
  TrimSpace (bytes [32; 160]) = bytes [160].
Proof. repeat split; reflexivity. Qed.

(** An image id that is a no-break space is blank as well: the slot keeps
    the zero Image. *)
Example nbsp_id_left_zero :
  parseLinksFromListings nbspIdEntry = Ok [zeroImage].
Proof. reflexivity. Qed.

(** ** More on the download worker *)

Section WorkerRuns.
Variable env : Env.
Variable s : Scraper.

Ltac download_cases :=
  cbv zeta; rewrite downloadImage_cases; unfold opened; cbv zeta;
  repeat match goal with
  | |- context [bool_decide ?P] =>
      let H := fresh "Hin" in
      destruct (decide P) as [H|H];
      [ rewrite (bool_decide_true P H) | rewrite (bool_decide_false P H) ];
      cbn [orb]
  | |- context [statBlocked ?e ?p] =>
      let H := fresh "Hstat" in
      destruct (statBlocked e p) eqn:H;
      [ rewrite ?(blocked_create e p H) | ];
      cbn [orb]
  | |- context [if ?b then _ else _] => destruct b eqn:?
  end;
  cbn [app eventsOf messages requests closes omap list_omap fst snd fmap list_fmap
       us_state us_image rev closeOk].

(** X8: [downloadImage] sends exactly two messages, Pending for the image as
    it was queued and one terminal state for the image with the rewritten
    link.  The state is Skipped exactly when [os.Stat] does not say that the
    image path is missing: the path exists, or [os.Stat] fails in another
    way.  It is Downloaded exactly when the path was missing and creating
    the file, the GET and the copy all worked, and Failed exactly when the
    path was missing and one of the three did not. *)
Theorem downloadImage_outcome (files : gset string) (outDir : string) (img : Image) :
  let p := imagePath s outDir img in
  let l := rewriteLink (link img) in
  exists st,
    messages (eventsOf (downloadImage env s files outDir img)) =
      [ {| us_image := img; us_state := DOWNLOADING |};
        {| us_image := set_link l img; us_state := st |} ] /\
    (st = SKIPPED <-> p ∈ files \/ statBlocked env p = true) /\
    (st = SUCCESS <->
       (p ∉ files) /\ statBlocked env p = false /\ createOk env p = true /\
       httpGetOk env l = true /\ copyOk env l = true) /\
    (st = FAILED <->
       (p ∉ files) /\ statBlocked env p = false /\
       (createOk env p = false \/ httpGetOk env l = false \/ copyOk env l = false)).
Proof.
  download_cases.
  all: eexists; (split; [reflexivity|]).
  all: repeat split; intros; try discriminate; try contradiction; try assumption;
       try reflexivity; auto.
  all: intuition congruence.
Qed.

(** X9: [downloadImage] deletes nothing and creates at most the image path,
    which exists afterwards exactly when it existed before or [os.Create]
    worked; it makes one request, for the rewritten link, exactly when it
    has created the file, and none otherwise. *)
Theorem downloadImage_effects (files : gset string) (outDir : string) (img : Image) :
  let p := imagePath s outDir img in
  let l := rewriteLink (link img) in
  let r := downloadImage env s files outDir img in
  let files' := snd (fst r) in
  files ⊆ files' /\ files' ⊆ files ∪ {[p]} /\
  (p ∈ files' <-> p ∈ files \/ createOk env p = true) /\
  (requests (eventsOf r) = [l] <-> (p ∉ files) /\ createOk env p = true) /\
  (requests (eventsOf r) = [] <-> p ∈ files \/ createOk env p = false).
Proof.
  download_cases.
  all: repeat split; intros; try discriminate; try reflexivity; auto.
  all: try solve [ apply union_subseteq_l
                 | apply elem_of_union_r, elem_of_singleton; reflexivity
                 | intuition congruence ].
Qed.

(** X10: a download that fails after the file was created leaves the file
    behind, so a later call for the same image finds the path, reports
    Skipped and asks the network for nothing, whatever the network would
    answer then. *)
Theorem failed_download_is_not_retried (later : Env) (files : gset string)
    (outDir : string) (img : Image) :
  let p := imagePath s outDir img in
  let l := rewriteLink (link img) in
  p ∉ files ->
  createOk env p = true ->
  httpGetOk env l = false \/ copyOk env l = false ->
  let r := downloadImage env s files outDir img in
  let again := downloadImage later s (snd (fst r)) outDir img in
  us_state <$> messages (eventsOf r) = [DOWNLOADING; FAILED] /\
  p ∈ snd (fst r) /\
  us_state <$> messages (eventsOf again) = [DOWNLOADING; SKIPPED] /\
  requests (eventsOf again) = [].
Proof.
  cbv zeta. intros Hnew Hcreate Hfail.
  assert (Hfirst :
    us_state <$> messages (eventsOf (downloadImage env s files outDir img)) =
      [DOWNLOADING; FAILED] /\
    imagePath s outDir img ∈ snd (fst (downloadImage env s files outDir img))).
  { assert (Hstat : statBlocked env (imagePath s outDir img) = false).
    { destruct (statBlocked env _) eqn:E; [|reflexivity].
      apply blocked_create in E. congruence. }
    rewrite downloadImage_cases. cbv zeta.
    rewrite bool_decide_false by assumption. rewrite Hstat, Hcreate. cbn [orb].
    destruct Hfail as [Hfail|Hfail]; rewrite ?Hfail;
      repeat match goal with
      | |- context [if ?b then _ else _] => destruct b
      end;
      (split; [reflexivity | apply elem_of_union_r, elem_of_singleton; reflexivity]). }
  destruct Hfirst as [Hmsgs Hleft].
  rewrite (downloadImage_existing later s _ _ _ Hleft).
  repeat split; assumption.
Qed.

(** X11: the deferred [Close] calls.  [downloadImage] returns exactly when
    every resource it opened closes without an error, and ends the process
    with [log.Fatal] otherwise; when it returns it has closed each resource
    it opened once, the last opened first; and in no run does it close
    anything else or in another order. *)
Theorem downloadImage_closes (files : gset string) (outDir : string) (img : Image) :
  let p := imagePath s outDir img in
  let l := rewriteLink (link img) in
  let r := downloadImage env s files outDir img in
  let resources := opened env files p l in
  (snd r = Some (Ok tt) <-> Forall (fun c => closeOk env c = true) resources) /\
  (snd r = Some (Panic LogFatal) <->
     Exists (fun c => closeOk env c = false) resources) /\
  (snd r = Some (Ok tt) -> closes (eventsOf r) = rev resources) /\
  closes (eventsOf r) `prefix_of` rev resources.
Proof.
  download_cases.
  all: rewrite ?Forall_cons, ?Forall_nil, ?Exists_cons, ?Exists_nil; cbn [closeOk].
  all: repeat split; intros; try discriminate; try reflexivity; auto.
  all: try solve [ intuition congruence
                 | apply prefix_nil
                 | eexists; reflexivity
                 | exists []; reflexivity ].
Qed.

End WorkerRuns.

Lemma failed_download_is_not_retried_witness :
  let env := noImagesEnv emptyListings in
  let r := downloadImage env oneFeed ∅ "/out/pics" sampleImage in
  let again := downloadImage (friendlyEnv emptyListings) oneFeed (snd (fst r))
                 "/out/pics" sampleImage in
  imagePath oneFeed "/out/pics" sampleImage = "/out/pics/a.jpg" /\
  us_state <$> messages (eventsOf r) = [DOWNLOADING; FAILED] /\
  imagePath oneFeed "/out/pics" sampleImage ∈ snd (fst r) /\
  us_state <$> messages (eventsOf again) = [DOWNLOADING; SKIPPED] /\
  requests (eventsOf again) = [].
Proof.
  intros env r again.
  split; [reflexivity|].
  apply (failed_download_is_not_retried env oneFeed (friendlyEnv emptyListings)
           ∅ "/out/pics" sampleImage).
  - vm_compute. set_solver.
  - reflexivity.
  - left. reflexivity.
Defined.

(** ** More on the gif-v rewrite *)

Section RewriteFacts.

#[local] Arguments String.append !_ _ / : simpl nomatch.

Lemma append_last_byte (a b : string) (c c' : ascii) :
  a +:+ String c EmptyString = b +:+ String c' EmptyString -> c = c'.
Proof.
  revert b. induction a as [|x a IH]; intros [|y b]; simpl.
  - now intros [= ->].
  - intros [= _ H]. now destruct b.
  - intros [= _ H]. now destruct a.
  - intros [= _ H]. eapply IH, H.
Qed.

(** X12: the gif-v rewrite is idempotent.  A rewritten link never ends in
    "gifv", so rewriting it again, as a later call of [downloadImage] for
    the image of a message would, changes nothing. *)
Theorem rewriteLink_idempotent (l : string) :
  HasSuffix (rewriteLink l) "gifv" = false /\
  rewriteLink (rewriteLink l) = rewriteLink l.
Proof.
  assert (Hno : HasSuffix (rewriteLink l) "gifv" = false).
  { unfold rewriteLink. destruct (HasSuffix l "gifv") eqn:E; [|exact E].
    set (stem := String.substring 0 (String.length l - 4) l).
    destruct (HasSuffix (stem +:+ "mp4") "gifv") eqn:E2; [|reflexivity].
    apply HasSuffix_true in E2.
    set (stem2 := String.substring 0 _ _) in E2.
    change "mp4" with ("mp" +:+ "4") in E2 at 1.
    change "gifv" with ("gif" +:+ "v") in E2.
    rewrite <- !append_assoc in E2.
    apply append_last_byte in E2. discriminate. }
  split; [exact Hno|].
  unfold rewriteLink at 1. now rewrite Hno.
Qed.

End RewriteFacts.

(** ** More on paths *)

Section CleanFacts.

#[local] Arguments String.append !_ _ / : simpl nomatch.

Lemma Split_segments_lack (a : string) (sep : ascii) :
  Forall (fun seg => lacks sep seg = true) (Split a sep).
Proof.
  induction a as [|c a IH]; simpl.
  - repeat constructor.
  - destruct (Ascii.eqb c sep) eqn:Hc.
    + constructor; [reflexivity | exact IH].
    + destruct (Split a sep) as [|seg segs]; [repeat constructor; simpl; now rewrite Hc|].
      inversion IH as [|? ? Hseg Hsegs]; subst.
      constructor; [simpl; now rewrite Hc, Hseg | assumption].
Qed.

Lemma tidy_cleanElem (rooted : bool) (stack : list string) (e : string) :
  lacks "/" e = true -> tidy rooted stack -> tidy rooted (cleanElem rooted stack e).
Proof.
  intros He Hst. unfold cleanElem.
  destruct (String.eqb_spec e EmptyString) as [->|Hne]; [assumption|].
  destruct (String.eqb_spec e ".") as [->|Hnd]; [assumption|]. cbn [orb].
  destruct (String.eqb_spec e "..") as [->|Hndd].
  - destruct stack as [|top below].
    + destruct rooted; [exact I|]. cbn. repeat split; try discriminate; auto.
    + destruct (String.eqb_spec top "..") as [->|Htop].
      * destruct Hst as (Hk & Hdd & Hbelow). destruct (Hdd eq_refl) as [Hr Hall].
        cbn. repeat split; try discriminate; auto.
      * now destruct Hst as (_ & _ & Hbelow).
  - cbn. repeat split; try assumption; contradiction.
Qed.

Lemma tidy_fold (rooted : bool) (elems stack : list string) :
  Forall (fun e => lacks "/" e = true) elems -> tidy rooted stack ->
  tidy rooted (fold_left (cleanElem rooted) elems stack).
Proof.
  revert stack. induction elems as [|e elems IH]; intros stack Hall Hst; simpl.
  - assumption.
  - inversion Hall; subst. apply IH; [assumption|]. now apply tidy_cleanElem.
Qed.

(** Cleaning the elements of a tidy stack again, bottom first, rebuilds it. *)
Lemma tidy_refold (rooted : bool) (stack : list string) :
  tidy rooted stack -> fold_left (cleanElem rooted) (rev stack) [] = stack.
Proof.
  induction stack as [|e below IH]; [reflexivity|].
  intros ((Hne & Hnd & Hl) & Hdd & Hbelow). simpl.
  rewrite fold_left_app, (IH Hbelow). simpl. unfold cleanElem.
  destruct (String.eqb_spec e EmptyString) as [|_]; [contradiction|].
  destruct (String.eqb_spec e ".") as [|_]; [contradiction|]. cbn [orb].
  destruct (String.eqb_spec e "..") as [->|_]; [|reflexivity].
  destruct (Hdd eq_refl) as [-> Hall].
  destruct below as [|top below]; [reflexivity|].
  inversion Hall; subst. reflexivity.
Qed.

Lemma tidy_Forall (rooted : bool) (stack : list string) :
  tidy rooted stack -> Forall keptElem stack.
Proof.
  induction stack as [|e below IH]; [constructor|].
  intros (Hk & _ & Hbelow). constructor; auto.
Qed.

Lemma Split_joinSlash (elems : list string) :
  elems <> [] -> Forall (fun e => lacks "/" e = true) elems ->
  Split (joinSlash elems) "/" = elems.
Proof.
  induction elems as [|e elems IH]; [contradiction|]. intros _ Hall.
  inversion Hall as [|? ? He Hrest]; subst.
  destruct elems as [|e' elems].
  - simpl. now apply Split_lacks.
  - change (joinSlash (e :: e' :: elems)) with (e +:+ String "/" (joinSlash (e' :: elems))).
    rewrite Split_append_sep, (Split_lacks e "/" He), IH by (assumption || discriminate).
    reflexivity.
Qed.

Lemma joinSlash_head (e : string) (elems : list string) :
  e <> EmptyString -> lacks "/" e = true ->
  joinSlash (e :: elems) <> EmptyString /\ String.prefix "/" (joinSlash (e :: elems)) = false.
Proof.
  intros Hne Hl. destruct e as [|c e]; [contradiction|].
  simpl in Hl. apply andb_true_iff in Hl as [Hc _]. apply negb_true_iff in Hc.
  destruct elems as [|e' elems]; cbn [joinSlash String.append String.prefix].
  all: split; [discriminate|].
  all: destruct (ascii_dec "/" c) as [<-|_];
       [rewrite Ascii.eqb_refl in Hc; discriminate | reflexivity].
Qed.

Lemma prefix_byte_append (c : ascii) (a b : string) :
  a <> EmptyString ->
  String.prefix (String c EmptyString) (a +:+ b) = String.prefix (String c EmptyString) a.
Proof.
  intros Hne. destruct a as [|x a]; [contradiction|].
  cbn [String.append String.prefix]. destruct (ascii_dec c x); [|reflexivity].
  now destruct (a +:+ b), a.
Qed.

Lemma Clean_nonempty (p : string) : Clean p <> EmptyString.
Proof.
  unfold Clean. cbv zeta. destruct (String.eqb p EmptyString); [discriminate|].
  destruct (String.prefix "/" p); [discriminate|].
  match goal with
  | |- context [String.eqb ?b EmptyString] => destruct (String.eqb_spec b EmptyString)
  end; [discriminate | assumption].
Qed.

(** [path.Clean] undoes a trailing slash put after a clean path. *)
Lemma Clean_trailing_slash (p : string) :
  Clean (Clean p +:+ "/") = Clean p.
Proof.
  destruct (String.eqb_spec p EmptyString) as [->|Hp]; [reflexivity|].
  unfold Clean at 2 3. cbv zeta. apply String.eqb_neq in Hp. rewrite Hp.
  set (rooted := String.prefix "/" p).
  set (stack := fold_left (cleanElem rooted) (Split p "/") []).
  assert (Htidy : tidy rooted stack).
  { apply tidy_fold; [apply Split_segments_lack | exact I]. }
  pose proof (tidy_refold rooted stack Htidy) as Hre.
  pose proof (tidy_Forall rooted stack Htidy) as Hkept.
  assert (Hlack : Forall (fun e => lacks "/" e = true) (rev stack)).
  { apply Forall_rev. eapply Forall_impl; [exact Hkept|]. now intros e (_ & _ & ?). }
  destruct (rev stack) as [|e elems] eqn:Hrev.
  - (* nothing is left of the path *)
    assert (stack = []) as Hnil.
    { apply (f_equal (@rev string)) in Hrev. now rewrite rev_involutive in Hrev. }
    cbn [joinSlash]. destruct rooted; reflexivity.
  - assert (Hhead : keptElem e).
    { apply Forall_rev in Hkept. rewrite Hrev in Hkept. now inversion Hkept. }
    destruct Hhead as (Hne & _ & Hl).
    destruct (joinSlash_head e elems Hne Hl) as [Hbody Hrel].
    set (body := joinSlash (e :: elems)) in *.
    assert (Hsplit : Split (body +:+ "/") "/" = (e :: elems) ++ [EmptyString]).
    { change (body +:+ "/") with (body +:+ String "/" EmptyString).
      rewrite Split_append_sep. unfold body.
      now rewrite Split_joinSlash by (assumption || discriminate). }
    assert (Hfold : forall r, r = rooted ->
              fold_left (cleanElem r) ((e :: elems) ++ [EmptyString]) [] = stack).
    { intros r ->. rewrite fold_left_app, Hre. reflexivity. }
    destruct rooted eqn:Hrooted.
    + (* a rooted path *)
      unfold Clean. cbv zeta.
      change (("/" +:+ body) +:+ "/") with (String "/" (body +:+ "/")).
      cbn [String.eqb String.prefix]. destruct (ascii_dec "/" "/"); [|contradiction].
      cbn [Split]. rewrite Ascii.eqb_refl, Hsplit.
      assert (Hpre : forall x, String.prefix EmptyString x = true) by (now intros [|]).
      rewrite !Hpre.
      change (fold_left (cleanElem true) (EmptyString :: (e :: elems) ++ [EmptyString]) [])
        with (fold_left (cleanElem true) ((e :: elems) ++ [EmptyString]) []).
      rewrite (Hfold true eq_refl), Hrev. reflexivity.
    + (* a relative path *)
      assert (Hrel' : String.prefix "/" (body +:+ "/") = false)
        by (now rewrite prefix_byte_append).
      assert (Hne' : String.eqb (body +:+ "/") EmptyString = false).
      { apply String.eqb_neq. intros E. apply (f_equal String.length) in E.
        rewrite append_length in E. simpl in E. lia. }
      apply String.eqb_neq in Hbody. rewrite Hbody.
      unfold Clean. cbv zeta.
      rewrite Hne', Hrel', Hsplit, (Hfold false eq_refl), Hrev.
      fold body. now rewrite Hbody.
Qed.

(** [path.Join] of a joined path and an empty element is the joined path. *)
Lemma Join_empty_element (elems : list string) :
  Join [Join elems; EmptyString] = Join elems.
Proof.
  unfold Join at 2 3.
  destruct (forallb _ elems); [reflexivity|].
  set (p := fold_left joinBuf elems EmptyString).
  pose proof (Clean_nonempty p) as Hne. apply String.eqb_neq in Hne.
  assert (H1 : joinBuf EmptyString (Clean p) = Clean p).
  { unfold joinBuf. cbn [String.eqb negb orb String.append]. now rewrite Hne. }
  assert (H2 : joinBuf (Clean p) EmptyString = Clean p +:+ "/").
  { unfold joinBuf. rewrite Hne. cbn [negb orb]. apply append_empty_r. }
  unfold Join. cbn [forallb fold_left]. rewrite Hne. cbn [andb].
  rewrite H1, H2. apply Clean_trailing_slash.
Qed.

End CleanFacts.

(** X13: an image without a link makes the worker look at the directory of
    its feed.  In the default layout the image path of such an image, which
    is what the parser leaves in the slot of an entry with a blank image
    id, is the directory the fetcher creates for the feed; when that
    directory exists the worker reports Skipped, asks the network for
    nothing and changes no file. *)
Theorem empty_link_checks_directory (env : Env) (s : Scraper) (files : gset string)
    (img : Image) :
  RootFolderOnly (scrapingOptions s) = false ->
  link img = EmptyString ->
  let dir := feedDir s (subreddit img) in
  let r := downloadImage env s files (workerOutDir s img) img in
  imagePath s (workerOutDir s img) img = dir /\
  (dir ∈ files ->
     us_state <$> messages (eventsOf r) = [DOWNLOADING; SKIPPED] /\
     requests (eventsOf r) = [] /\ snd (fst r) = files).
Proof.
  intros Hroot Hlink. cbv zeta.
  assert (Hpath : imagePath s (workerOutDir s img) img = feedDir s (subreddit img)).
  { unfold imagePath, rootOutDir, fileName, feedDir, workerOutDir.
    rewrite Hroot, Hlink.
    change (lastSegment (rewriteLink EmptyString) "/") with EmptyString.
    apply Join_empty_element. }
  split; [exact Hpath|].
  intros Hdir. rewrite <- Hpath in Hdir.
  rewrite (downloadImage_existing env s _ _ _ Hdir). repeat split.
Qed.

Lemma empty_link_checks_directory_witness :
  let env := friendlyEnv blankIdEntry in
  let img := set_subreddit "pics" zeroImage in
  let st := run env oneFeed 200 ∅ in
  feedLinks env oneFeed "pics" = Ok [zeroImage] /\
  aggr st = A_Done /\ skipped st = 1 /\ downloaded st = 0 /\
  RootFolderOnly (scrapingOptions oneFeed) = false /\
  link img = EmptyString /\
  imagePath oneFeed (workerOutDir oneFeed img) img = "/out/pics".
Proof.
  intros env img st.
  assert (Hroot : RootFolderOnly (scrapingOptions oneFeed) = false) by reflexivity.
  assert (Hlink : link img = EmptyString) by reflexivity.
  split; [reflexivity|]. split; [vm_compute; reflexivity|].
  split; [vm_compute; reflexivity|]. split; [vm_compute; reflexivity|].
  split; [exact Hroot|]. split; [exact Hlink|].
  apply (empty_link_checks_directory env oneFeed ∅ img Hroot Hlink).
Defined.

(** ** More on the pipeline *)

Lemma dl_step_files (env : Env) (s : Scraper) (files files' : gset string)
    (d d' : download) (ev : event) :
  dl_step env s files d = Stepped ev d' files' -> files ⊆ files'.
Proof.
  unfold dl_step. intros H.
  destruct (d_pc d); repeat step_case H; simplify_eq;
    first [reflexivity | apply union_subseteq_l].
Qed.

Lemma ids_grow_refl (ids : gmap string (gmap string bool)) : ids_grow ids ids.
Proof. intros sub seen H. eauto. Qed.

Lemma ids_grow_trans (a b c : gmap string (gmap string bool)) :
  ids_grow a b -> ids_grow b c -> ids_grow a c.
Proof.
  intros Hab Hbc sub seen H.
  destruct (Hab _ _ H) as (seen1 & H1 & K1).
  destruct (Hbc _ _ H1) as (seen2 & H2 & K2). eauto.
Qed.

Lemma total_pos {A : Type} (f : A -> nat) (l : list A) :
  0 < total f l -> exists i x, l !! i = Some x /\ 0 < f x.
Proof.
  unfold total. induction l as [|x l IH]; cbn; [lia|].
  intros H. destruct (f x) as [|n] eqn:E.
  - destruct IH as (i & y & Hi & Hy); [lia|]. exists (S i), y. auto.
  - exists 0, x. split; [reflexivity | lia].
Qed.

Section MoreRuns.
Variable env : Env.
Variable s : Scraper.

(** What one transition never undoes. *)
Lemma step_keeps (l : label) (st st' : pipeline) :
  step env s l st = Some st' ->
  files st ⊆ files st' /\
  ids_grow (uniqueImageIds st) (uniqueImageIds st') /\
  downloaded st <= downloaded st' /\ skipped st <= skipped st' /\
  failed st <= failed st' /\
  processed st' <= processed st + 1 /\
  (l <> RunAggregator -> processed st' = processed st) /\
  (queueClosed st = true -> queueClosed st' = true) /\
  (pumpClosed st = true -> pumpClosed st' = true) /\
  length (fetchers st) <= length (fetchers st') /\
  length (workers st) <= length (workers st').
Proof.
  intros H. unfold step in H. destruct (crashed st) eqn:Hc; [discriminate|].
  destruct l; step_cases H; unfold processed; cbn.
  all: rewrite ?length_insert, ?length_app.
  all: repeat split; try lia; try tauto; try reflexivity; try apply ids_grow_refl.
  all: try solve [ eapply dl_step_files; eassumption
                 | apply MkdirAll_grows
                 | apply ids_grow_create; assumption
                 | apply ids_grow_mark; assumption
                 | congruence ].
Qed.

Lemma exec_keeps (schedule : list label) :
  forall st st',
    exec env s schedule st = Some st' ->
    files st ⊆ files st' /\
    ids_grow (uniqueImageIds st) (uniqueImageIds st') /\
    downloaded st <= downloaded st' /\ skipped st <= skipped st' /\
    failed st <= failed st' /\
    (queueClosed st = true -> queueClosed st' = true) /\
    (pumpClosed st = true -> pumpClosed st' = true) /\
    length (fetchers st) <= length (fetchers st') /\
    length (workers st) <= length (workers st').
Proof.
  induction schedule as [|l rest IH]; intros st st'; simpl.
  - intros [= <-]. repeat split; auto. apply ids_grow_refl.
  - destruct (step env s l st) as [st1|] eqn:E; [|discriminate].
    intros H. specialize (IH _ _ H).
    pose proof (step_keeps _ _ _ E) as K.
    destruct IH as (? & ? & ? & ? & ? & ? & ? & ? & ?).
    destruct K as (? & ? & ? & ? & ? & ? & ? & ? & ? & ? & ?).
    repeat split; try lia; try tauto.
    + etransitivity; eassumption.
    + eapply ids_grow_trans; eassumption.
Qed.

End MoreRuns.

Lemma total_take_le {A : Type} (f : A -> nat) (n : nat) (l : list A) :
  total f (take n l) <= total f l.
Proof.
  unfold total. revert n. induction l as [|x l IH]; intros [|n]; cbn; try lia.
  specialize (IH n). lia.
Qed.

Lemma sent_le_scheduled (env : Env) (s : Scraper) (f : fetcher) :
  fetcher_ok env s f -> sent env s f <= scheduledCount env s (f_sub f).
Proof.
  unfold fetcher_ok, sent, scheduledCount.
  destruct (f_pc f); try lia.
  - intros [-> Hk]. exact Hk.
  - intros [-> (raw & Hraw & _)]. apply lookup_lt_Some in Hraw. lia.
Qed.

Section Received.
Variable env : Env.
Variable s : Scraper.

Lemma received_step (l : label) (st st' : pipeline) :
  flow_inv env s st ->
  received st = total (sent env s) (fetchers st) ->
  step env s l st = Some st' ->
  received st' = total (sent env s) (fetchers st').
Proof.
  intros [Hfs _ _ _ _] Hrecv H. unfold received in *.
  unfold step in H. destruct (crashed st) eqn:Hc; [discriminate|].
  destruct l; step_cases H; cbn; try assumption.
  all: rewrite ?length_insert, ?length_app; cbn [length].
  all: use_foralls; use_totals.
  all: unfold fetcher_ok, sent, holding, scheduledCount in *; cbn in *; use_pcs.
  all: repeat match goal with
       | H : _ /\ _ |- _ => destruct H
       | E : _ !! _ = None |- _ => apply lookup_ge_None in E
       | H : feedLinks _ _ _ = Ok _ |- _ => rewrite H in *
       end.
  all: try lia.
Qed.

Lemma received_exec (schedule : list label) :
  forall st st',
    flow_inv env s st ->
    received st = total (sent env s) (fetchers st) ->
    exec env s schedule st = Some st' ->
    received st' = total (sent env s) (fetchers st').
Proof.
  induction schedule as [|l rest IH]; intros st st' Hflow Hinv; simpl.
  - now intros [= <-].
  - destruct (step env s l st) as [st1|] eqn:E; [|discriminate].
    apply IH.
    + eapply flow_step; eassumption.
    + eapply received_step; eassumption.
Qed.

Lemma received_reachable (fs : gset string) (st : pipeline) :
  reachable env s fs st -> received st = total (sent env s) (fetchers st).
Proof.
  intros [schedule H].
  eapply received_exec; [apply flow_initial | reflexivity | exact H].
Qed.

Lemma workers_bounds (fs : gset string) (st : pipeline) :
  reachable env s fs st ->
  processed st + handling (aggr st) + total owes (workers st) = length (workers st) /\
  length (workers st) + holding (disp st) <= expectedTotal env s.
Proof.
  intros Hreach.
  pose proof (received_reachable fs st Hreach) as Hrecv.
  pose proof (flow_reachable env s fs st Hreach) as Hflow.
  pose proof (flow_count _ _ _ Hflow) as Hcount.
  unfold received in Hrecv. split; [lia|].
  rewrite Hrecv.
  pose proof (total_le_Forall (sent env s) (fun f => scheduledCount env s (f_sub f)) _
                (fetchers st) (sent_le_scheduled env s) (flow_fetchers _ _ _ Hflow)) as Hle.
  rewrite (total_fmap (scheduledCount env s) f_sub), (flow_spawned _ _ _ Hflow) in Hle.
  pose proof (total_take_le (scheduledCount env s)
                (metaIndex (Subreddits (scrapingOptions s)) (meta st))
                (Subreddits (scrapingOptions s))).
  unfold expectedTotal. lia.
Qed.

(** X14: a worker goroutine is started for every image a fetcher has sent
    and for nothing else.  In every state of a run the terminal messages
    counted are at most the goroutines started, and these are at most the
    images the feeds provide; when [Start] has left its loop both numbers
    are equal to it, for any number of feeds. *)
Theorem one_worker_per_image (fs : gset string) (st : pipeline) :
  reachable env s fs st ->
  processed st <= length (workers st) /\
  length (workers st) <= expectedTotal env s /\
  (aggr st = A_Done ->
     length (workers st) = expectedTotal env s /\
     processed st = expectedTotal env s).
Proof.
  intros Hreach.
  destruct (workers_bounds fs st Hreach) as [Hsum Hle].
  split; [lia|]. split; [lia|].
  intros Hdone.
  pose proof (finished_processed env s st (sync_reachable env s fs st Hreach)
                (flow_reachable env s fs st Hreach) Hdone).
  lia.
Qed.

End Received.



Section Health.
Variable env : Env.
Variable s : Scraper.






(** A goroutine inside or just after [downloadImage] can move whenever
    [Start] is receiving. *)
Lemma worker_can_step (st : pipeline) (j : nat) (w : worker) :
  crashed st = None -> aggr st = A_Recv ->
  workers st !! j = Some w -> 0 < counted w ->
  canStep env s st.
Proof.
  intros Hc Haggr Hj Hw. exists (RunWorker j).
  unfold step, step_worker. rewrite Hc, Hj.
  destruct w as [d| | |]; cbn in Hw; [| | |lia].
  - destruct (dl_step env s (files st) d) as [ev d' files'| |]; eauto.
    destruct ev; eauto.
    destruct (pumpClosed st); eauto. rewrite Haggr. eauto.
  - destruct (sem st); eauto.
  - destruct (waitGroup st); eauto.
Qed.

(** A fetcher that has not returned can move whenever the dispatcher is
    receiving. *)
Lemma fetcher_can_step (st : pipeline) (i : nat) (f : fetcher) :
  crashed st = None -> disp st = D_Recv ->
  fetchers st !! i = Some f -> 0 < live f ->
  canStep env s st.
Proof.
  intros Hc Hdisp Hi Hf. exists (RunFetcher i).
  unfold step, step_fetcher. rewrite Hc, Hi.
  unfold live in Hf. destruct (f_pc f); try lia; eauto.
  - destruct (feedLinks env s (f_sub f)); eauto.
  - destruct (links !! k); [destruct (uniqueImageIds st !! f_sub f) | destruct (downloadWaitGroup st)];
      eauto.
  - destruct (queueClosed st); eauto. rewrite Hdisp. eauto.
Qed.

Lemma moves_until_done (fs : gset string) (st : pipeline) :
  (1 <= MaxConcurrentDownloads (scrapingOptions s))%Z ->
  reachable env s fs st ->
  crashed st = None ->
  (aggr st <> A_Done -> canStep env s st) /\
  (aggr st = A_Done -> forall l, step env s l st = None).
Proof.
  intros Hbound Hreach Hc.
  pose proof (sync_reachable env s fs st Hreach) as Hsync.
  split.
  - intros Hrun.
    destruct Hsync as [Hmwg Hjoin Hq Hwg Hsem Hle Hdrain Hpump Hafter Haggr Hcrash].
    destruct (aggr st) as [|msg|] eqn:Ea; [| |contradiction].
    2: { exists RunAggregator. unfold step, step_aggregator. rewrite Hc, Ea. eauto. }
    destruct (disp st) as [|img|img|img| | |] eqn:Ed.
    + (* the dispatcher is receiving *)
      destruct (meta st) as [i|i sub| | |] eqn:Em.
      * exists RunMeta. unfold step, step_meta. rewrite Hc, Em.
        destruct (_ !! i); eauto.
      * exists RunMeta. unfold step, step_meta. rewrite Hc, Em. eauto.
      * destruct (downloadWaitGroup st) as [|n] eqn:Ew.
        -- exists RunMeta. unfold step, step_meta. rewrite Hc, Em, Ew. eauto.
        -- destruct (total_pos live (fetchers st)) as (i & f & Hi & Hf);
             [cbn in Hmwg; lia|].
           eapply fetcher_can_step; eassumption.
      * exists RunMeta. unfold step, step_meta. rewrite Hc, Em. eauto.
      * exists RunDispatcher. unfold step, step_dispatcher. rewrite Hc, Ed, Hq. eauto.
    + exists RunDispatcher. unfold step, step_dispatcher. rewrite Hc, Ed. eauto.
    + (* the dispatcher is acquiring *)
      destruct (Z.of_nat (sem st) + 1 <=? MaxConcurrentDownloads (scrapingOptions s))%Z
        eqn:Efree.
      * exists RunDispatcher. unfold step, step_dispatcher. rewrite Hc, Ed, Efree. eauto.
      * apply Z.leb_gt in Efree.
        destruct (total_pos holds (workers st)) as (j & w & Hj & Hw);
          [cbn in Hsem; lia|].
        eapply worker_can_step; try eassumption.
        destruct w; cbn in *; lia.
    + exists RunDispatcher. unfold step, step_dispatcher. rewrite Hc, Ed. eauto.
    + (* the dispatcher is waiting for the workers *)
      destruct (waitGroup st) as [|n] eqn:Ew.
      * exists RunDispatcher. unfold step, step_dispatcher. rewrite Hc, Ed, Ew. eauto.
      * destruct (total_pos counted (workers st)) as (j & w & Hj & Hw);
          [cbn in Hwg; lia|].
        eapply worker_can_step; eassumption.
    + exists RunDispatcher. unfold step, step_dispatcher. rewrite Hc, Ed. eauto.
    + exists RunAggregator. unfold step, step_aggregator. rewrite Hc, Ea, Hpump. eauto.
  - intros Hdone l.
    destruct (pump_closed_all_over s st Hsync (sync_aggr _ _ Hsync Hdone))
      as (Hdisp & Hmeta & _ & Hworkers & Hfetchers).
    apply total_zero_Forall in Hworkers, Hfetchers.
    unfold step. rewrite Hc.
    destruct l as [|i| |j| |i j]; cbn.
    + unfold step_meta. now rewrite Hmeta.
    + unfold step_fetcher. destruct (fetchers st !! i) as [f|] eqn:Ei; [|reflexivity].
      pose proof (Forall_lookup_1 _ _ _ _ Hfetchers Ei) as Hf. cbn in Hf.
      now rewrite (live_zero f Hf).
    + unfold step_dispatcher. now rewrite Hdisp.
    + unfold step_worker. destruct (workers st !! j) as [w|] eqn:Ej; [|reflexivity].
      pose proof (Forall_lookup_1 _ _ _ _ Hworkers Ej) as Hw. cbn in Hw.
      now rewrite (counted_zero w Hw).
    + unfold step_aggregator. now rewrite Hdone.
    + unfold step_race. destruct (fetchers st !! i) as [f|] eqn:Ei; [|reflexivity].
      pose proof (Forall_lookup_1 _ _ _ _ Hfetchers Ei) as Hf. cbn in Hf.
      unfold conflict, marking. rewrite (live_zero f Hf). cbn.
      rewrite andb_false_r. now destruct (fetchers st !! j).
Qed.

(** X16: with a bound of at least one the pipeline cannot get stuck.  In
    every state of a run that has not crashed and in which [Start] has not
    left its loop, some goroutine can take a step; and once [Start] has left
    its loop, no goroutine is left that could. *)
Theorem no_deadlock (fs : gset string) (st : pipeline) :
  (1 <= MaxConcurrentDownloads (scrapingOptions s))%Z ->
  reachable env s fs st ->
  crashed st = None ->
  (aggr st <> A_Done -> canStep env s st) /\
  (aggr st = A_Done -> forall l, step env s l st = None).
Proof. apply moves_until_done. Qed.

End Health.

Section NoUnits.
Variable env : Env.
Variable s : Scraper.
Hypothesis no_units : (MaxConcurrentDownloads (scrapingOptions s) <= 0)%Z.

Lemma no_units_step (l : label) (st st' : pipeline) :
  workers st = [] /\ (forall img, disp st <> D_Go img) ->
  step env s l st = Some st' ->
  workers st' = [] /\ (forall img, disp st' <> D_Go img).
Proof.
  intros [Hws Hdisp] H.
  unfold step in H. destruct (crashed st) eqn:Hc; [discriminate|].
  destruct l; step_cases H; cbn; use_tests.
  all: try solve [ split; [assumption | intros ?; congruence] ].
  all: try solve [ lia | exfalso; eapply Hdisp; reflexivity ].
  all: rewrite Hws in *; discriminate.
Qed.

Lemma no_units_exec (schedule : list label) :
  forall st st',
    workers st = [] /\ (forall img, disp st <> D_Go img) ->
    exec env s schedule st = Some st' ->
    workers st' = [] /\ (forall img, disp st' <> D_Go img).
Proof.
  induction schedule as [|l rest IH]; intros st st' Hinv; simpl.
  - now intros [= <-].
  - destruct (step env s l st) as [st1|] eqn:E; [|discriminate].
    apply IH. eapply no_units_step; eassumption.
Qed.

Lemma no_units_reachable (fs : gset string) (st : pipeline) :
  reachable env s fs st -> workers st = [] /\ (forall img, disp st <> D_Go img).
Proof.
  intros [schedule H]. eapply no_units_exec; [|exact H].
  split; [reflexivity | discriminate].
Qed.

End NoUnits.

(** X17: with a bound of zero or less the semaphore never grants a unit.
    No worker goroutine is ever started and nothing is ever counted; the
    dispatcher that has received an image stays in [sem.Acquire]; and
    [Start] leaves its loop only in runs whose feeds provide no image at
    all. *)
Theorem zero_bound_starts_nothing (env : Env) (s : Scraper) (fs : gset string)
    (st : pipeline) :
  (MaxConcurrentDownloads (scrapingOptions s) <= 0)%Z ->
  reachable env s fs st ->
  workers st = [] /\ processed st = 0 /\ sem st = 0 /\
  (forall img, disp st = D_Acquire img -> step env s RunDispatcher st = None) /\
  (aggr st = A_Done -> expectedTotal env s = 0).
Proof.
  intros Hzero Hreach.
  destruct (no_units_reachable env s Hzero fs st Hreach) as [Hws Hgo].
  destruct (workers_bounds env s fs st Hreach) as [Hsum _].
  pose proof (sync_sem _ _ (sync_reachable env s fs st Hreach)) as Hsem.
  rewrite Hws in Hsum, Hsem. unfold total in Hsum, Hsem. cbn in Hsum, Hsem.
  assert (Hfree : sem st = 0).
  { destruct (disp st) eqn:Ed; cbn in Hsem; try lia. exfalso. eapply Hgo; reflexivity. }
  split; [assumption|]. split; [lia|]. split; [assumption|]. split.
  - intros img Hd. unfold step, step_dispatcher. rewrite Hd, Hfree.
    destruct (crashed st); [reflexivity|].
    destruct (Z.leb_spec (Z.of_nat 0 + 1) (MaxConcurrentDownloads (scrapingOptions s)));
      [lia | reflexivity].
  - intros Hdone.
    pose proof (finished_processed env s st (sync_reachable env s fs st Hreach)
                  (flow_reachable env s fs st Hreach) Hdone).
    lia.
Qed.

Lemma zero_bound_starts_nothing_witness :
  let env := friendlyEnv oneEntry in
  let st := run env noUnits 200 ∅ in
  (MaxConcurrentDownloads (scrapingOptions noUnits) <= 0)%Z /\
  reachable env noUnits ∅ st /\
  firstEnabled env noUnits st = None /\
  aggr st = A_Recv /\
  workers st = [] /\ processed st = 0.
Proof.
  intros env st.
  assert (Hzero : (MaxConcurrentDownloads (scrapingOptions noUnits) <= 0)%Z)
    by (vm_compute; discriminate).
  assert (Hreach : reachable env noUnits ∅ st).
  { exists (schedule_from env noUnits 200 (initial ∅)). vm_compute. reflexivity. }
  destruct (zero_bound_starts_nothing env noUnits ∅ st Hzero Hreach)
    as (Hws & Hnone & _).
  split; [exact Hzero|]. split; [exact Hreach|].
  split; [vm_compute; reflexivity|]. split; [vm_compute; reflexivity|].
  split; assumption.
Defined.

(** ** Every run ends *)

Lemma dl_step_decreases (env : Env) (s : Scraper) (files files' : gset string)
    (d d' : download) (ev : event) :
  dl_step env s files d = Stepped ev d' files' ->
  downloadSteps d' + (match ev with EvSend _ => 1 | _ => 0 end) < downloadSteps d.
Proof.
  unfold dl_step, downloadSteps. intros H.
  destruct (d_pc d) eqn:E; repeat step_case H; simplify_eq; cbn; try lia.
  all: rewrite ?E0; cbn; lia.
Qed.

Lemma total_drop {A : Type} (f : A -> nat) (l : list A) (i : nat) (x : A) :
  l !! i = Some x -> total f (drop i l) = f x + total f (drop (S i) l).
Proof. intros H. now rewrite (drop_S _ _ _ H). Qed.

Lemma total_drop_all {A : Type} (f : A -> nat) (l : list A) (i : nat) :
  l !! i = None -> total f (drop i l) = 0.
Proof. intros H. apply lookup_ge_None in H. now rewrite drop_ge. Qed.

Lemma length_drop_lookup {A : Type} (l : list A) (i : nat) (x : A) :
  l !! i = Some x -> length (drop i l) = S (length (drop (S i) l)).
Proof. intros H. now rewrite (drop_S _ _ _ H). Qed.

Section Termination.
Variable env : Env.
Variable s : Scraper.

Lemma step_decreases (l : label) (st st' : pipeline) :
  step env s l st = Some st' -> remaining env s st' < remaining env s st.
Proof.
  intros H. unfold step in H. destruct (crashed st) eqn:Hc; [discriminate|].
  destruct l; step_cases H; unfold remaining; cbn -[Nat.mul]; rewrite ?Hc.
  all: repeat match goal with
       | E : meta _ = _ |- _ => rewrite E
       | E : disp _ = _ |- _ => rewrite E
       | E : aggr _ = _ |- _ => rewrite E
       end; cbn -[Nat.mul].
  all: try lia.
  all: use_totals.
  all: repeat match goal with
       | E : dl_step _ _ _ _ = Stepped _ _ _ |- _ => apply dl_step_decreases in E
       | E : ?l !! ?i = Some _ |- context [total ?f (drop ?i ?l)] =>
           rewrite (total_drop f l i _ E)
       | E : ?l !! ?i = None |- context [total ?f (drop ?i ?l)] =>
           rewrite (total_drop_all f l i E)
       | E : ?l !! ?i = Some _ |- context [length (drop ?i ?l)] =>
           rewrite (length_drop_lookup l i _ E)
       end.
  all: unfold fetcherSteps, workerSteps, feedSteps, scheduledCount in *;
       cbn -[Nat.mul] in *; use_pcs.
  all: repeat match goal with
       | H : feedLinks _ _ _ = Ok _ |- _ => rewrite H in *
       end.
  all: rewrite ?drop_0.
  all: try match goal with
       | E : ?l !! ?i = Some _ |- context [length (drop ?i ?l)] =>
           rewrite (length_drop_lookup l i _ E) in *
       end.
  all: lia.
Qed.

Lemma exec_decreases (schedule : list label) :
  forall st st',
    exec env s schedule st = Some st' ->
    length schedule + remaining env s st' <= remaining env s st.
Proof.
  induction schedule as [|l rest IH]; intros st st'; simpl.
  - intros [= <-]. lia.
  - destruct (step env s l st) as [st1|] eqn:E; [|discriminate].
    intros H. specialize (IH _ _ H). apply step_decreases in E. lia.
Qed.

Lemma total_feedSteps (subs : list string) :
  total (feedSteps env s) subs =
  8 * length subs + 20 * total (scheduledCount env s) subs.
Proof.
  unfold total. induction subs as [|sub subs IH]; [reflexivity|].
  cbn [sum_list_with length]. rewrite IH. unfold feedSteps. lia.
Qed.

Lemma remaining_initial (fs : gset string) :
  remaining env s (initial fs) = longestRun env s.
Proof.
  unfold remaining, longestRun, expectedTotal.
  cbn [crashed meta fetchers disp workers aggr initial metaSteps dispSteps aggrSteps].
  rewrite drop_0, total_feedSteps. unfold total at 2 3. cbn [sum_list_with]. lia.
Qed.

(** X18: no run goes on for ever.  Every transition lowers the count of
    the steps the goroutines still have before them, so a run over n feeds
    that provide T images in all has at most 8 + 8 n + 20 T transitions. *)
Theorem every_run_is_bounded (fs : gset string) (schedule : list label)
    (st : pipeline) :
  exec env s schedule (initial fs) = Some st ->
  length schedule + remaining env s st <= longestRun env s /\
  longestRun env s =
    8 + 8 * length (Subreddits (scrapingOptions s)) + 20 * expectedTotal env s.
Proof.
  intros H. split; [|reflexivity].
  rewrite <- (remaining_initial fs). now apply exec_decreases.
Qed.

End Termination.

Section Scheduler.
Variable env : Env.
Variable s : Scraper.

Lemma exec_snoc (schedule : list label) (l : label) :
  forall st st1 st2,
    exec env s schedule st = Some st1 ->
    step env s l st1 = Some st2 ->
    exec env s (schedule ++ [l]) st = Some st2.
Proof.
  induction schedule as [|l0 rest IH]; intros st st1 st2; simpl.
  - intros [= <-] ->. reflexivity.
  - destruct (step env s l0 st) as [st0|]; [|discriminate]. apply IH.
Qed.

Lemma reachable_step (fs : gset string) (l : label) (st st' : pipeline) :
  reachable env s fs st -> step env s l st = Some st' -> reachable env s fs st'.
Proof.
  intros [schedule H] Hstep. exists (schedule ++ [l]). eapply exec_snoc; eassumption.
Qed.

Lemma firstEnabled_some (st : pipeline) (l : label) :
  firstEnabled env s st = Some l -> is_Some (step env s l st).
Proof.
  unfold firstEnabled. intros H. apply find_some in H as [_ H].
  now apply bool_decide_eq_true in H.
Qed.

(** Where the runtime could see a race, the first of the two fetchers can
    do its write. *)
Lemma race_fetcher_moves (st st' : pipeline) (i j : nat) :
  crashed st = None -> step_race i j st = Some st' ->
  is_Some (step env s (RunFetcher i) st).
Proof.
  intros Hc. unfold step, step_race, step_fetcher. rewrite Hc.
  destruct (fetchers st !! i) as [f|]; [|discriminate].
  destruct (fetchers st !! j) as [g|]; [|discriminate].
  unfold conflict, marking.
  destruct (f_pc f) as [| | | | |links k| |];
    try (rewrite andb_false_r; discriminate).
  destruct (links !! k) as [image|]; [|rewrite andb_false_r; discriminate].
  intros _. destruct (uniqueImageIds st !! f_sub f); eauto.
Qed.

Lemma firstEnabled_none (st : pipeline) :
  firstEnabled env s st = None -> forall l, step env s l st = None.
Proof.
  unfold firstEnabled. intros H l.
  destruct (step env s l st) as [st'|] eqn:E; [|reflexivity]. exfalso.
  assert (Hin : exists l', is_Some (step env s l' st) /\
                  In l' ([RunAggregator; RunDispatcher; RunMeta]
                           ++ (RunWorker <$> seq 0 (length (workers st)))
                           ++ (RunFetcher <$> seq 0 (length (fetchers st))))).
  { assert (Hfetch : forall i, is_Some (step env s (RunFetcher i) st) ->
              In (RunFetcher i) ([RunAggregator; RunDispatcher; RunMeta]
                           ++ (RunWorker <$> seq 0 (length (workers st)))
                           ++ (RunFetcher <$> seq 0 (length (fetchers st))))).
    { intros i [st1 Hi]. cbn. do 3 right. apply in_or_app. right.
      apply list_elem_of_In, list_elem_of_fmap. exists i. split; [reflexivity|].
      apply list_elem_of_In, in_seq. unfold step, step_fetcher in Hi.
      destruct (crashed st); [discriminate|].
      destruct (fetchers st !! i) eqn:Ei; [|discriminate].
      apply lookup_lt_Some in Ei. lia. }
    pose proof E as E'. unfold step in E. destruct (crashed st) eqn:Hc; [discriminate|].
    destruct l as [|i| |j| |i j].
    - exists RunMeta. split; [eauto | cbn; auto].
    - exists (RunFetcher i). split; [eauto | apply Hfetch; eauto].
    - exists RunDispatcher. split; [eauto | cbn; auto].
    - exists (RunWorker j). split; [eauto|]. cbn. do 3 right. apply in_or_app. left.
      apply list_elem_of_In, list_elem_of_fmap. exists j. split; [reflexivity|].
      apply list_elem_of_In, in_seq. unfold step_worker in E.
      destruct (workers st !! j) eqn:Ej; [|discriminate].
      apply lookup_lt_Some in Ej. lia.
    - exists RunAggregator. split; [eauto | cbn; auto].
    - pose proof (race_fetcher_moves st st' i j Hc E) as Hmove.
      exists (RunFetcher i). split; [exact Hmove | now apply Hfetch]. }
  destruct Hin as (l' & Hsome & Hin).
  pose proof (find_none _ _ H l' Hin) as Hnone. cbn beta in Hnone.
  apply bool_decide_eq_false in Hnone. now apply Hnone.
Qed.

Lemma schedule_from_ends (fs : gset string) :
  (1 <= MaxConcurrentDownloads (scrapingOptions s))%Z ->
  forall fuel st,
    reachable env s fs st -> remaining env s st <= fuel ->
    exists st',
      exec env s (schedule_from env s fuel st) st = Some st' /\
      reachable env s fs st' /\ ended st'.
Proof.
  intros Hbound. induction fuel as [|fuel IH]; intros st Hreach Hfuel.
  - exists st. split; [reflexivity|]. split; [assumption|].
    left. unfold remaining in Hfuel. destruct (crashed st); [eauto | lia].
  - cbn [schedule_from].
    destruct (firstEnabled env s st) as [l|] eqn:Ef.
    + destruct (firstEnabled_some st l Ef) as [st1 Hstep]. rewrite Hstep.
      cbn [exec]. rewrite Hstep. apply IH.
      * eapply reachable_step; eassumption.
      * apply step_decreases in Hstep. lia.
    + exists st. split; [reflexivity|]. split; [assumption|].
      pose proof (firstEnabled_none st Ef) as Hnone.
      destruct (crashed st) as [p|] eqn:Hc; [left; rewrite Hc; eauto|].
      right. destruct (aggr st) eqn:Ea; [| |reflexivity]; exfalso.
      all: destruct (moves_until_done env s fs st Hbound Hreach Hc) as [Hmove _].
      all: destruct Hmove as (l & st' & Hstep); [congruence|].
      all: rewrite Hnone in Hstep; discriminate.
Qed.

(** X19: with a bound of at least one, the scheduler that always runs the
    first goroutine able to move brings every run to its end, with the
    summary of [Start] or abnormally, within 8 + 8 n + 20 T transitions; in
    the state it ends in no goroutine can move. *)
Theorem scheduler_finishes (fs : gset string) (fuel : nat) :
  (1 <= MaxConcurrentDownloads (scrapingOptions s))%Z ->
  longestRun env s <= fuel ->
  let st := run env s fuel fs in
  reachable env s fs st /\ ended st /\
  length (schedule_from env s fuel (initial fs)) <= longestRun env s /\
  forall l, step env s l st = None.
Proof.
  intros Hbound Hfuel. cbv zeta. unfold run.
  destruct (schedule_from_ends fs Hbound fuel (initial fs)) as (st & Hrun & Hreach & Hend).
  - exists []. reflexivity.
  - now rewrite remaining_initial.
  - rewrite Hrun. cbn [default from_option Datatypes.id]. split; [assumption|]. split; [assumption|]. split.
    + pose proof (exec_decreases env s _ _ _ Hrun) as Hlen.
      rewrite remaining_initial in Hlen. lia.
    + intros l. destruct Hend as [[p Hp]|Hdone].
      * unfold step. now rewrite Hp.
      * destruct (crashed st) as [p|] eqn:Hc; [unfold step; now rewrite Hc|].
        now apply (moves_until_done env s fs st Hbound Hreach Hc).
Qed.

End Scheduler.

Lemma every_run_is_bounded_witness :
  let env := friendlyEnv oneEntry in
  let schedule := schedule_from env oneFeed 200 (initial ∅) in
  exec env oneFeed schedule (initial ∅) = Some (run env oneFeed 200 ∅) /\
  length schedule = 34 /\
  length schedule + remaining env oneFeed (run env oneFeed 200 ∅)
    <= longestRun env oneFeed.
Proof.
  intros env schedule.
  assert (Hrun : exec env oneFeed schedule (initial ∅) = Some (run env oneFeed 200 ∅))
    by (vm_compute; reflexivity).
  split; [exact Hrun|]. split; [vm_compute; reflexivity|].
  apply (every_run_is_bounded env oneFeed ∅ schedule _ Hrun).
Defined.

Lemma scheduler_finishes_witness :
  let env := friendlyEnv twoEntries in
  (1 <= MaxConcurrentDownloads (scrapingOptions twoFeeds))%Z /\
  longestRun env twoFeeds <= 104 /\
  ended (run env twoFeeds 104 ∅) /\
  aggr (run env twoFeeds 104 ∅) = A_Done.
Proof.
  intros env.
  assert (Hbound : (1 <= MaxConcurrentDownloads (scrapingOptions twoFeeds))%Z)
    by (vm_compute; discriminate).
  assert (Hfuel : longestRun env twoFeeds <= 104) by (vm_compute; lia).
  split; [exact Hbound|]. split; [exact Hfuel|].
  split; [|vm_compute; reflexivity].
  apply (scheduler_finishes env twoFeeds ∅ 104 Hbound Hfuel).
Defined.

(** ** What a run never undoes *)

(** X20: nothing is undone in a run.  No transition deletes a file, removes
    an id from an id set or an id set from the map, reopens a channel,
    lowers a counter or forgets a goroutine. *)
Theorem nothing_is_undone (env : Env) (s : Scraper) (schedule : list label)
    (st st' : pipeline) :
  exec env s schedule st = Some st' ->
  files st ⊆ files st' /\
  ids_grow (uniqueImageIds st) (uniqueImageIds st') /\
  downloaded st <= downloaded st' /\ skipped st <= skipped st' /\
  failed st <= failed st' /\
  (queueClosed st = true -> queueClosed st' = true) /\
  (pumpClosed st = true -> pumpClosed st' = true) /\
  length (fetchers st) <= length (fetchers st') /\
  length (workers st) <= length (workers st').
Proof. apply exec_keeps. Qed.

Lemma nothing_is_undone_witness :
  let env := friendlyEnv oneEntry in
  let st := run env oneFeed 200 ∅ in
  exec env oneFeed (schedule_from env oneFeed 200 (initial ∅)) (initial ∅) = Some st /\
  files st = {[ "/out"; "/out/pics"; "/out/pics/a.jpg" ]} /\
  files (initial ∅) ⊆ files st.
Proof.
  intros env st.
  assert (Hrun : exec env oneFeed (schedule_from env oneFeed 200 (initial ∅))
                   (initial ∅) = Some st) by (vm_compute; reflexivity).
  split; [exact Hrun|]. split; [vm_compute; reflexivity|].
  apply (nothing_is_undone env oneFeed _ _ _ Hrun).
Defined.

(** X21: the three counters of [Start] are changed by the loop of [Start]
    alone, and by one transition at most one of them goes up, by one. *)
Theorem counters_step (env : Env) (s : Scraper) (l : label) (st st' : pipeline) :
  step env s l st = Some st' ->
  downloaded st <= downloaded st' /\ skipped st <= skipped st' /\
  failed st <= failed st' /\
  processed st' <= processed st + 1 /\
  (l <> RunAggregator ->
     downloaded st' = downloaded st /\ skipped st' = skipped st /\
     failed st' = failed st).
Proof.
  intros H.
  destruct (step_keeps env s l st st' H) as (_ & _ & Hd & Hs & Hf & Hone & Hsame & _).
  do 4 (split; [assumption|]).
  intros Hl. specialize (Hsame Hl). unfold processed in Hsame. lia.
Qed.

Lemma counters_step_witness :
  let env := friendlyEnv oneEntry in
  step env oneFeed RunMeta (initial ∅) =
    Some (set_meta (M_Go 0 "pics") (set_downloadWaitGroup 1 (initial ∅))) /\
  processed (set_meta (M_Go 0 "pics") (set_downloadWaitGroup 1 (initial ∅))) <= 0 + 1.
Proof.
  intros env.
  assert (Hstep : step env oneFeed RunMeta (initial ∅) =
                  Some (set_meta (M_Go 0 "pics") (set_downloadWaitGroup 1 (initial ∅))))
    by reflexivity.
  split; [exact Hstep|].
  apply (counters_step env oneFeed RunMeta _ _ Hstep).
Defined.

(** ** More on the id sets *)

Lemma recorded_grow (ids ids' : gmap string (gmap string bool)) (sub id : string) :
  ids_grow ids ids' -> recorded ids sub id -> recorded ids' sub id.
Proof.
  intros Hgrow (seen & Hseen & Hid).
  destruct (Hgrow _ _ Hseen) as (seen' & Hseen' & Hkeep).
  exists seen'. auto.
Qed.

Lemma records_grow (env : Env) (s : Scraper)
    (ids ids' : gmap string (gmap string bool)) (f : fetcher) :
  ids_grow ids ids' -> records env s ids f -> records env s ids' f.
Proof.
  unfold records. intros Hgrow.
  destruct (f_pc f); try tauto; intros H; intros;
    eapply recorded_grow; try eassumption; eapply H; eassumption.
Qed.

Section Records.
Variable env : Env.
Variable s : Scraper.

Lemma records_step (l : label) (st st' : pipeline) :
  flow_inv env s st ->
  Forall (records env s (uniqueImageIds st)) (fetchers st) ->
  step env s l st = Some st' ->
  Forall (records env s (uniqueImageIds st')) (fetchers st').
Proof.
  intros [Hok _ _ _ _] Hrec H.
  assert (Hmono : Forall (records env s (uniqueImageIds st')) (fetchers st)).
  { eapply Forall_impl; [exact Hrec|]. intros f. apply records_grow.
    eapply step_keeps, H. }
  unfold step in H. destruct (crashed st) eqn:Hc; [discriminate|].
  destruct l; step_cases H; cbn in *; try assumption.
  all: use_foralls.
  all: unfold records, fetcher_ok in *; cbn in *; use_pcs; try exact I.
  - (* the loop starts *) intros; lia.
  - (* the id is written *)
    intros j raw Hj Hraw. destruct (decide (j = k)) as [->|Hne].
    + rewrite E1 in Hraw. injection Hraw as <-.
      eexists. split; [apply lookup_insert_eq | apply lookup_insert_eq].
    + assert (j < k) by lia. eauto.
  - (* the loop ends *)
    intros links' raw Hfeed Hin.
    match goal with H : feedLinks _ _ _ = Ok links /\ _ |- _ => destruct H as [Hlinks Hk] end.
    rewrite Hlinks in Hfeed. injection Hfeed as <-.
    apply list_elem_of_lookup in Hin as [j Hj].
    apply lookup_ge_None in E1. pose proof (lookup_lt_Some _ _ _ Hj).
    assert (j < k) by lia. eauto.
  - (* the image is sent *)
    intros j raw Hj Hraw. assert (j <= k) by lia. eauto.
Qed.

Lemma records_exec (schedule : list label) :
  forall st st',
    flow_inv env s st ->
    Forall (records env s (uniqueImageIds st)) (fetchers st) ->
    exec env s schedule st = Some st' ->
    Forall (records env s (uniqueImageIds st')) (fetchers st').
Proof.
  induction schedule as [|l rest IH]; intros st st' Hflow Hinv; simpl.
  - now intros [= <-].
  - destruct (step env s l st) as [st1|] eqn:E; [|discriminate].
    apply IH.
    + eapply flow_step; eassumption.
    + eapply records_step; eassumption.
Qed.

(** X22: the id sets are complete.  Once the download queue is closed, the
    id of every image that any configured feed provided is in the id set of
    that feed. *)
Theorem id_sets_complete (fs : gset string) (st : pipeline)
    (sub : string) (links : list Image) (raw : Image) :
  reachable env s fs st ->
  queueClosed st = true ->
  sub ∈ Subreddits (scrapingOptions s) ->
  feedLinks env s sub = Ok links ->
  raw ∈ links ->
  exists seen,
    uniqueImageIds st !! sub = Some seen /\ seen !! imageId raw = Some true.
Proof.
  intros Hreach Hclosed Hsub Hfeed Hraw.
  pose proof (sync_reachable env s fs st Hreach) as Hsync.
  pose proof (flow_reachable env s fs st Hreach) as Hflow.
  assert (Hrec : Forall (records env s (uniqueImageIds st)) (fetchers st)).
  { destruct Hreach as [schedule H].
    eapply records_exec; [apply flow_initial | constructor | exact H]. }
  pose proof (sync_queue _ _ Hsync) as Hq. pose proof (sync_joined _ _ Hsync) as Hjoin.
  pose proof (flow_spawned _ _ _ Hflow) as Hsp.
  rewrite Hclosed in Hq. destruct (meta st); try discriminate.
  cbn in Hsp. rewrite firstn_all in Hsp.
  rewrite <- Hsp in Hsub. apply list_elem_of_fmap in Hsub as (f & -> & Hf).
  apply list_elem_of_lookup in Hf as [i Hi].
  pose proof (Forall_lookup_1 _ _ _ _ Hrec Hi) as Hrecf.
  pose proof (Forall_lookup_1 _ _ _ _ (total_zero_Forall _ _ Hjoin) Hi) as Hdone.
  cbn in Hdone. unfold records in Hrecf. rewrite (live_zero f Hdone) in Hrecf.
  exact (Hrecf links raw Hfeed Hraw).
Qed.

End Records.

Lemma id_sets_complete_witness :
  let env := friendlyEnv oneEntry in
  let st := run env oneFeed 200 ∅ in
  reachable env oneFeed ∅ st /\
  queueClosed st = true /\
  feedLinks env oneFeed "pics" = Ok [imageOf "a" ".jpg"] /\
  exists seen,
    uniqueImageIds st !! "pics" = Some seen /\ seen !! "a" = Some true.
Proof.
  intros env st.
  assert (Hreach : reachable env oneFeed ∅ st).
  { exists (schedule_from env oneFeed 200 (initial ∅)). vm_compute. reflexivity. }
  assert (Hclosed : queueClosed st = true) by (vm_compute; reflexivity).
  assert (Hfeed : feedLinks env oneFeed "pics" = Ok [imageOf "a" ".jpg"]) by reflexivity.
  split; [exact Hreach|]. split; [exact Hclosed|]. split; [exact Hfeed|].
  apply (id_sets_complete env oneFeed ∅ st "pics" [imageOf "a" ".jpg"]
           (imageOf "a" ".jpg") Hreach Hclosed).
  - left.
  - exact Hfeed.
  - left.
Defined.

(** ** Where the images come from and go to *)

Lemma ancestorsFrom_self (rest seen : string) :
  seen +:+ rest ∈ ancestorsFrom seen rest.
Proof.
  revert seen. induction rest as [|c rest IH]; intros seen; cbn [ancestorsFrom].
  - rewrite append_empty_r. left.
  - specialize (IH (seen +:+ String c EmptyString)).
    rewrite append_assoc in IH. cbn in IH.
    destruct (_ && _); [right|]; exact IH.
Qed.

Lemma MkdirAll_self (dir : string) (files : gset string) : dir ∈ MkdirAll dir files.
Proof.
  unfold MkdirAll. apply elem_of_union_r, elem_of_list_to_set.
  apply (ancestorsFrom_self dir EmptyString).
Qed.

Lemma dirReady_grow (env : Env) (s : Scraper) (files files' : gset string) (sub : string) :
  files ⊆ files' -> dirReady env s files sub -> dirReady env s files' sub.
Proof. unfold dirReady. intros Hsub [H|H]; [left; now apply Hsub | now right]. Qed.

Lemma queued_grow (env : Env) (s : Scraper) (files files' : gset string) (img : Image) :
  files ⊆ files' -> queued env s files img -> queued env s files' img.
Proof. intros Hsub [Hp Hd]. split; [assumption | eapply dirReady_grow; eassumption]. Qed.

Lemma placed_grow (env : Env) (s : Scraper) (files files' : gset string) (w : worker) :
  files ⊆ files' -> placed env s files w -> placed env s files' w.
Proof.
  intros Hsub. destruct w as [d| | |]; cbn; try tauto.
  intros (img & Hq & Hd). exists img. split; [eapply queued_grow; eassumption | assumption].
Qed.

Lemma prepared_grow (env : Env) (s : Scraper) (files files' : gset string) (f : fetcher) :
  files ⊆ files' -> prepared env s files f -> prepared env s files' f.
Proof.
  unfold prepared. intros Hsub. destruct (f_pc f); try tauto; now apply dirReady_grow.
Qed.

Lemma dl_step_placed (env : Env) (s : Scraper) (files files' : gset string)
    (d d' : download) (ev : event) :
  dl_step env s files d = Stepped ev d' files' ->
  placed env s files (W_Run d) -> placed env s files' (W_Run d').
Proof.
  intros H (img & Hq & Hd). exists img.
  split; [eapply queued_grow; [eapply dl_step_files; exact H | exact Hq]|].
  unfold dl_step in H.
  destruct (d_pc d) eqn:E; repeat step_case H; simplify_eq; cbn; try assumption.
  split; reflexivity.
Qed.

Lemma dl_step_send_files (env : Env) (s : Scraper) (files files' : gset string)
    (d d' : download) (u : updateState) :
  dl_step env s files d = Stepped (EvSend u) d' files' -> files' = files.
Proof.
  unfold dl_step. intros H.
  destruct (d_pc d); repeat step_case H; simplify_eq; reflexivity.
Qed.

Section Places.
Variable env : Env.
Variable s : Scraper.

Lemma place_initial (fs : gset string) : place_inv env s (initial fs).
Proof. constructor; cbn; auto. Qed.

Lemma place_step (l : label) (st st' : pipeline) :
  flow_inv env s st -> place_inv env s st ->
  step env s l st = Some st' -> place_inv env s st'.
Proof.
  intros Hflow [Hfs Hdisp Hws] H.
  pose proof (fetcher_sub_known env s st) as Hknown.
  specialize (fun i f => Hknown i f Hflow).
  destruct Hflow as [Hok _ _ _ _].
  assert (Hgrow : files st ⊆ files st') by (eapply step_keeps; exact H).
  assert (Hfs' : Forall (prepared env s (files st')) (fetchers st)).
  { eapply Forall_impl; [exact Hfs|]. intros f. now apply prepared_grow. }
  assert (Hws' : Forall (placed env s (files st')) (workers st)).
  { eapply Forall_impl; [exact Hws|]. intros w. now apply placed_grow. }
  assert (Hdisp' : match disp st with
                   | D_Add img | D_Acquire img | D_Go img => queued env s (files st') img
                   | _ => True
                   end).
  { destruct (disp st); try exact I; eapply queued_grow; eassumption. }
  clear Hgrow.
  unfold step in H. destruct (crashed st) eqn:Hc; [discriminate|].
  destruct l; step_cases H; cbn in *.
  all: constructor; cbn; try assumption; try exact I.
  all: use_foralls.
  all: try assumption; try exact I.
  all: unfold prepared, fetcher_ok in *; cbn in *; use_pcs; try assumption; try exact I.
  all: try solve [ eapply dl_step_placed; eassumption ].
  all: try solve [ match goal with
                   | E : dl_step _ _ _ _ = Stepped (EvSend _) _ _ |- _ =>
                       pose proof (dl_step_send_files _ _ _ _ _ _ _ E); subst;
                       eapply dl_step_placed; eassumption
                   end ].
  all: try solve [ unfold dirReady;
                   repeat match goal with
                   | E : bool_decide _ = true |- _ => apply bool_decide_eq_true in E
                   end;
                   first [ left; assumption | left; apply MkdirAll_self
                         | right; assumption ] ].
  - (* [os.Stat] found the directory, or failed in another way *)
    unfold dirReady. apply orb_true_iff in E1 as [E1|E1].
    + left. now apply bool_decide_eq_true in E1.
    + right. now apply blocked_mkdir.
  - (* the image is handed over *)
    match goal with H : _ /\ _ |- _ => destruct H as (Hlinks & raw & Hraw & ->) end.
    split; [|assumption].
    exists (f_sub f), links, raw. repeat split; eauto.
    eapply list_elem_of_lookup_2, Hraw.
  - (* the worker is started *)
    exists img. split; [assumption | reflexivity].
Qed.

Lemma place_exec (schedule : list label) :
  forall st st',
    flow_inv env s st -> place_inv env s st ->
    exec env s schedule st = Some st' -> place_inv env s st'.
Proof.
  induction schedule as [|l rest IH]; intros st st' Hflow Hinv; simpl.
  - now intros [= <-].
  - destruct (step env s l st) as [st1|] eqn:E; [|discriminate].
    apply IH.
    + eapply flow_step; eassumption.
    + eapply place_step; eassumption.
Qed.

Lemma place_reachable (fs : gset string) (st : pipeline) :
  reachable env s fs st -> place_inv env s st.
Proof.
  intros [schedule H].
  eapply place_exec; [apply flow_initial | apply place_initial | exact H].
Qed.

End Places.

Section PlaceTheorems.
Variable env : Env.
Variable s : Scraper.

(** X23: the directory of a feed is dealt with before any of its images is
    queued.  Whenever a fetcher is sending an image, the dispatcher holds
    one, or a worker is downloading one, the directory of the image's feed
    exists, unless [os.MkdirAll] failed for it, which the fetcher
    ignores. *)
Theorem feed_directory_before_queue (fs : gset string) (st : pipeline) :
  reachable env s fs st ->
  (forall i f links k image,
      fetchers st !! i = Some f -> f_pc f = F_Send links k image ->
      dirReady env s (files st) (f_sub f)) /\
  (forall img,
      disp st = D_Add img \/ disp st = D_Acquire img \/ disp st = D_Go img ->
      dirReady env s (files st) (subreddit img)) /\
  (forall j d,
      workers st !! j = Some (W_Run d) ->
      dirReady env s (files st) (subreddit (d_img d))).
Proof.
  intros Hreach. destruct (place_reachable env s fs st Hreach) as [Hfs Hdisp Hws].
  split; [|split].
  - intros i f links k image Hi Hpc.
    pose proof (Forall_lookup_1 _ _ _ _ Hfs Hi) as H.
    unfold prepared in H. now rewrite Hpc in H.
  - intros img [H|[H|H]]; rewrite H in Hdisp; apply Hdisp.
  - intros j d Hj.
    pose proof (Forall_lookup_1 _ _ _ _ Hws Hj) as (img & [_ Hdir] & Hd).
    destruct (d_pc d).
    1: { subst d. exact Hdir. }
    all: destruct Hd as [-> _]; exact Hdir.
Qed.

(** X24: workers download what the feeds provided, and nothing else.  The
    image of every worker is an image of a configured feed, with the feed's
    name as its subreddit; on entry the worker has the feed's directory
    below the output directory, and from then on its link is the rewritten
    link and the path it checks and creates is the path expected for that
    image. *)
Theorem workers_download_provided_images (fs : gset string) (st : pipeline)
    (j : nat) (d : download) :
  reachable env s fs st ->
  workers st !! j = Some (W_Run d) ->
  exists sub links raw,
    sub ∈ Subreddits (scrapingOptions s) /\
    feedLinks env s sub = Ok links /\ raw ∈ links /\
    subreddit (d_img d) = sub /\
    (d_pc d = AtEntry ->
       d_img d = set_subreddit sub raw /\
       d_outDir d = Join [OutputDirectory (scrapingOptions s); sub]) /\
    (d_pc d <> AtEntry ->
       link (d_img d) = rewriteLink (link raw) /\
       d_path d = expectedPath s (set_subreddit sub raw)).
Proof.
  intros Hreach Hj.
  destruct (place_reachable env s fs st Hreach) as [_ _ Hws].
  pose proof (Forall_lookup_1 _ _ _ _ Hws Hj) as (img & [Hprov _] & Hd).
  destruct Hprov as (sub & links & raw & Hsub & Hfeed & Hraw & ->).
  exists sub, links, raw. do 3 (split; [assumption|]).
  destruct (d_pc d) eqn:Hpc.
  1: { subst d. cbn. split; [reflexivity|].
       split; [intros _; split; reflexivity | congruence]. }
  all: destruct Hd as [Himg Hpath]; rewrite Himg; cbn.
  all: split; [reflexivity|]; split; [discriminate|]; intros _; split;
       [reflexivity | assumption].
Qed.

End PlaceTheorems.

Lemma feed_directory_before_queue_witness :
  let env := friendlyEnv twoEntries in
  let st := run env twoFeeds 40 ∅ in
  reachable env twoFeeds ∅ st /\
  workers st !! 1 = Some (W_Run sampleDownload) /\
  dirReady env twoFeeds (files st) "pics".
Proof.
  intros env st.
  assert (Hreach : reachable env twoFeeds ∅ st).
  { exists (schedule_from env twoFeeds 40 (initial ∅)). vm_compute. reflexivity. }
  assert (Hj : workers st !! 1 = Some (W_Run sampleDownload)) by (vm_compute; reflexivity).
  split; [exact Hreach|]. split; [exact Hj|].
  apply (proj2 (proj2 (feed_directory_before_queue env twoFeeds ∅ st Hreach))
           1 sampleDownload Hj).
Defined.

Lemma workers_download_provided_images_witness :
  let env := friendlyEnv twoEntries in
  let st := run env twoFeeds 40 ∅ in
  reachable env twoFeeds ∅ st /\
  workers st !! 1 = Some (W_Run sampleDownload) /\
  exists sub links raw,
    sub ∈ Subreddits (scrapingOptions twoFeeds) /\
    feedLinks env twoFeeds sub = Ok links /\ raw ∈ links /\
    subreddit (d_img sampleDownload) = sub /\
    (d_pc sampleDownload = AtEntry ->
       d_img sampleDownload = set_subreddit sub raw /\
       d_outDir sampleDownload =
         Join [OutputDirectory (scrapingOptions twoFeeds); sub]) /\
    (d_pc sampleDownload <> AtEntry ->
       link (d_img sampleDownload) = rewriteLink (link raw) /\
       d_path sampleDownload = expectedPath twoFeeds (set_subreddit sub raw)).
Proof.
  intros env st.
  assert (Hreach : reachable env twoFeeds ∅ st).
  { exists (schedule_from env twoFeeds 40 (initial ∅)). vm_compute. reflexivity. }
  assert (Hj : workers st !! 1 = Some (W_Run sampleDownload)) by (vm_compute; reflexivity).
  split; [exact Hreach|]. split; [exact Hj|].
  apply (workers_download_provided_images env twoFeeds ∅ st 1 sampleDownload Hreach Hj).
Defined.

(** ** More on the maximum of the progress bar *)

Lemma credited_le_scheduled (env : Env) (s : Scraper) (f : fetcher) :
  fetcher_ok env s f -> credited env s f <= scheduledCount env s (f_sub f).
Proof.
  unfold fetcher_ok, credited, scheduledCount.
  destruct (f_pc f); try lia.
  - now intros [-> _].
  - now intros [-> _].
Qed.

Lemma maxRead_grow (bound bound' : nat) (f : fetcher) :
  bound <= bound' -> maxRead bound f -> maxRead bound' f.
Proof. unfold maxRead. destruct (f_pc f); try tauto. lia. Qed.

Section ProgressBounds.
Variable env : Env.
Variable s : Scraper.

Lemma credited_step (l : label) (st st' : pipeline) :
  flow_inv env s st ->
  step env s l st = Some st' ->
  total (credited env s) (fetchers st) <= total (credited env s) (fetchers st').
Proof.
  intros [Hok _ _ _ _] H.
  unfold step in H. destruct (crashed st) eqn:Hc; [discriminate|].
  destruct l; step_cases H; cbn; try lia.
  all: use_foralls; use_totals.
  all: unfold fetcher_ok, credited, scheduledCount in *; cbn in *; use_pcs.
  all: repeat match goal with
       | H : _ /\ _ |- _ => destruct H
       | H : feedLinks _ _ _ = Ok _ |- _ => rewrite H in *
       end.
  all: lia.
Qed.

Lemma progress_step (l : label) (st st' : pipeline) :
  flow_inv env s st ->
  1 <= progressMax st <= 1 + total (credited env s) (fetchers st) /\
  Forall (maxRead (1 + total (credited env s) (fetchers st))) (fetchers st) ->
  step env s l st = Some st' ->
  1 <= progressMax st' <= 1 + total (credited env s) (fetchers st') /\
  Forall (maxRead (1 + total (credited env s) (fetchers st'))) (fetchers st').
Proof.
  intros Hflow [Hmax Hread] H.
  pose proof (credited_step l st st' Hflow H) as Hgrow.
  assert (Hread' : Forall (maxRead (1 + total (credited env s) (fetchers st')))
                          (fetchers st)).
  { eapply Forall_impl; [exact Hread|]. intros f. apply maxRead_grow. lia. }
  unfold step in H. destruct (crashed st) eqn:Hc; [discriminate|].
  destruct l; step_cases H; cbn in *.
  all: split; [try lia|].
  all: use_foralls; try assumption.
  all: unfold maxRead in *; cbn in *; use_pcs; try exact I; try lia.
  all: use_totals; unfold credited in *; cbn in *; use_pcs; try lia.
Qed.

Lemma progress_exec (schedule : list label) :
  forall st st',
    flow_inv env s st ->
    1 <= progressMax st <= 1 + total (credited env s) (fetchers st) /\
    Forall (maxRead (1 + total (credited env s) (fetchers st))) (fetchers st) ->
    exec env s schedule st = Some st' ->
    1 <= progressMax st' <= 1 + total (credited env s) (fetchers st') /\
    Forall (maxRead (1 + total (credited env s) (fetchers st'))) (fetchers st').
Proof.
  induction schedule as [|l rest IH]; intros st st' Hflow Hinv; simpl.
  - now intros [= <-].
  - destruct (step env s l st) as [st1|] eqn:E; [|discriminate].
    apply IH.
    + eapply flow_step; eassumption.
    + eapply progress_step; eassumption.
Qed.

(** X25: for any number of feeds, the maximum of the progress bar stays
    between 1 and one more than the number of images the feeds provide; so
    the total that the summary of [Start] prints is never more than one
    above the number of images processed. *)
Theorem progress_maximum_bounds (fs : gset string) (st : pipeline) :
  reachable env s fs st ->
  1 <= progressMax st <= 1 + expectedTotal env s /\
  (aggr st = A_Done -> progressMax st <= processed st + 1).
Proof.
  intros Hreach.
  pose proof (flow_reachable env s fs st Hreach) as Hflow.
  assert (Hmax : 1 <= progressMax st <= 1 + total (credited env s) (fetchers st)).
  { destruct Hreach as [schedule H].
    eapply progress_exec; [apply flow_initial | | exact H].
    cbn. split; [unfold total; cbn; lia | constructor]. }
  pose proof (total_le_Forall (credited env s)
                (fun f => scheduledCount env s (f_sub f)) _
                (fetchers st) (credited_le_scheduled env s)
                (flow_fetchers _ _ _ Hflow)) as Hle.
  rewrite (total_fmap (scheduledCount env s) f_sub), (flow_spawned _ _ _ Hflow) in Hle.
  pose proof (total_take_le (scheduledCount env s)
                (metaIndex (Subreddits (scrapingOptions s)) (meta st))
                (Subreddits (scrapingOptions s))) as Htake.
  assert (Hall : 1 <= progressMax st <= 1 + expectedTotal env s)
    by (unfold expectedTotal; lia).
  split; [exact Hall|].
  intros Hdone.
  rewrite (finished_processed env s st (sync_reachable env s fs st Hreach) Hflow Hdone).
  lia.
Qed.

End ProgressBounds.

Lemma progress_maximum_bounds_witness :
  let env := friendlyEnv twoEntries in
  let st := run env twoFeeds 400 ∅ in
  reachable env twoFeeds ∅ st /\
  aggr st = A_Done /\ processed st = 4 /\
  progressMax st <= processed st + 1.
Proof.
  intros env st.
  assert (Hreach : reachable env twoFeeds ∅ st).
  { exists (schedule_from env twoFeeds 400 (initial ∅)). vm_compute. reflexivity. }
  assert (Hdone : aggr st = A_Done) by (vm_compute; reflexivity).
  split; [exact Hreach|]. split; [exact Hdone|]. split; [vm_compute; reflexivity|].
  apply (progress_maximum_bounds env twoFeeds ∅ st Hreach). exact Hdone.
Defined.

(** ** More sample runs *)

Lemma one_worker_per_image_witness :
  let env := friendlyEnv twoEntries in
  let st := run env twoFeeds 400 ∅ in
  reachable env twoFeeds ∅ st /\
  aggr st = A_Done /\
  expectedTotal env twoFeeds = 4 /\
  length (workers st) = expectedTotal env twoFeeds /\
  processed st = expectedTotal env twoFeeds.
Proof.
  intros env st.
  assert (Hreach : reachable env twoFeeds ∅ st).
  { exists (schedule_from env twoFeeds 400 (initial ∅)). vm_compute. reflexivity. }
  assert (Hdone : aggr st = A_Done) by (vm_compute; reflexivity).
  split; [exact Hreach|]. split; [exact Hdone|]. split; [vm_compute; reflexivity|].
  apply (one_worker_per_image env twoFeeds ∅ st Hreach). exact Hdone.
Defined.


(** With two feeds the fatal error is possible: the first fetcher is at its
    write of line 209 while the second has still to add the id set of its
    feed at line 179. *)
Example two_feeds_can_race :
  let env := friendlyEnv twoEntries in
  let schedule := [RunMeta; RunMeta; RunMeta; RunMeta;
                   RunFetcher 0; RunFetcher 0; RunFetcher 0; RunFetcher 0;
                   RunFetcher 0; DetectRace 0 1] in
  feedsAnswer env twoFeeds = true /\
  (forall c, closeOk env c = true) /\
  crashed <$> exec env twoFeeds schedule (initial ∅) = Some (Some ConcurrentMapAccess).
Proof.
  split; [vm_compute; reflexivity|]. split; [intros []; reflexivity|].
  vm_compute. reflexivity.
Qed.

Lemma no_deadlock_witness :
  let env := friendlyEnv twoEntries in
  let st := run env twoFeeds 40 ∅ in
  (1 <= MaxConcurrentDownloads (scrapingOptions twoFeeds))%Z /\
  reachable env twoFeeds ∅ st /\
  crashed st = None /\
  aggr st = A_Recv /\
  canStep env twoFeeds st.
Proof.
  intros env st.
  assert (Hbound : (1 <= MaxConcurrentDownloads (scrapingOptions twoFeeds))%Z)
    by (vm_compute; discriminate).
  assert (Hreach : reachable env twoFeeds ∅ st).
  { exists (schedule_from env twoFeeds 40 (initial ∅)). vm_compute. reflexivity. }
  assert (Hc : crashed st = None) by (vm_compute; reflexivity).
  assert (Ha : aggr st = A_Recv) by (vm_compute; reflexivity).
  split; [exact Hbound|]. split; [exact Hreach|]. split; [exact Hc|]. split; [exact Ha|].
  apply (no_deadlock env twoFeeds ∅ st Hbound Hreach Hc). rewrite Ha. discriminate.
Defined.
